(** * Knowledge-graph recommendations: graph builder, PageRank solver and
      ranking fuser of [tp1/knoledge_graphs].

    The development embeds [graph.py], [recommendation.py] and the request
    handlers of [api.py] as Rocq functions and proves properties of the
    ranking engine.

    Modelling conventions.
    - A Python [dict] is an association list in insertion order
      ([dict_set] overwrites in place or appends, as assignment does).
    - A Python [set] of identifiers is a duplicate-free list, iterated in
      insertion order.
    - A Python [float] is idealised as an exact rational kept in lowest
      terms (type [float] below): its operations neither round, overflow
      nor underflow.  The theorems over this model state what the
      roundings leave alone: membership, order, lengths, errors, and the
      signs and bounds that rounding to nearest keeps.  What depends on
      the roundings is evaluated in binary64 itself, on primitive floats,
      in module [B64], a second copy of the PageRank solver.
    - A Python [int] is a [Z]; [l[:n]] follows Python for negative [n].
    - [list.sort] is a stable sort on the key tuples, here an insertion
      sort.
    - [round(x, 6)] rounds the exact value to the nearest multiple of
      10^-6, a tie to the even one; Python returns the double nearest to
      that multiple.
    - A raised exception is the [Raise] branch of [result]. *)

From Stdlib Require Import List String Ascii Bool ZArith QArith Qreduction Qabs Qround.
From Stdlib Require Import Lia Lqa Permutation Sorted Morphisms Setoid OrderedTypeEx.
From Corelib Require Import PrimFloat.
Import ListNotations.

Open Scope string_scope.
Open Scope list_scope.
Open Scope Z_scope.

Set Implicit Arguments.

(** ** Exceptions *)

Inductive exception : Type :=
| ValueError (msg : string)
| KeyError (key : string).

Inductive result (A : Type) : Type :=
| Ok (a : A)
| Raise (e : exception).

Arguments Ok {A} a.
Arguments Raise {A} e.

Definition bind {A B : Type} (m : result A) (k : A -> result B) : result B :=
  match m with
  | Ok a => k a
  | Raise e => Raise e
  end.

Notation "x <- m ;; k" := (bind m (fun x => k))
  (at level 61, m at next level, right associativity).

(** [for x in xs: acc = body(acc, x)] where the body may raise. *)
Fixpoint for_each {A S : Type} (body : S -> A -> result S) (xs : list A) (acc : S)
  : result S :=
  match xs with
  | [] => Ok acc
  | x :: xs' => acc' <- body acc x ;; for_each body xs' acc'
  end.

(** ** Floats as exact rationals *)

Abbreviation float := Q (only parsing).

Definition fadd (a b : float) : float := Qred (a + b).
Definition fsub (a b : float) : float := Qred (a - b).
Definition fmul (a b : float) : float := Qred (a * b).
Definition fdiv (a b : float) : float := Qred (a / b).
Definition fneg (a : float) : float := Qred (- a).
Definition fabs (a : float) : float := Qred (Qabs a).
Definition feqb (a b : float) : bool := Qeq_bool a b.
Definition fleb (a b : float) : bool := Qle_bool a b.
Definition fltb (a b : float) : bool := negb (Qle_bool b a).
Definition float_of_int (z : Z) : float := inject_Z z.

(** [sum(xs)] on floats. *)
Definition fsum (xs : list float) : float := fold_left fadd xs 0%Q.

(** [max(xs)] on a non-empty list: the first maximal element. *)
Definition fmax (x : float) (xs : list float) : float :=
  fold_left (fun m y => if fltb m y then y else m) xs x.

(** ** Keys, dicts and sets *)

Class EqDec (K : Type) : Type := eq_dec : forall x y : K, {x = y} + {x <> y}.

#[export] Instance string_EqDec : EqDec string := string_dec.

#[export] Instance pair_EqDec {A B : Type} `{EqDec A} `{EqDec B} : EqDec (A * B).
Proof.
  intros [a b] [a' b'].
  destruct (eq_dec a a') as [->|Ha]; [|right; congruence].
  destruct (eq_dec b b') as [->|Hb]; [left; reflexivity|right; congruence].
Defined.

Definition dict (K V : Type) : Type := list (K * V).

Section DictOps.
Context {K V : Type} `{EqDec K}.

Fixpoint dict_get (d : dict K V) (k : K) : option V :=
  match d with
  | [] => None
  | (k', v) :: d' => if eq_dec k k' then Some v else dict_get d' k
  end.

(** [d.get(k, default)] *)
Definition dict_get_default (d : dict K V) (k : K) (default : V) : V :=
  match dict_get d k with
  | Some v => v
  | None => default
  end.

(** [d[k] = v] *)
Fixpoint dict_set (d : dict K V) (k : K) (v : V) : dict K V :=
  match d with
  | [] => [(k, v)]
  | (k', v') :: d' =>
      if eq_dec k k' then (k', v) :: d' else (k', v') :: dict_set d' k v
  end.

Definition dict_keys (d : dict K V) : list K := map fst d.
Definition dict_values (d : dict K V) : list V := map snd d.

(** [k in d] *)
Definition dict_mem (d : dict K V) (k : K) : bool :=
  match dict_get d k with
  | Some _ => true
  | None => false
  end.

(** [{k: f(k) for k in ks}] *)
Definition dict_from_keys (f : K -> V) (ks : list K) : dict K V :=
  fold_left (fun d k => dict_set d k (f k)) ks [].
End DictOps.

(** [{k: f(k, v) for k, v in d.items()}] *)
Definition dict_map_items {K V W : Type} `{EqDec K} (f : K -> V -> W) (d : dict K V)
  : dict K W :=
  fold_left (fun acc kv => dict_set acc (fst kv) (f (fst kv) (snd kv))) d [].

Definition pyset (A : Type) : Type := list A.

Section SetOps.
Context {A : Type} `{EqDec A}.

(** [x in s] *)
Definition set_mem (x : A) (s : pyset A) : bool :=
  if in_dec eq_dec x s then true else false.

(** [s.add(x)] *)
Definition set_add (s : pyset A) (x : A) : pyset A :=
  if set_mem x s then s else s ++ [x].

(** [set(xs)] *)
Definition set_of_list (xs : list A) : pyset A := fold_left set_add xs [].

(** [a | b] *)
Definition set_union (a b : pyset A) : pyset A := fold_left set_add b a.

(** [a & b] *)
Definition set_inter (a b : pyset A) : pyset A :=
  filter (fun x => set_mem x b) a.

(** Truthiness of a container: [bool(s)]. *)
Definition nonempty {B : Type} (s : list B) : bool :=
  match s with
  | [] => false
  | _ :: _ => true
  end.
End SetOps.

(** [l[:n]] for a Python integer [n]. *)
Definition slice_to {A : Type} (l : list A) (n : Z) : list A :=
  if n <? 0 then firstn (Z.to_nat (Z.of_nat (List.length l) + n)) l
  else firstn (Z.to_nat n) l.

(** [list.sort] is a stable sort that only uses [<] on the keys; a stable
    insertion sort computes the same list. *)
Section Sorting.
Context {A : Type} (lt : A -> A -> bool).

Fixpoint insert_sorted (x : A) (l : list A) : list A :=
  match l with
  | [] => [x]
  | y :: l' => if lt y x then y :: insert_sorted x l' else x :: y :: l'
  end.

Definition list_sort (l : list A) : list A := fold_right insert_sorted [] l.
End Sorting.

(** Key [(-score, product_id)] compared as Python compares tuples. *)
Definition rank_key_lt (a b : string * float) : bool :=
  let ka := fneg (snd a) in
  let kb := fneg (snd b) in
  if feqb ka kb then String.ltb (fst a) (fst b) else fltb ka kb.

(** ** data.py *)

Record Customer : Type := {
  cust_id : string;
  cust_name : string;
  join_date : string
}.

Record Category : Type := {
  cat_id : string;
  cat_name : string
}.

Record Product : Type := {
  prod_id : string;
  prod_name : string;
  price : float;
  category_id : string
}.

Record OrderItem : Type := {
  item_product_id : string;
  quantity : Z
}.

Record Order : Type := {
  order_id : string;
  customer_id : string;
  placed_at : string;
  items : list OrderItem
}.

Record Event : Type := {
  event_id : string;
  event_customer_id : string;
  event_product_id : string;
  event_type : string;
  occurred_at : string
}.

Record Dataset : Type := {
  customers : dict string Customer;
  categories : dict string Category;
  products : dict string Product;
  orders : dict string Order;
  events : list Event
}.

Definition customer_ids (ds : Dataset) : list string := dict_keys (customers ds).
Definition product_ids (ds : Dataset) : list string := dict_keys (products ds).

(** ** graph.py *)

Definition EVENT_WEIGHTS : dict string float :=
  [("view", 1 # 2); ("click", 1); ("add_to_cart", 2)]%Q.

Record GraphData : Type := {
  dataset : Dataset;
  product_cooccurrence : dict string (dict string Z);
  product_customers : dict string (pyset string);
  customer_products : dict string (pyset string);
  event_weights : dict (string * string) float;
  product_adjacency : dict string (dict string float)
}.

(** [GraphData.neighbors] *)
Definition neighbors (g : GraphData) (pid : string) : dict string float :=
  dict_get_default (product_adjacency g) pid [].

(** [{pid: {} for pid in product_ids}] *)
Definition _initial_adjacency (pids : list string) : dict string (dict string float) :=
  dict_from_keys (fun _ => []) pids.

(** [itertools.combinations(xs, 2)] *)
Fixpoint combinations2 {A : Type} (xs : list A) : list (A * A) :=
  match xs with
  | [] => []
  | x :: xs' => map (pair x) xs' ++ combinations2 xs'
  end.

(** [m[k].add(x)] on a [defaultdict(set)] *)
Definition multimap_add (m : dict string (pyset string)) (k x : string)
  : dict string (pyset string) :=
  dict_set m k (set_add (dict_get_default m k []) x).

(** [c[k] += 1] on a [Counter] *)
Definition counter_incr (c : dict string Z) (k : string) : dict string Z :=
  dict_set c k (dict_get_default c k 0 + 1).

(** [cooc[a][b] += 1] on a [defaultdict(Counter)] *)
Definition cooccurrence_incr (cooc : dict string (dict string Z)) (a b : string)
  : dict string (dict string Z) :=
  dict_set cooc a (counter_incr (dict_get_default cooc a []) b).

(** The four accumulators of [build_graph]. *)
Record Accumulators : Type := {
  acc_cooccurrence : dict string (dict string Z);
  acc_product_customers : dict string (pyset string);
  acc_customer_products : dict string (pyset string);
  acc_event_weights : dict (string * string) float
}.

Definition empty_accumulators : Accumulators :=
  {| acc_cooccurrence := []; acc_product_customers := [];
     acc_customer_products := []; acc_event_weights := [] |}.

(** [product_customers[pid].add(cid); customer_products[cid].add(pid)] *)
Definition record_incidence (cid : string) (st : Accumulators) (pid : string)
  : Accumulators :=
  {| acc_cooccurrence := acc_cooccurrence st;
     acc_product_customers := multimap_add (acc_product_customers st) pid cid;
     acc_customer_products := multimap_add (acc_customer_products st) cid pid;
     acc_event_weights := acc_event_weights st |}.

(** [product_cooccurrence[left][right] += 1;
    product_cooccurrence[right][left] += 1] *)
Definition record_pair (st : Accumulators) (lr : string * string) : Accumulators :=
  {| acc_cooccurrence :=
       cooccurrence_incr (cooccurrence_incr (acc_cooccurrence st) (fst lr) (snd lr))
         (snd lr) (fst lr);
     acc_product_customers := acc_product_customers st;
     acc_customer_products := acc_customer_products st;
     acc_event_weights := acc_event_weights st |}.

(** Body of [for order in dataset.orders.values()]. *)
Definition process_order (st : Accumulators) (order : Order) : Accumulators :=
  let products_in_order := map item_product_id (items order) in
  let st1 := fold_left (record_incidence (customer_id order)) products_in_order st in
  fold_left record_pair (combinations2 products_in_order) st1.

(** Body of [for event in dataset.events]: incidence first, then the
    weight of the event type, 0 for a type outside [EVENT_WEIGHTS]. *)
Definition process_event (st : Accumulators) (event : Event) : Accumulators :=
  let st1 := record_incidence (event_customer_id event) st (event_product_id event) in
  let weight := dict_get_default EVENT_WEIGHTS (event_type event) 0%Q in
  let key := (event_customer_id event, event_product_id event) in
  {| acc_cooccurrence := acc_cooccurrence st1;
     acc_product_customers := acc_product_customers st1;
     acc_customer_products := acc_customer_products st1;
     acc_event_weights :=
       dict_set (acc_event_weights st1) key
         (fadd (dict_get_default (acc_event_weights st1) key 0%Q) weight) |}.

(** Body of [for product_id, neighbors in product_cooccurrence.items()]. *)
Definition normalize_row (adjacency : dict string (dict string float))
  (row : string * dict string Z) : dict string (dict string float) :=
  let total := fold_left Z.add (dict_values (snd row)) 0 in
  if total =? 0 then adjacency
  else dict_set adjacency (fst row)
         (dict_map_items (fun _ count => fdiv (float_of_int count) (float_of_int total))
            (snd row)).

Definition build_graph (ds : Dataset) : GraphData :=
  let st1 := fold_left process_order (dict_values (orders ds)) empty_accumulators in
  let st2 := fold_left process_event (events ds) st1 in
  let adjacency :=
    fold_left normalize_row (acc_cooccurrence st2) (_initial_adjacency (product_ids ds)) in
  {| dataset := ds;
     product_cooccurrence := acc_cooccurrence st2;
     product_customers := acc_product_customers st2;
     customer_products := acc_customer_products st2;
     event_weights := acc_event_weights st2;
     product_adjacency := adjacency |}.

(** [load_dataset()]: the toy dataset of the README. *)
Definition mk_order (oid cid ts : string) (pids : list string) : Order :=
  {| order_id := oid; customer_id := cid; placed_at := ts;
     items := map (fun pid => {| item_product_id := pid; quantity := 1 |}) pids |}.

Definition load_dataset : Dataset :=
  {| customers :=
       [("C1", {| cust_id := "C1"; cust_name := "Alice"; join_date := "2024-01-02" |});
        ("C2", {| cust_id := "C2"; cust_name := "Bob"; join_date := "2024-02-11" |});
        ("C3", {| cust_id := "C3"; cust_name := "Chlo√©"; join_date := "2024-03-05" |})];
     categories :=
       [("CAT1", {| cat_id := "CAT1"; cat_name := "Electronics" |});
        ("CAT2", {| cat_id := "CAT2"; cat_name := "Books" |})];
     products :=
       [("P1", {| prod_id := "P1"; prod_name := "Wireless Mouse";
                  price := (2999 # 100)%Q; category_id := "CAT1" |});
        ("P2", {| prod_id := "P2"; prod_name := "USB-C Hub";
                  price := 49%Q; category_id := "CAT1" |});
        ("P3", {| prod_id := "P3"; prod_name := "Graph Databases Book";
                  price := 39%Q; category_id := "CAT2" |});
        ("P4", {| prod_id := "P4"; prod_name := "Mechanical Keyboard";
                  price := 89%Q; category_id := "CAT1" |})];
     orders :=
       [("O1", mk_order "O1" "C1" "2024-04-01T10:15:00Z" ["P1"; "P2"]);
        ("O2", mk_order "O2" "C2" "2024-04-02T12:30:00Z" ["P3"]);
        ("O3", mk_order "O3" "C1" "2024-04-05T08:05:00Z" ["P4"; "P2"])];
     events :=
       [{| event_id := "E1"; event_customer_id := "C1"; event_product_id := "P3";
           event_type := "view"; occurred_at := "2024-04-01T09:00:00Z" |};
        {| event_id := "E2"; event_customer_id := "C1"; event_product_id := "P3";
           event_type := "click"; occurred_at := "2024-04-01T09:01:00Z" |};
        {| event_id := "E3"; event_customer_id := "C3"; event_product_id := "P1";
           event_type := "view"; occurred_at := "2024-04-03T16:20:00Z" |};
        {| event_id := "E4"; event_customer_id := "C2"; event_product_id := "P2";
           event_type := "view"; occurred_at := "2024-04-03T12:00:00Z" |};
        {| event_id := "E5"; event_customer_id := "C2"; event_product_id := "P4";
           event_type := "add_to_cart"; occurred_at := "2024-04-03T12:10:00Z" |}] |}.

(** The toy dataset with one more customer who has neither orders nor
    events. *)
Definition dataset_with_newcomer : Dataset :=
  {| customers :=
       customers load_dataset
       ++ [("C4", {| cust_id := "C4"; cust_name := "Dana"; join_date := "2024-04-06" |})];
     categories := categories load_dataset;
     products := products load_dataset;
     orders := orders load_dataset;
     events := events load_dataset |}.

(** The dataset with one more event at the end of the event list. *)
Definition add_event (ds : Dataset) (e : Event) : Dataset :=
  {| customers := customers ds;
     categories := categories ds;
     products := products ds;
     orders := orders ds;
     events := events ds ++ [e] |}.

(** An event of a type outside [EVENT_WEIGHTS], on a product the customer
    had no order or event on. *)
Definition wishlist_event : Event :=
  {| event_id := "E6"; event_customer_id := "C3"; event_product_id := "P2";
     event_type := "wishlist"; occurred_at := "2024-04-04T00:00:00Z" |}.

(** An event of a type outside [EVENT_WEIGHTS], on a product the customer
    already viewed. *)
Definition repeated_event : Event :=
  {| event_id := "E7"; event_customer_id := "C1"; event_product_id := "P3";
     event_type := "wishlist"; occurred_at := "2024-04-04T00:00:00Z" |}.

(** ** recommendation.py *)

Definition STRATEGY_WEIGHTS : dict string float :=
  [("co_occurrence", 2 # 5); ("similarity", 3 # 10); ("personalized_pagerank", 3 # 10)]%Q.

Record Recommendation : Type := {
  product_id : string;
  score : float;
  contributions : dict string float
}.

Record RecommendationEngine : Type := {
  graph : GraphData;
  damping : float;
  tolerance : float;
  max_iterations : Z;
  _product_ids : list string;
  _global_pagerank : dict string float
}.

(** [d[k]] *)
Definition getitem {V : Type} (d : dict string V) (k : string) : result V :=
  match dict_get d k with
  | Some v => Ok v
  | None => Raise (KeyError k)
  end.

(** [len(xs)] as a float operand *)
Definition flen {A : Type} (xs : list A) : float :=
  float_of_int (Z.of_nat (List.length xs)).

Section Methods.
Variable self : RecommendationEngine.

(** [ValueError(f"Unknown customer: {customer_id}")] *)
Definition unknown_customer (cid : string) : exception :=
  ValueError (String.append "Unknown customer: " cid).

Definition _ensure_known_customer (cid : string) : result unit :=
  if dict_mem (customers (dataset (graph self))) cid then Ok tt
  else Raise (unknown_customer cid).

Definition _interacted_products (cid : string) : pyset string :=
  set_of_list
    (map (fun kw => snd (fst kw))
       (filter (fun kw : string * string * float =>
                  if eq_dec (fst (fst kw)) cid then fltb 0%Q (snd kw) else false)
          (event_weights (graph self)))).

Definition _co_occurrence_scores (seeds : pyset string) : dict string float :=
  fold_left
    (fun scores seed =>
       fold_left
         (fun scores (cw : string * Z) =>
            if set_mem (fst cw) seeds then scores
            else dict_set scores (fst cw)
                   (fadd (dict_get_default scores (fst cw) 0%Q) (float_of_int (snd cw))))
         (dict_get_default (product_cooccurrence (graph self)) seed [])
         scores)
    seeds [].

(** Body of [for seed in seeds] in [_similarity_scores]. *)
Definition jaccard_step (candidate_customers : pyset string) (accumulator : float)
  (seed : string) : float :=
  let seed_customers := dict_get_default (product_customers (graph self)) seed [] in
  if negb (nonempty seed_customers) && negb (nonempty candidate_customers)
  then accumulator
  else
    let union := set_union seed_customers candidate_customers in
    if negb (nonempty union) then accumulator
    else
      let intersection := set_inter seed_customers candidate_customers in
      if negb (nonempty intersection) then accumulator
      else fadd accumulator (fdiv (flen intersection) (flen union)).

Definition _similarity_scores (seeds : pyset string) : dict string float :=
  fold_left
    (fun scores (cc : string * pyset string) =>
       if set_mem (fst cc) seeds then scores
       else
         let accumulator := fold_left (jaccard_step (snd cc)) seeds 0%Q in
         if fltb 0%Q accumulator then dict_set scores (fst cc) accumulator
         else scores)
    (product_customers (graph self)) [].

Definition _uniform_personalization : dict string float :=
  if negb (nonempty (_product_ids self)) then []
  else
    let weight := fdiv 1%Q (flen (_product_ids self)) in
    dict_from_keys (fun _ => weight) (_product_ids self).

Definition _normalize_personalization (values : dict string float) : dict string float :=
  let total :=
    fsum (map (fun pid => dict_get_default values pid 0%Q) (_product_ids self)) in
  if feqb total 0%Q then _uniform_personalization
  else dict_from_keys (fun pid => fdiv (dict_get_default values pid 0%Q) total)
         (_product_ids self).

(** [new_ranks[k] += x] *)
Definition iadd (d : dict string float) (k : string) (x : result float)
  : result (dict string float) :=
  old <- getitem d k ;;
  x' <- x ;;
  Ok (dict_set d k (fadd old x')).

(** [not self.graph.product_adjacency.get(product_id)] *)
Definition is_sink (pid : string) : bool :=
  negb (nonempty (dict_get_default (product_adjacency (graph self)) pid [])).

(** [sum(ranks[pid] for pid in self._product_ids if <pid is a sink>)] *)
Definition sink_rank_sum (ranks : dict string float) : result float :=
  for_each
    (fun acc pid =>
       if is_sink pid then (r <- getitem ranks pid ;; Ok (fadd acc r)) else Ok acc)
    (_product_ids self) 0%Q.

(** The propagation loop: every product with neighbours adds
    [damping * ranks[product_id] * weight] to each neighbour. *)
Definition propagate (ranks : dict string float) (new_ranks : dict string float)
  : result (dict string float) :=
  for_each
    (fun new_ranks pid =>
       let neighbors := dict_get_default (product_adjacency (graph self)) pid [] in
       if negb (nonempty neighbors) then Ok new_ranks
       else
         for_each
           (fun new_ranks (nw : string * float) =>
              iadd new_ranks (fst nw)
                (r <- getitem ranks pid ;; Ok (fmul (fmul (damping self) r) (snd nw))))
           neighbors new_ranks)
    (_product_ids self) new_ranks.

(** [if leak: for pid in self._product_ids: new_ranks[pid] += leak] *)
Definition add_leak (leak : float) (new_ranks : dict string float)
  : result (dict string float) :=
  if negb (feqb leak 0%Q)
  then for_each (fun new_ranks pid => iadd new_ranks pid (Ok leak))
         (_product_ids self) new_ranks
  else Ok new_ranks.

(** [sum(abs(new_ranks[pid] - ranks[pid]) for pid in self._product_ids)] *)
Definition l1_delta (new_ranks ranks : dict string float) : result float :=
  for_each
    (fun acc pid =>
       n <- getitem new_ranks pid ;;
       r <- getitem ranks pid ;;
       Ok (fadd acc (fabs (fsub n r))))
    (_product_ids self) 0%Q.

(** One pass of the body of the [for _ in range(max_iterations)] loop:
    the new rank vector and the L1 distance to the previous one. *)
Definition pagerank_iteration (personalization ranks : dict string float)
  : result (dict string float * float) :=
  let new_ranks :=
    dict_from_keys
      (fun pid => fmul (fsub 1%Q (damping self)) (dict_get_default personalization pid 0%Q))
      (_product_ids self) in
  sink_rank <- sink_rank_sum ranks ;;
  let leak := fdiv (fmul (damping self) sink_rank) (flen (_product_ids self)) in
  new_ranks <- propagate ranks new_ranks ;;
  new_ranks <- add_leak leak new_ranks ;;
  delta <- l1_delta new_ranks ranks ;;
  Ok (new_ranks, delta).

(** [for _ in range(max_iterations)], left early when
    [delta < self.tolerance]. *)
Fixpoint pagerank_loop (personalization : dict string float) (remaining : nat)
  (ranks : dict string float) : result (dict string float) :=
  match remaining with
  | O => Ok ranks
  | S remaining' =>
      step <- pagerank_iteration personalization ranks ;;
      if fltb (snd step) (tolerance self) then Ok (fst step)
      else pagerank_loop personalization remaining' (fst step)
  end.

Definition _run_pagerank (personalization : dict string float)
  : result (dict string float) :=
  if negb (nonempty (_product_ids self)) then Ok []
  else
    let ranks :=
      dict_from_keys (fun _ => fdiv 1%Q (flen (_product_ids self))) (_product_ids self) in
    let personalization := _normalize_personalization personalization in
    pagerank_loop personalization (Z.to_nat (max_iterations self)) ranks.

Definition _personalized_pagerank (seeds : pyset string) : result (dict string float) :=
  let personalization := dict_from_keys (fun _ => 0%Q) (_product_ids self) in
  if negb (nonempty seeds) then Ok (_global_pagerank self)
  else
    let seed_weight := fdiv 1%Q (flen seeds) in
    let personalization :=
      fold_left (fun p seed => dict_set p seed seed_weight) seeds personalization in
    _run_pagerank personalization.
End Methods.

Definition _normalize_scores (scores : dict string float) : dict string float :=
  match dict_values scores with
  | [] => []
  | v :: vs =>
      let max_value := fmax v vs in
      if feqb max_value 0%Q then dict_map_items (fun _ _ => 0%Q) scores
      else dict_map_items (fun _ value => fdiv value max_value) scores
  end.

(** Body of [for product_id, value in scores.items()]. *)
Definition fuse_strategy (exclude : pyset string) (name : string) (weight : float)
  (combined : dict string (dict string float)) (pv : string * float)
  : dict string (dict string float) :=
  if set_mem (fst pv) exclude || fleb (snd pv) 0%Q then combined
  else dict_set combined (fst pv)
         (dict_set (dict_get_default combined (fst pv) []) name (fmul (snd pv) weight)).

(** Body of [for name, scores in strategies.items()]. *)
Definition fuse (exclude : pyset string) (combined : dict string (dict string float))
  (strategy : string * dict string float) : dict string (dict string float) :=
  let weight := dict_get_default STRATEGY_WEIGHTS (fst strategy) 0%Q in
  if feqb weight 0%Q then combined
  else fold_left (fuse_strategy exclude (fst strategy) weight) (snd strategy) combined.

(** [Recommendation(product_id, sum(contributions.values()), contributions)] *)
Definition make_recommendation (pc : string * dict string float) : Recommendation :=
  {| product_id := fst pc; score := fsum (dict_values (snd pc)); contributions := snd pc |}.

(** Order of the keys [(-rec.score, rec.product_id)]. *)
Definition recommendation_lt (a b : Recommendation) : bool :=
  rank_key_lt (product_id a, score a) (product_id b, score b).

Definition _combine_strategies (strategies : dict string (dict string float))
  (exclude : pyset string) : list Recommendation :=
  let combined := fold_left (fuse exclude) strategies [] in
  list_sort recommendation_lt (map make_recommendation combined).

Definition _top_items (scores : dict string float) (top_n : Z) (exclude : pyset string)
  : list (string * float) :=
  let ranked := filter (fun item => negb (set_mem (fst item) exclude)) scores in
  slice_to (list_sort rank_key_lt ranked) top_n.

(** [Recommendation(product_id, score, {"global_pagerank": score})] *)
Definition global_recommendation (item : string * float) : Recommendation :=
  {| product_id := fst item; score := snd item;
     contributions := [("global_pagerank", snd item)] |}.

Definition _fallback_top_pagerank (self : RecommendationEngine) (top_n : Z)
  : list Recommendation :=
  map global_recommendation (_top_items (_global_pagerank self) top_n []).

(** [set(self.graph.customer_products.get(customer_id, set()))] *)
Definition purchased_of (self : RecommendationEngine) (cid : string) : pyset string :=
  set_of_list (dict_get_default (customer_products (graph self)) cid []).

(** [purchased or interacted] *)
Definition seeds_of (purchased interacted : pyset string) : pyset string :=
  if nonempty purchased then purchased else interacted.

Definition recommend_for_customer (self : RecommendationEngine) (cid : string) (top_n : Z)
  : result (list Recommendation) :=
  _ <- _ensure_known_customer self cid ;;
  let purchased := purchased_of self cid in
  let interacted := _interacted_products self cid in
  let seeds := seeds_of purchased interacted in
  if negb (nonempty seeds) then Ok (_fallback_top_pagerank self top_n)
  else
    let co := _normalize_scores (_co_occurrence_scores self seeds) in
    let sim := _normalize_scores (_similarity_scores self seeds) in
    ppr <- _personalized_pagerank self seeds ;;
    let strategies :=
      [("co_occurrence", co); ("similarity", sim);
       ("personalized_pagerank", _normalize_scores ppr)] in
    let exclude := set_union purchased interacted in
    Ok (slice_to (_combine_strategies strategies exclude) top_n).

Definition strategy_breakdown (self : RecommendationEngine) (cid : string) (top_n : Z)
  : result (dict string (list (string * float))) :=
  _ <- _ensure_known_customer self cid ;;
  let purchased := purchased_of self cid in
  let interacted := _interacted_products self cid in
  let seeds := seeds_of purchased interacted in
  if negb (nonempty seeds)
  then Ok [("global_pagerank", _top_items (_global_pagerank self) top_n [])]
  else
    let co := _co_occurrence_scores self seeds in
    let sim := _similarity_scores self seeds in
    ppr <- _personalized_pagerank self seeds ;;
    Ok (dict_map_items
          (fun _ scores => _top_items scores top_n (set_union purchased interacted))
          [("co_occurrence", co); ("similarity", sim); ("personalized_pagerank", ppr)]).

(** [RecommendationEngine.__init__] *)
Definition new_engine (g : GraphData) (d tol : float) (iters : Z)
  : result RecommendationEngine :=
  let self :=
    {| graph := g; damping := d; tolerance := tol; max_iterations := iters;
       _product_ids := dict_keys (product_adjacency g); _global_pagerank := [] |} in
  global <- _run_pagerank self (_uniform_personalization self) ;;
  Ok {| graph := g; damping := d; tolerance := tol; max_iterations := iters;
        _product_ids := dict_keys (product_adjacency g); _global_pagerank := global |}.

Definition default_damping : float := (17 # 20)%Q.
Definition default_tolerance : float := (1 # 1000000)%Q.
Definition default_max_iterations : Z := 50.

Definition default_engine (g : GraphData) : result RecommendationEngine :=
  new_engine g default_damping default_tolerance default_max_iterations.

(** ** api.py

    The request handlers of [create_app] as functions of the engine.  The
    bounds [Query(3, ge=1, le=10)] on [top_n] are checked by the framework
    before a handler runs and are not part of the handlers. *)

(** The nearest integer, a tie going to the even one. *)
Definition round_half_even (y : Q) : Z :=
  let lower := Qfloor y in
  let rest := (y - inject_Z lower)%Q in
  if fltb rest (1 # 2) then lower
  else if fltb (1 # 2) rest then lower + 1
  else if Z.even lower then lower else lower + 1.

(** [round(x, 6)] in the rational model: the nearest multiple of 10^-6, a
    tie going to the even multiple.  Python returns the double nearest to
    that multiple, so the value here and the value there differ by the
    rounding of one decimal. *)
Definition round6 (x : float) : float :=
  Qred (inject_Z (round_half_even (x * 1000000)) / 1000000).

(** The response models. *)
Record RecommendationItem : Type := {
  resp_product_id : string;
  resp_score : float;
  resp_contributions : dict string float
}.

Record RecommendationResponse : Type := {
  resp_customer_id : string;
  resp_recommendations : list RecommendationItem
}.

Record StrategyEntry : Type := {
  entry_product_id : string;
  entry_score : float
}.

Record StrategyBreakdownResponse : Type := {
  breakdown_customer_id : string;
  breakdown_strategies : dict string (list StrategyEntry)
}.

(** Outcome of a request handler: a response body, an [HTTPException], or
    an exception that the handler lets through. *)
Inductive http_result (A : Type) : Type :=
| Http_ok (body : A)
| HTTPException (status_code : Z) (detail : string)
| Unhandled (e : exception).
Arguments Http_ok {A} body.
Arguments HTTPException {A} status_code detail.
Arguments Unhandled {A} e.

(** [[RecommendationItem(...) for item in recommendations]] *)
Definition _to_response_items (recommendations : list Recommendation)
  : list RecommendationItem :=
  map (fun item =>
         {| resp_product_id := product_id item;
            resp_score := round6 (score item);
            resp_contributions :=
              dict_map_items (fun _ v => round6 v) (contributions item) |})
    recommendations.

(** [try: ... except ValueError as error: raise HTTPException(404, str(error))] *)
Definition customer_recommendations (engine : RecommendationEngine)
  (customer_id : string) (top_n : Z) : http_result RecommendationResponse :=
  match recommend_for_customer engine customer_id top_n with
  | Ok recommendations =>
      Http_ok {| resp_customer_id := customer_id;
                 resp_recommendations := _to_response_items recommendations |}
  | Raise (ValueError msg) => HTTPException 404 msg
  | Raise e => Unhandled e
  end.

Definition customer_strategy_breakdown (engine : RecommendationEngine)
  (customer_id : string) (top_n : Z) : http_result StrategyBreakdownResponse :=
  match strategy_breakdown engine customer_id top_n with
  | Ok breakdown =>
      let serializable :=
        dict_map_items
          (fun _ entries =>
             map (fun ps : string * float =>
                    {| entry_product_id := fst ps; entry_score := round6 (snd ps) |})
               entries)
          breakdown in
      Http_ok {| breakdown_customer_id := customer_id;
                 breakdown_strategies := serializable |}
  | Raise (ValueError msg) => HTTPException 404 msg
  | Raise e => Unhandled e
  end.

(** ** The PageRank solver in binary64

    [normalize_row] and the solver once more, statement for statement, on
    Rocq's primitive floats: IEEE 754 binary64 with rounding to nearest
    even, the arithmetic of a Python [float].  [sum] adds from left to
    right starting from [0] (CPython up to 3.11; later versions compensate
    the additions); an [int] operand is converted exactly (integers below
    2^53); the co-occurrence counts are integers and are those of
    [build_graph]. *)
Module B64.
Local Open Scope float_scope.

(** An [int] operand of a float operation. *)
Fixpoint float_of_positive (p : positive) : PrimFloat.float :=
  match p with
  | xH => 1
  | xO p' => 2 * float_of_positive p'
  | xI p' => 2 * float_of_positive p' + 1
  end.

Definition float_of_int (z : Z) : PrimFloat.float :=
  match z with
  | Z0 => 0
  | Zpos p => float_of_positive p
  | Zneg p => - float_of_positive p
  end.

(** [len(xs)] as a float operand *)
Definition flen {A : Type} (xs : list A) : PrimFloat.float :=
  float_of_int (Z.of_nat (List.length xs)).

(** [sum(xs)]: the additions in list order, starting from 0. *)
Definition fsum (xs : list PrimFloat.float) : PrimFloat.float :=
  fold_left PrimFloat.add xs 0.

(** [{pid: {} for pid in product_ids}] *)
Definition _initial_adjacency (pids : list string)
  : dict string (dict string PrimFloat.float) :=
  dict_from_keys (fun _ => []) pids.

(** Body of [for product_id, neighbors in product_cooccurrence.items()]. *)
Definition normalize_row (adjacency : dict string (dict string PrimFloat.float))
  (row : string * dict string Z) : dict string (dict string PrimFloat.float) :=
  let total := fold_left Z.add (dict_values (snd row)) 0%Z in
  if (total =? 0)%Z then adjacency
  else dict_set adjacency (fst row)
         (dict_map_items (fun _ count => float_of_int count / float_of_int total)
            (snd row)).

(** [build_graph(dataset).product_adjacency] *)
Definition product_adjacency (ds : Dataset) : dict string (dict string PrimFloat.float) :=
  fold_left normalize_row (product_cooccurrence (build_graph ds))
    (_initial_adjacency (product_ids ds)).

(** The fields of the engine that the solver reads; [adjacency] is
    [self.graph.product_adjacency]. *)
Record RecommendationEngine : Type := {
  adjacency : dict string (dict string PrimFloat.float);
  damping : PrimFloat.float;
  tolerance : PrimFloat.float;
  max_iterations : Z;
  _product_ids : list string;
  _global_pagerank : dict string PrimFloat.float
}.

Section Methods.
Variable self : RecommendationEngine.

Definition _uniform_personalization : dict string PrimFloat.float :=
  if negb (nonempty (_product_ids self)) then []
  else
    let weight := 1 / flen (_product_ids self) in
    dict_from_keys (fun _ => weight) (_product_ids self).

Definition _normalize_personalization (values : dict string PrimFloat.float)
  : dict string PrimFloat.float :=
  let total := fsum (map (fun pid => dict_get_default values pid 0) (_product_ids self)) in
  if total =? 0 then _uniform_personalization
  else dict_from_keys (fun pid => dict_get_default values pid 0 / total)
         (_product_ids self).

(** [new_ranks[k] += x] *)
Definition iadd (d : dict string PrimFloat.float) (k : string) (x : result PrimFloat.float)
  : result (dict string PrimFloat.float) :=
  old <- getitem d k ;;
  x' <- x ;;
  Ok (dict_set d k (old + x')).

(** [not self.graph.product_adjacency.get(product_id)] *)
Definition is_sink (pid : string) : bool :=
  negb (nonempty (dict_get_default (adjacency self) pid [])).

(** [sum(ranks[pid] for pid in self._product_ids if <pid is a sink>)] *)
Definition sink_rank_sum (ranks : dict string PrimFloat.float) : result PrimFloat.float :=
  for_each
    (fun acc pid =>
       if is_sink pid then (r <- getitem ranks pid ;; Ok (acc + r)) else Ok acc)
    (_product_ids self) 0.

(** The propagation loop: every product with neighbours adds
    [damping * ranks[product_id] * weight] to each neighbour. *)
Definition propagate (ranks : dict string PrimFloat.float)
  (new_ranks : dict string PrimFloat.float) : result (dict string PrimFloat.float) :=
  for_each
    (fun new_ranks pid =>
       let neighbors := dict_get_default (adjacency self) pid [] in
       if negb (nonempty neighbors) then Ok new_ranks
       else
         for_each
           (fun new_ranks (nw : string * PrimFloat.float) =>
              iadd new_ranks (fst nw)
                (r <- getitem ranks pid ;; Ok (damping self * r * snd nw)))
           neighbors new_ranks)
    (_product_ids self) new_ranks.

(** [if leak: for pid in self._product_ids: new_ranks[pid] += leak] *)
Definition add_leak (leak : PrimFloat.float) (new_ranks : dict string PrimFloat.float)
  : result (dict string PrimFloat.float) :=
  if negb (leak =? 0)
  then for_each (fun new_ranks pid => iadd new_ranks pid (Ok leak))
         (_product_ids self) new_ranks
  else Ok new_ranks.

(** [sum(abs(new_ranks[pid] - ranks[pid]) for pid in self._product_ids)] *)
Definition l1_delta (new_ranks ranks : dict string PrimFloat.float)
  : result PrimFloat.float :=
  for_each
    (fun acc pid =>
       n <- getitem new_ranks pid ;;
       r <- getitem ranks pid ;;
       Ok (acc + abs (n - r)))
    (_product_ids self) 0.

(** One pass of the body of the [for _ in range(max_iterations)] loop:
    the new rank vector and the L1 distance to the previous one. *)
Definition pagerank_iteration (personalization ranks : dict string PrimFloat.float)
  : result (dict string PrimFloat.float * PrimFloat.float) :=
  let new_ranks :=
    dict_from_keys
      (fun pid => (1 - damping self) * dict_get_default personalization pid 0)
      (_product_ids self) in
  sink_rank <- sink_rank_sum ranks ;;
  let leak := damping self * sink_rank / flen (_product_ids self) in
  new_ranks <- propagate ranks new_ranks ;;
  new_ranks <- add_leak leak new_ranks ;;
  delta <- l1_delta new_ranks ranks ;;
  Ok (new_ranks, delta).

(** [for _ in range(max_iterations)], left early when
    [delta < self.tolerance]. *)
Fixpoint pagerank_loop (personalization : dict string PrimFloat.float) (remaining : nat)
  (ranks : dict string PrimFloat.float) : result (dict string PrimFloat.float) :=
  match remaining with
  | O => Ok ranks
  | S remaining' =>
      step <- pagerank_iteration personalization ranks ;;
      if snd step <? tolerance self then Ok (fst step)
      else pagerank_loop personalization remaining' (fst step)
  end.

Definition _run_pagerank (personalization : dict string PrimFloat.float)
  : result (dict string PrimFloat.float) :=
  if negb (nonempty (_product_ids self)) then Ok []
  else
    let ranks :=
      dict_from_keys (fun _ => 1 / flen (_product_ids self)) (_product_ids self) in
    let personalization := _normalize_personalization personalization in
    pagerank_loop personalization (Z.to_nat (max_iterations self)) ranks.

Definition _personalized_pagerank (seeds : pyset string)
  : result (dict string PrimFloat.float) :=
  let personalization := dict_from_keys (fun _ => 0) (_product_ids self) in
  if negb (nonempty seeds) then Ok (_global_pagerank self)
  else
    let seed_weight := 1 / flen seeds in
    let personalization :=
      fold_left (fun p seed => dict_set p seed seed_weight) seeds personalization in
    _run_pagerank personalization.
End Methods.

(** [RecommendationEngine(build_graph(dataset), damping=d, tolerance=tol,
    max_iterations=iters)] *)
Definition new_engine (ds : Dataset) (d tol : PrimFloat.float) (iters : Z)
  : result RecommendationEngine :=
  let self :=
    {| adjacency := product_adjacency ds; damping := d; tolerance := tol;
       max_iterations := iters;
       _product_ids := dict_keys (product_adjacency ds); _global_pagerank := [] |} in
  global <- _run_pagerank self (_uniform_personalization self) ;;
  Ok {| adjacency := product_adjacency ds; damping := d; tolerance := tol;
        max_iterations := iters;
        _product_ids := dict_keys (product_adjacency ds); _global_pagerank := global |}.

(** The defaults [0.85] and [1e-6]: the doubles nearest to the decimals. *)
Definition default_damping : PrimFloat.float := 0x1.b333333333333p-1.
Definition default_tolerance : PrimFloat.float := 0x1.0c6f7a0b5ed8dp-20.

(** [abs(sum(ranks.values()) - 1) <= 1e-6] *)
Definition sums_to_one (ranks : dict string PrimFloat.float) : bool :=
  abs (fsum (dict_values ranks) - 1) <=? default_tolerance.
End B64.

(** * Specification vocabulary

    Definitions used to state and prove the properties: exact sums, the
    PageRank loop body as pure folds, and the invariants of the graph, the
    engine and the ranking. *)

(** Mathematical sum of a list of rationals. *)
Definition qsum (xs : list Q) : Q := fold_right Qplus 0%Q xs.

(** Rank of a product in a rank vector, and total mass over the products. *)
Definition rk (m : dict string Q) (pid : string) : Q := dict_get_default m pid 0%Q.

Definition total_rank (pids : list string) (m : dict string Q) : Q :=
  qsum (map (rk m) pids).

(** [m[k] += x] when [k] is present. *)
Definition bump (m : dict string Q) (k : string) (x : Q) : dict string Q :=
  dict_set m k (fadd (rk m k) x).

(** The loop body of the solver as pure folds over rank vectors that have
    one entry per product. *)
Definition push (self : RecommendationEngine) (ranks : dict string Q) (pid : string)
  (m : dict string Q) (nw : string * Q) : dict string Q :=
  bump m (fst nw) (fmul (fmul (damping self) (rk ranks pid)) (snd nw)).

Definition push_row (self : RecommendationEngine) (ranks : dict string Q)
  (m : dict string Q) (pid : string) : dict string Q :=
  fold_left (push self ranks pid)
    (dict_get_default (product_adjacency (graph self)) pid []) m.

Definition spread (self : RecommendationEngine) (leak : Q) (m : dict string Q)
  : dict string Q :=
  fold_left (fun m pid => bump m pid leak) (_product_ids self) m.

Definition sink_mass (self : RecommendationEngine) (ranks : dict string Q) : Q :=
  fold_left (fun acc pid => if is_sink self pid then fadd acc (rk ranks pid) else acc)
    (_product_ids self) 0%Q.

Definition delta_of (self : RecommendationEngine) (new_ranks ranks : dict string Q) : Q :=
  fold_left (fun acc pid => fadd acc (fabs (fsub (rk new_ranks pid) (rk ranks pid))))
    (_product_ids self) 0%Q.

Definition base_ranks (self : RecommendationEngine) (personalization : dict string Q)
  : dict string Q :=
  dict_from_keys (fun pid => fmul (fsub 1%Q (damping self)) (rk personalization pid))
    (_product_ids self).

Definition leak_of (self : RecommendationEngine) (ranks : dict string Q) : Q :=
  fdiv (fmul (damping self) (sink_mass self ranks)) (flen (_product_ids self)).

Definition next_ranks (self : RecommendationEngine) (personalization ranks : dict string Q)
  : dict string Q :=
  let propagated :=
    fold_left (push_row self ranks) (_product_ids self) (base_ranks self personalization) in
  if negb (feqb (leak_of self ranks) 0%Q) then spread self (leak_of self ranks) propagated
  else propagated.

Definition initial_ranks (self : RecommendationEngine) : dict string Q :=
  dict_from_keys (fun _ => fdiv 1%Q (flen (_product_ids self))) (_product_ids self).

(** [x] may stand before [y] in the sorted list: [y] is not smaller. *)
Definition not_after {A : Type} (lt : A -> A -> bool) (x y : A) : Prop := lt y x = false.

Definition row_total (row : dict string Z) : Z := fold_left Z.add (dict_values row) 0.

Definition normalized_row (row : dict string Z) : dict string Q :=
  dict_map_items
    (fun _ count => fdiv (float_of_int count) (float_of_int (row_total row))) row.

(** [n] is recorded as a co-purchase of [p]. *)
Definition edge (cooc : dict string (dict string Z)) (p n : string) : Prop :=
  exists row, dict_get cooc p = Some row /\ In n (dict_keys row).

Definition row_ok (row : dict string Z) : Prop :=
  NoDup (dict_keys row) /\ forall n c, In (n, c) row -> 0 < c.

Record cooccurrence_ok (cooc : dict string (dict string Z)) : Prop := {
  cooc_keys : NoDup (dict_keys cooc);
  cooc_rows : forall p row, dict_get cooc p = Some row -> row_ok row;
  cooc_symmetric : forall p n, edge cooc p n -> edge cooc n p
}.

(** What [build_graph] guarantees about the adjacency it returns. *)
Record adjacency_ok (adjacency : dict string (dict string Q)) : Prop := {
  adj_keys : NoDup (dict_keys adjacency);
  adj_closed : forall p n w,
    In (n, w) (dict_get_default adjacency p []) -> In n (dict_keys adjacency);
  adj_rows : forall p,
    dict_get_default adjacency p [] <> [] ->
    (qsum (map snd (dict_get_default adjacency p [])) == 1)%Q;
  adj_weights : forall p n w,
    In (n, w) (dict_get_default adjacency p []) -> (0 < w)%Q
}.

Record engine_ok (self : RecommendationEngine) : Prop := {
  eng_product_ids : _product_ids self = dict_keys (product_adjacency (graph self));
  eng_adjacency : adjacency_ok (product_adjacency (graph self));
  eng_global :
    _run_pagerank self (_uniform_personalization self) = Ok (_global_pagerank self)
}.

Definition str_lt (a b : string) : Prop := String.ltb a b = true.

(** [a] ranks strictly before [b]: higher score, or equal score and
    smaller identifier. *)
Definition key_before (a b : string * Q) : Prop :=
  (snd b < snd a)%Q \/ ((snd a == snd b)%Q /\ str_lt (fst a) (fst b)).

Definition ranked_before (a b : Recommendation) : Prop :=
  key_before (product_id a, score a) (product_id b, score b).

(** An entry of the fusion table: a product outside the exclusion set with
    at least one contribution, all of them positive. *)
Definition contribution_ok (exclude : pyset string) (pc : string * dict string Q) : Prop :=
  ~ In (fst pc) exclude /\ snd pc <> [] /\ Forall (fun nv => (0 < snd nv)%Q) (snd pc).

Definition fusion_ok (exclude : pyset string) (combined : dict string (dict string Q))
  : Prop :=
  NoDup (dict_keys combined) /\ Forall (contribution_ok exclude) combined.

Definition customer_seeds (self : RecommendationEngine) (cid : string) : pyset string :=
  seeds_of (purchased_of self cid) (_interacted_products self cid).

Definition exclusion_set (self : RecommendationEngine) (cid : string) : pyset string :=
  set_union (purchased_of self cid) (_interacted_products self cid).

Definition fused_strategies (self : RecommendationEngine) (seeds : pyset string)
  (ppr : dict string Q) : dict string (dict string Q) :=
  [("co_occurrence", _normalize_scores (_co_occurrence_scores self seeds));
   ("similarity", _normalize_scores (_similarity_scores self seeds));
   ("personalized_pagerank", _normalize_scores ppr)].

(** All global PageRank items in rank order, as recommendations. *)
Definition global_ranking (self : RecommendationEngine) : list Recommendation :=
  map global_recommendation
    (list_sort rank_key_lt
       (filter (fun item : string * Q => negb (set_mem (fst item) []))
          (_global_pagerank self))).

(** What every ranking returned for a known customer satisfies, before it
    is cut at [top_n]. *)
Record ranking_ok (self : RecommendationEngine) (cid : string)
  (full : list Recommendation) : Prop := {
  ranking_excludes : forall r, In r full -> ~ In (product_id r) (exclusion_set self cid);
  ranking_sorted : StronglySorted ranked_before full;
  ranking_distinct : NoDup (map product_id full);
  ranking_scores : forall r, In r full ->
    (score r == fsum (dict_values (contributions r)))%Q /\ contributions r <> [];
  ranking_fused_positive : customer_seeds self cid <> [] ->
    forall r, In r full -> Forall (fun nv => (0 < snd nv)%Q) (contributions r);
  ranking_cold_start : customer_seeds self cid = [] -> full = global_ranking self
}.

(** The only [ValueError] of the module is raised by
    [_ensure_known_customer]; the solver can at most raise [KeyError]. *)
Definition no_value_error {A : Type} (r : result A) : Prop :=
  match r with
  | Raise (ValueError _) => False
  | _ => True
  end.

(** No incidence and no event weight is recorded for the customer. *)
Definition untouched (cid : string) (st : Accumulators) : Prop :=
  dict_get (acc_customer_products st) cid = None
  /\ forall k w, In (k, w) (acc_event_weights st) -> fst k <> cid.

(** The accumulators of [build_graph] after both loops. *)
Definition accumulate (ds : Dataset) : Accumulators :=
  fold_left process_event (events ds)
    (fold_left process_order (dict_values (orders ds)) empty_accumulators).

(** Customer-to-product and product-to-customer incidence mirror each
    other. *)
Definition incidence_mirrored (st : Accumulators) : Prop :=
  forall c p,
    In p (dict_get_default (acc_customer_products st) c [])
    <-> In c (dict_get_default (acc_product_customers st) p []).

Record same_solver (a b : RecommendationEngine) : Prop := {
  same_adjacency : product_adjacency (graph a) = product_adjacency (graph b);
  same_damping : damping a = damping b;
  same_tolerance : tolerance a = tolerance b;
  same_max_iterations : max_iterations a = max_iterations b;
  same_product_ids : _product_ids a = _product_ids b
}.

Record same_view (a b : RecommendationEngine) : Prop := {
  view_solver : same_solver a b;
  view_customers : customers (dataset (graph a)) = customers (dataset (graph b));
  view_cooccurrence : product_cooccurrence (graph a) = product_cooccurrence (graph b);
  view_product_customers : product_customers (graph a) = product_customers (graph b);
  view_customer_products : customer_products (graph a) = customer_products (graph b);
  view_interacted : forall cid, _interacted_products a cid = _interacted_products b cid;
  view_global : _global_pagerank a = _global_pagerank b
}.

(** Product identifiers of a result, to compare results at a glance. *)
Definition recommended_ids (r : result (list Recommendation)) : list string :=
  match r with
  | Ok recs => map product_id recs
  | Raise _ => []
  end.

Definition breakdown_ids (r : result (dict string (list (string * Q))))
  : list (string * list string) :=
  match r with
  | Ok strategies => map (fun kv => (fst kv, map fst (snd kv))) strategies
  | Raise _ => []
  end.

(** ** Vocabulary of the further properties *)

(** [cooc[a][b]], 0 when absent, as a [Counter] reads. *)
Definition cooccurrence_count (cooc : dict string (dict string Z)) (a b : string) : Z :=
  dict_get_default (dict_get_default cooc a []) b 0.

(** How often the pair [(l, r)] joins [a] with [b], in either order. *)
Definition joins (a b : string) (lr : string * string) : Z :=
  (if eq_dec a (fst lr) then if eq_dec b (snd lr) then 1 else 0 else 0)
  + (if eq_dec a (snd lr) then if eq_dec b (fst lr) then 1 else 0 else 0).

(** Sum of a list of integers. *)
Definition zsum (xs : list Z) : Z := fold_right Z.add 0 xs.

(** Number of item pairs, over all orders, that join [a] with [b]. *)
Definition copurchases (ds : Dataset) (a b : string) : Z :=
  zsum (map (fun o => zsum (map (joins a b)
                              (combinations2 (map item_product_id (items o)))))
          (dict_values (orders ds))).

(** [p] and [n] stand at two positions of one order's item list. *)
Definition ordered_together (ds : Dataset) (p n : string) : Prop :=
  exists o xs1 xs2 xs3,
    In o (dict_values (orders ds))
    /\ (map item_product_id (items o) = xs1 ++ p :: xs2 ++ n :: xs3
        \/ map item_product_id (items o) = xs1 ++ n :: xs2 ++ p :: xs3).

(** [EVENT_WEIGHTS.get(event.event_type, 0.0)] *)
Definition event_weight (e : Event) : Q :=
  dict_get_default EVENT_WEIGHTS (event_type e) 0%Q.

(** The event is an event of customer [c] on product [p]. *)
Definition event_on (c p : string) (e : Event) : bool :=
  if eq_dec (event_customer_id e, event_product_id e) (c, p) then true else false.

(** Number of orders' pairs that join the candidate with the seeds. *)
Definition cooccurrence_with (cooc : dict string (dict string Z)) (seeds : list string)
  (p : string) : Q :=
  qsum (map (fun seed => inject_Z (cooccurrence_count cooc seed p)) seeds).

(** Jaccard similarity of two customer sets, 0 when they share nobody. *)
Definition jaccard (a b : pyset string) : Q :=
  if nonempty (set_inter a b)
  then (flen (set_inter a b) / flen (set_union a b))%Q
  else 0%Q.

(** Customers linked to a product, as [product_customers.get(p, set())]. *)
Definition customers_of (self : RecommendationEngine) (p : string) : pyset string :=
  dict_get_default (product_customers (graph self)) p [].

(** Sum of the Jaccard similarities of a candidate's customers with those
    of every seed. *)
Definition similarity_with (self : RecommendationEngine) (seeds : pyset string)
  (candidate_customers : pyset string) : Q :=
  qsum (map (fun seed => jaccard (customers_of self seed) candidate_customers) seeds).

(** The personalization vector that [_personalized_pagerank] hands to the
    solver. *)
Definition seed_personalization (self : RecommendationEngine) (seeds : pyset string)
  : dict string Q :=
  fold_left (fun p seed => dict_set p seed (fdiv 1%Q (flen seeds))) seeds
    (dict_from_keys (fun _ => 0%Q) (_product_ids self)).

(** What each list of a breakdown satisfies. *)
Definition strategy_ranking_ok (exclude : pyset string) (top_n : Z)
  (scores : dict string Q) (ranked : list (string * Q)) : Prop :=
  StronglySorted key_before ranked
  /\ NoDup (map fst ranked)
  /\ (forall item, In item ranked -> In item scores /\ ~ In (fst item) exclude)
  /\ (0 <= top_n -> Z.of_nat (List.length ranked) <= top_n).

(** An entry of the fusion table whose contributions carry distinct
    strategy names and stay below the strategy weights. *)
Definition capped (contribs : dict string Q) : Prop :=
  NoDup (dict_keys contribs)
  /\ forall n v, In (n, v) contribs ->
       In n (dict_keys STRATEGY_WEIGHTS)
       /\ (v <= dict_get_default STRATEGY_WEIGHTS n 0)%Q.

(** What [build_graph] reads of an order and of an event. *)
Definition order_view (o : Order) : string * list string :=
  (customer_id o, map item_product_id (items o)).

Definition event_view (e : Event) : string * string * string :=
  (event_customer_id e, event_product_id e, event_type e).

(** A dataset with the same transactions, every quantity set to 1 and no
    category. *)
Definition unit_quantities (ds : Dataset) : Dataset :=
  {| customers := customers ds;
     categories := [];
     products := products ds;
     orders :=
       map (fun ko : string * Order =>
              (fst ko,
               {| order_id := order_id (snd ko);
                  customer_id := customer_id (snd ko);
                  placed_at := placed_at (snd ko);
                  items := map (fun i => {| item_product_id := item_product_id i;
                                            quantity := 1 |})
                             (items (snd ko)) |}))
         (orders ds);
     events := events ds |}.

(** The rank vector after [k] passes of the solver's loop body. *)
Definition iterate_ranks (self : RecommendationEngine) (personalization : dict string Q)
  (k : nat) : dict string Q :=
  Nat.iter k (next_ranks self personalization) (initial_ranks self).

(** L1 distance between two rank vectors over the products. *)
Definition l1_distance (self : RecommendationEngine) (a b : dict string Q) : Q :=
  qsum (map (fun pid => Qabs (rk a pid - rk b pid)) (_product_ids self)).

(** A strategy votes for a product: it carries a nonzero weight and gives
    the product a normalised score strictly above zero. *)
Definition strategy_votes (strategies : dict string (dict string Q))
  (p name : string) (v : Q) : Prop :=
  exists scores,
    In (name, scores) strategies
    /\ ~ (dict_get_default STRATEGY_WEIGHTS name 0 == 0)%Q
    /\ In (p, v) scores /\ (0 < v)%Q.

(** The products the fusion keeps: outside the exclusion set, with the vote
    of at least one strategy. *)
Definition fused_candidate (strategies : dict string (dict string Q))
  (exclude : pyset string) (p : string) : Prop :=
  ~ In p exclude /\ exists name v, strategy_votes strategies p name v.

(** Where a contribution comes from: the vote of the strategy of that name,
    multiplied by the strategy's weight. *)
Definition contribution_from (strategies : dict string (dict string Q))
  (p : string) (nc : string * Q) : Prop :=
  exists v, strategy_votes strategies p (fst nc) v
            /\ snd nc = fmul v (dict_get_default STRATEGY_WEIGHTS (fst nc) 0%Q).

(** All sublists of a list, in the order of the list. *)
Fixpoint sublists {A : Type} (l : list A) : list (list A) :=
  match l with
  | [] => [[]]
  | x :: l' => map (cons x) (sublists l') ++ sublists l'
  end.

(** The binary64 ranks of [seeds] from the engine with the default settings
    over the reference dataset. *)
Definition reference_ranks (seeds : pyset string)
  : result (dict string PrimFloat.float) :=
  eng <- B64.new_engine load_dataset B64.default_damping B64.default_tolerance
           default_max_iterations ;;
  B64._personalized_pagerank eng seeds.

(** One rank per product, and the ranks sum to one within 1e-6. *)
Definition reference_ranks_ok (seeds : pyset string) : bool :=
  match reference_ranks seeds with
  | Ok ranks =>
      if list_eq_dec string_dec (dict_keys ranks) (product_ids load_dataset)
      then B64.sums_to_one ranks else false
  | Raise _ => false
  end.

(** * Properties *)

(** ** Exact arithmetic behind the float operations *)

Lemma fadd_correct (a b : float) : (fadd a b == a + b)%Q.
Proof. apply Qred_correct. Qed.

Lemma fsub_correct (a b : float) : (fsub a b == a - b)%Q.
Proof. apply Qred_correct. Qed.

Lemma fmul_correct (a b : float) : (fmul a b == a * b)%Q.
Proof. apply Qred_correct. Qed.

Lemma fdiv_correct (a b : float) : (fdiv a b == a / b)%Q.
Proof. apply Qred_correct. Qed.

Lemma fneg_correct (a : float) : (fneg a == - a)%Q.
Proof. apply Qred_correct. Qed.

Lemma fabs_correct (a : float) : (fabs a == Qabs a)%Q.
Proof. apply Qred_correct. Qed.

Lemma fltb_lt (a b : float) : fltb a b = true <-> (a < b)%Q.
Proof.
  unfold fltb. rewrite negb_true_iff, <- not_true_iff_false, Qle_bool_iff.
  split; [apply Qnot_le_lt | apply Qlt_not_le].
Qed.

Lemma fltb_ge (a b : float) : fltb a b = false <-> (b <= a)%Q.
Proof. unfold fltb. rewrite negb_false_iff. apply Qle_bool_iff. Qed.

Lemma fleb_le (a b : float) : fleb a b = true <-> (a <= b)%Q.
Proof. apply Qle_bool_iff. Qed.

Lemma fleb_gt (a b : float) : fleb a b = false <-> (b < a)%Q.
Proof.
  unfold fleb. rewrite <- not_true_iff_false, Qle_bool_iff.
  split; [apply Qnot_le_lt | apply Qlt_not_le].
Qed.

Lemma feqb_eq (a b : float) : feqb a b = true <-> (a == b)%Q.
Proof. apply Qeq_bool_iff. Qed.

Lemma feqb_neq (a b : float) : feqb a b = false <-> ~ (a == b)%Q.
Proof. unfold feqb. rewrite <- not_true_iff_false, Qeq_bool_iff. tauto. Qed.

Lemma fold_fadd_correct (xs : list float) (a : float) :
  (fold_left fadd xs a == a + qsum xs)%Q.
Proof.
  revert a. induction xs as [|x xs IH]; intros a; simpl.
  - ring.
  - rewrite IH, fadd_correct. ring.
Qed.

Lemma fsum_correct (xs : list float) : (fsum xs == qsum xs)%Q.
Proof. unfold fsum. rewrite fold_fadd_correct. ring. Qed.

Lemma qsum_map_ext {A : Type} (f g : A -> Q) (xs : list A) :
  (forall x, In x xs -> (f x == g x)%Q) -> (qsum (map f xs) == qsum (map g xs))%Q.
Proof.
  induction xs as [|x xs IH]; intros Hfg; simpl.
  - reflexivity.
  - rewrite (Hfg x (or_introl eq_refl)), IH by (intros; apply Hfg; right; assumption).
    reflexivity.
Qed.

Lemma qsum_map_scale {A : Type} (c : Q) (f : A -> Q) (xs : list A) :
  (qsum (map (fun x => c * f x) xs) == c * qsum (map f xs))%Q.
Proof.
  induction xs as [|x xs IH]; simpl.
  - ring.
  - rewrite IH. ring.
Qed.

Lemma qsum_nonneg (xs : list Q) :
  (forall x, In x xs -> (0 <= x)%Q) -> (0 <= qsum xs)%Q.
Proof.
  induction xs as [|x xs IH]; intros Hpos; simpl.
  - apply Qle_refl.
  - assert (0 <= x)%Q by (apply Hpos; left; reflexivity).
    assert (0 <= qsum xs)%Q by (apply IH; intros; apply Hpos; right; assumption).
    lra.
Qed.

(** Splitting a sum along a boolean test. *)
Lemma qsum_filter_split {A : Type} (p : A -> bool) (f : A -> Q) (xs : list A) :
  (qsum (map f xs)
   == qsum (map f (filter p xs)) + qsum (map f (filter (fun x => negb (p x)) xs)))%Q.
Proof.
  induction xs as [|x xs IH]; simpl.
  - ring.
  - destruct (p x); simpl; rewrite IH; ring.
Qed.

(** Replacing the value at one position of a duplicate-free index list. *)
Lemma qsum_map_update {A : Type} `{EqDec A} (f g : A -> Q) (k : A) (xs : list A) :
  NoDup xs -> In k xs ->
  (forall x, x <> k -> (g x == f x)%Q) ->
  (qsum (map g xs) == qsum (map f xs) - f k + g k)%Q.
Proof.
  intros Hnd Hin Hother.
  induction xs as [|x xs IH]; [contradiction|].
  inversion Hnd as [|? ? Hnotin Hnd']; subst. simpl.
  destruct Hin as [->|Hin].
  - rewrite (@qsum_map_ext A g f xs).
    + ring.
    + intros y Hy. apply Hother. intros ->. contradiction.
  - rewrite IH by assumption.
    rewrite (Hother x) by (intros ->; contradiction). ring.
Qed.

(** ** Dicts *)

Section DictFacts.
Context {K V : Type} `{EqDec K}.
Implicit Types (d : dict K V) (k : K) (v : V).

Lemma dict_get_set_same d k v : dict_get (dict_set d k v) k = Some v.
Proof.
  induction d as [|[k' v'] d IH]; simpl.
  - destruct (eq_dec k k); congruence.
  - destruct (eq_dec k k') as [->|Hne]; simpl.
    + destruct (eq_dec k' k'); congruence.
    + destruct (eq_dec k k'); congruence.
Qed.

Lemma dict_get_set_other d k k' v :
  k' <> k -> dict_get (dict_set d k v) k' = dict_get d k'.
Proof.
  intros Hne. induction d as [|[k0 v0] d IH]; simpl.
  - destruct (eq_dec k' k); congruence.
  - destruct (eq_dec k k0) as [->|Hk]; simpl.
    + destruct (eq_dec k' k0); congruence.
    + destruct (eq_dec k' k0); congruence.
Qed.

Lemma dict_get_set d k k' v :
  dict_get (dict_set d k v) k' = if eq_dec k' k then Some v else dict_get d k'.
Proof.
  destruct (eq_dec k' k) as [->|Hne].
  - apply dict_get_set_same.
  - apply dict_get_set_other. assumption.
Qed.

Lemma dict_get_In d k v : dict_get d k = Some v -> In (k, v) d.
Proof.
  induction d as [|[k' v'] d IH]; simpl; [discriminate|].
  destruct (eq_dec k k') as [->|Hne].
  - intros [= ->]. left. reflexivity.
  - intros Hget. right. apply IH. assumption.
Qed.

Lemma dict_get_None d k : dict_get d k = None <-> ~ In k (dict_keys d).
Proof.
  induction d as [|[k' v'] d IH]; simpl.
  - tauto.
  - destruct (eq_dec k k') as [->|Hne].
    + split; [discriminate|]. intros Hn. exfalso. apply Hn. left. reflexivity.
    + rewrite IH. split; [intros Hn [Heq|Hin]; [congruence|tauto] | tauto].
Qed.

Lemma dict_get_Some_key d k v : dict_get d k = Some v -> In k (dict_keys d).
Proof.
  intros Hget. apply dict_get_In in Hget.
  apply (in_map fst) in Hget. exact Hget.
Qed.

Lemma dict_key_get d k : In k (dict_keys d) -> exists v, dict_get d k = Some v.
Proof.
  intros Hin. destruct (dict_get d k) as [v|] eqn:Hget.
  - exists v. reflexivity.
  - apply dict_get_None in Hget. contradiction.
Qed.

Lemma In_dict_get d k v : NoDup (dict_keys d) -> In (k, v) d -> dict_get d k = Some v.
Proof.
  induction d as [|[k' v'] d IH]; simpl; [contradiction|].
  intros Hnd [Heq|Hin].
  - inversion Heq; subst. destruct (eq_dec k k); congruence.
  - inversion Hnd as [|? ? Hnotin Hnd']; subst.
    destruct (eq_dec k k') as [->|Hne].
    + exfalso. apply Hnotin. apply (in_map fst) in Hin. exact Hin.
    + apply IH; assumption.
Qed.

Lemma dict_set_existing_keys d k v :
  In k (dict_keys d) -> dict_keys (dict_set d k v) = dict_keys d.
Proof.
  induction d as [|[k' v'] d IH]; simpl; [contradiction|].
  intros Hin. destruct (eq_dec k k') as [->|Hne]; simpl.
  - reflexivity.
  - f_equal. apply IH. destruct Hin; congruence.
Qed.

Lemma dict_set_fresh d k v : ~ In k (dict_keys d) -> dict_set d k v = d ++ [(k, v)].
Proof.
  induction d as [|[k' v'] d IH]; simpl; intros Hn.
  - reflexivity.
  - destruct (eq_dec k k') as [->|Hne].
    + exfalso. apply Hn. left. reflexivity.
    + f_equal. apply IH. tauto.
Qed.

Lemma dict_set_same_value d k v : dict_get d k = Some v -> dict_set d k v = d.
Proof.
  induction d as [|[k' v'] d IH]; simpl; [discriminate|].
  destruct (eq_dec k k') as [->|Hne].
  - intros [= ->]. reflexivity.
  - intros Hget. f_equal. apply IH. assumption.
Qed.

Lemma dict_keys_set_In d k k' v :
  In k' (dict_keys (dict_set d k v)) <-> k' = k \/ In k' (dict_keys d).
Proof.
  induction d as [|[k0 v0] d IH]; simpl.
  - intuition congruence.
  - destruct (eq_dec k k0) as [->|Hne]; simpl.
    + intuition congruence.
    + rewrite IH. intuition congruence.
Qed.

Lemma dict_set_NoDup d k v : NoDup (dict_keys d) -> NoDup (dict_keys (dict_set d k v)).
Proof.
  induction d as [|[k' v'] d IH]; simpl; intros Hnd.
  - constructor; [intros []|constructor].
  - inversion Hnd as [|? ? Hnotin Hnd']; subst.
    destruct (eq_dec k k') as [->|Hne]; simpl.
    + constructor; assumption.
    + constructor; [|apply IH; assumption].
      rewrite dict_keys_set_In. intros [Heq|Hin]; [congruence|contradiction].
Qed.

(** An entry of the updated dict is the new one or an old one. *)
Lemma In_dict_set d k v (kv : K * V) :
  In kv (dict_set d k v) -> kv = (k, v) \/ In kv d.
Proof.
  induction d as [|[k' v'] d IH]; simpl.
  - intros [Heq|[]]. left. congruence.
  - destruct (eq_dec k k') as [->|Hne]; simpl.
    + intros [Heq|Hin]; [left; congruence | right; right; assumption].
    + intros [Heq|Hin]; [right; left; assumption|].
      destruct (IH Hin); [left | right; right]; assumption.
Qed.

Lemma Forall_dict_set (P : K * V -> Prop) d k v :
  Forall P d -> P (k, v) -> Forall P (dict_set d k v).
Proof.
  intros Hall Hnew. apply Forall_forall. intros kv Hin.
  destruct (In_dict_set _ _ _ _ Hin) as [->|Hold]; [assumption|].
  rewrite Forall_forall in Hall. apply Hall. assumption.
Qed.

Lemma dict_get_default_set d k k' v default :
  dict_get_default (dict_set d k v) k' default
  = if eq_dec k' k then v else dict_get_default d k' default.
Proof.
  unfold dict_get_default. rewrite dict_get_set.
  destruct (eq_dec k' k); reflexivity.
Qed.

Lemma dict_mem_true d k : dict_mem d k = true <-> In k (dict_keys d).
Proof.
  unfold dict_mem. destruct (dict_get d k) as [v|] eqn:Hget.
  - split; [intros _; eapply dict_get_Some_key; eassumption | reflexivity].
  - apply dict_get_None in Hget. split; [discriminate | contradiction].
Qed.

(** Building a dict from keys, with an arbitrary starting dict. *)
Lemma fold_dict_set_fresh {A : Type} (key : A -> K) (val : A -> V) (xs : list A) d :
  NoDup (map key xs) ->
  (forall x, In x xs -> ~ In (key x) (dict_keys d)) ->
  fold_left (fun acc x => dict_set acc (key x) (val x)) xs d
  = d ++ map (fun x => (key x, val x)) xs.
Proof.
  revert d. induction xs as [|x xs IH]; intros d Hnd Hfresh; simpl.
  - rewrite app_nil_r. reflexivity.
  - inversion Hnd as [|? ? Hnotin Hnd']; subst.
    rewrite IH; try assumption.
    + rewrite dict_set_fresh by (apply Hfresh; left; reflexivity).
      rewrite <- app_assoc. reflexivity.
    + intros y Hy. rewrite dict_keys_set_In. intros [Heq|Hin].
      * apply Hnotin. rewrite <- Heq. apply in_map. assumption.
      * apply (Hfresh y); [right|]; assumption.
Qed.

Lemma dict_from_keys_NoDup (f : K -> V) (ks : list K) :
  NoDup ks -> dict_from_keys f ks = map (fun k => (k, f k)) ks.
Proof.
  intros Hnd. unfold dict_from_keys.
  rewrite (fold_dict_set_fresh (fun k => k) f); simpl.
  - reflexivity.
  - rewrite map_id. assumption.
  - intros x _ [].
Qed.

Lemma fold_dict_set_keys_NoDup {A : Type} (key : A -> K) (val : A -> V) (xs : list A) d :
  NoDup (dict_keys d) ->
  NoDup (dict_keys (fold_left (fun acc x => dict_set acc (key x) (val x)) xs d)).
Proof.
  revert d. induction xs as [|x xs IH]; intros d Hnd; simpl.
  - assumption.
  - apply IH. apply dict_set_NoDup. assumption.
Qed.

Lemma dict_keys_from_keys (f : K -> V) (ks : list K) :
  NoDup ks -> dict_keys (dict_from_keys f ks) = ks.
Proof.
  intros Hnd. rewrite dict_from_keys_NoDup by assumption.
  unfold dict_keys. rewrite map_map. simpl. apply map_id.
Qed.

Lemma dict_get_map_key (f : K -> V) (ks : list K) k :
  In k ks -> dict_get (map (fun k => (k, f k)) ks) k = Some (f k).
Proof.
  induction ks as [|k' ks IH]; simpl; [contradiction|].
  intros Hin. destruct (eq_dec k k') as [->|Hne]; [reflexivity|].
  apply IH. destruct Hin; congruence.
Qed.

Lemma dict_get_from_keys (f : K -> V) (ks : list K) k :
  NoDup ks -> In k ks -> dict_get (dict_from_keys f ks) k = Some (f k).
Proof.
  intros Hnd Hin. rewrite dict_from_keys_NoDup by assumption.
  apply dict_get_map_key. assumption.
Qed.
End DictFacts.

Lemma dict_map_items_NoDup {K V W : Type} `{EqDec K} (f : K -> V -> W) (d : dict K V) :
  NoDup (dict_keys d) ->
  dict_map_items f d = map (fun kv => (fst kv, f (fst kv) (snd kv))) d.
Proof.
  intros Hnd. unfold dict_map_items.
  rewrite (fold_dict_set_fresh fst (fun kv => f (fst kv) (snd kv))); simpl.
  - reflexivity.
  - exact Hnd.
  - intros x _ [].
Qed.

(** ** Sets *)

Section SetFacts.
Context {A : Type} `{EqDec A}.
Implicit Types (s : pyset A) (x y : A).

Lemma set_mem_true x s : set_mem x s = true <-> In x s.
Proof. unfold set_mem. destruct (in_dec eq_dec x s); split; intros; congruence. Qed.

Lemma set_mem_false x s : set_mem x s = false <-> ~ In x s.
Proof. unfold set_mem. destruct (in_dec eq_dec x s); split; intros; congruence. Qed.

Lemma set_add_In s x y : In y (set_add s x) <-> y = x \/ In y s.
Proof.
  unfold set_add. destruct (set_mem x s) eqn:Hmem.
  - apply set_mem_true in Hmem. intuition congruence.
  - rewrite in_app_iff. simpl. intuition congruence.
Qed.

Lemma set_add_member s x : In x s -> set_add s x = s.
Proof. intros Hin. unfold set_add. apply set_mem_true in Hin. rewrite Hin. reflexivity. Qed.

Lemma set_add_NoDup s x : NoDup s -> NoDup (set_add s x).
Proof.
  intros Hnd. unfold set_add. destruct (set_mem x s) eqn:Hmem; [assumption|].
  apply set_mem_false in Hmem.
  apply NoDup_app; [assumption | repeat constructor; intros [] |].
  intros a Ha [<-|[]]. contradiction.
Qed.

Lemma set_union_In a b y : In y (set_union a b) <-> In y a \/ In y b.
Proof.
  unfold set_union. revert a. induction b as [|x b IH]; intros a; simpl.
  - tauto.
  - rewrite IH, set_add_In. intuition congruence.
Qed.

Lemma set_of_list_In (xs : list A) y : In y (set_of_list xs) <-> In y xs.
Proof.
  unfold set_of_list. change (fold_left set_add xs []) with (set_union [] xs).
  rewrite set_union_In. simpl. tauto.
Qed.

Lemma set_of_list_nil_inv (xs : list A) : set_of_list xs = [] -> xs = [].
Proof.
  intros Hnil. destruct xs as [|x xs]; [reflexivity|].
  assert (Hin : In x (set_of_list (x :: xs))) by (apply set_of_list_In; left; reflexivity).
  rewrite Hnil in Hin. contradiction.
Qed.
End SetFacts.

Lemma nonempty_false {B : Type} (s : list B) : nonempty s = false <-> s = [].
Proof. destruct s; simpl; split; intros; congruence. Qed.

Lemma nonempty_true {B : Type} (s : list B) : nonempty s = true <-> s <> [].
Proof. destruct s; simpl; split; intros; congruence. Qed.

(** ** Loops that may raise *)

(** When every pass of the body succeeds with the value of a pure step
    function and keeps an invariant, the loop is the fold of that step. *)
Lemma for_each_pure {A S : Type} (body : S -> A -> result S) (step : S -> A -> S)
  (I : S -> Prop) (xs : list A) (acc : S) :
  I acc ->
  (forall s x, In x xs -> I s -> body s x = Ok (step s x) /\ I (step s x)) ->
  for_each body xs acc = Ok (fold_left step xs acc) /\ I (fold_left step xs acc).
Proof.
  revert acc. induction xs as [|x xs IH]; intros acc Hacc Hbody; simpl.
  - split; [reflexivity | assumption].
  - destruct (Hbody acc x (or_introl eq_refl) Hacc) as [-> Hstep]. simpl.
    apply IH; [assumption|]. intros s y Hy. apply Hbody. right. assumption.
Qed.

(** Invariants of a fold indexed by the processed prefix. *)
Lemma fold_left_prefix_ind {A S : Type} (step : S -> A -> S) (P : list A -> S -> Prop)
  (xs : list A) (acc : S) :
  P [] acc ->
  (forall pre x s, In x xs -> P pre s -> P (pre ++ [x]) (step s x)) ->
  P xs (fold_left step xs acc).
Proof.
  intros Hbase Hstep.
  enough (Hgen : forall post pre s, (forall x, In x post -> In x xs) -> P pre s ->
                                    P (pre ++ post) (fold_left step post s)).
  { apply (Hgen xs [] acc); auto. }
  induction post as [|x post IH]; intros pre s Hsub Hpre; simpl.
  - rewrite app_nil_r. assumption.
  - replace (pre ++ x :: post) with ((pre ++ [x]) ++ post)
      by (rewrite <- app_assoc; reflexivity).
    apply IH.
    + intros y Hy. apply Hsub. right. assumption.
    + apply Hstep; [apply Hsub; left; reflexivity | assumption].
Qed.

Lemma fold_left_ind {A S : Type} (step : S -> A -> S) (P : S -> Prop)
  (xs : list A) (acc : S) :
  P acc -> (forall x s, In x xs -> P s -> P (step s x)) -> P (fold_left step xs acc).
Proof.
  intros Hbase Hstep.
  apply (fold_left_prefix_ind step (fun _ => P)); auto.
Qed.

(** A property that a step can only switch on holds at the end exactly
    when it held at the start or some step switched it on. *)
Lemma fold_left_grows {A T : Type} (step : T -> A -> T) (R : T -> Prop) (P : A -> Prop)
  (xs : list A) :
  (forall s x, R (step s x) <-> R s \/ P x) ->
  forall acc, R (fold_left step xs acc) <-> R acc \/ exists x, In x xs /\ P x.
Proof.
  intros Hstep. induction xs as [|x xs IH]; intros acc; simpl.
  - split; [auto | intros [H|(x & [] & _)]; assumption].
  - rewrite IH, Hstep. split.
    + intros [[H|H]|(y & Hy & HQ)]; eauto.
    + intros [H|(y & [<-|Hy] & HQ)]; eauto.
Qed.

(** ** PageRank solver: the loop body as pure folds *)

Section PageRankFacts.
Local Open Scope Q_scope.

Variable self : RecommendationEngine.

Local Abbreviation pids := (_product_ids self).
Local Abbreviation row pid := (dict_get_default (product_adjacency (graph self)) pid []).
Local Abbreviation d := (damping self).

Hypothesis pids_NoDup : NoDup pids.
Hypothesis neighbors_closed :
  forall pid n w, In pid pids -> In (n, w) (row pid) -> In n pids.

Lemma getitem_present (m : dict string Q) (k : string) :
  dict_keys m = pids -> In k pids -> getitem m k = Ok (rk m k).
Proof.
  intros Hkeys Hin. rewrite <- Hkeys in Hin.
  destruct (dict_key_get _ _ Hin) as [v Hv].
  unfold getitem, rk, dict_get_default. rewrite Hv. reflexivity.
Qed.

Lemma bump_keys (m : dict string Q) (k : string) (x : Q) :
  dict_keys m = pids -> In k pids -> dict_keys (bump m k x) = pids.
Proof.
  intros Hkeys Hin. unfold bump.
  rewrite dict_set_existing_keys; [assumption | rewrite Hkeys; assumption].
Qed.

Lemma iadd_present (m : dict string Q) (k : string) (x : Q) :
  dict_keys m = pids -> In k pids -> iadd m k (Ok x) = Ok (bump m k x).
Proof.
  intros Hkeys Hin. unfold iadd. rewrite getitem_present by assumption. reflexivity.
Qed.

Lemma rk_bump (m : dict string Q) (k k' : string) (x : Q) :
  rk (bump m k x) k' = if eq_dec k' k then fadd (rk m k) x else rk m k'.
Proof. unfold rk, bump. apply dict_get_default_set. Qed.

Lemma total_bump (m : dict string Q) (k : string) (x : Q) :
  In k pids -> total_rank pids (bump m k x) == total_rank pids m + x.
Proof.
  intros Hin. unfold total_rank.
  rewrite (qsum_map_update (rk m) (rk (bump m k x)) pids_NoDup Hin).
  - rewrite rk_bump. destruct (eq_dec k k); [|congruence].
    rewrite fadd_correct. ring.
  - intros y Hne. rewrite rk_bump. destruct (eq_dec y k); [congruence|reflexivity].
Qed.

Lemma sink_rank_sum_pure (ranks : dict string Q) :
  dict_keys ranks = pids -> sink_rank_sum self ranks = Ok (sink_mass self ranks).
Proof.
  intros Hkeys. unfold sink_rank_sum, sink_mass.
  apply (for_each_pure _ _ (fun _ => True)); [exact I|].
  intros s x Hx _. split; [|exact I].
  destruct (is_sink self x); [|reflexivity].
  rewrite getitem_present by assumption. reflexivity.
Qed.

Lemma push_row_keys (ranks m : dict string Q) (pid : string) :
  In pid pids -> dict_keys m = pids -> dict_keys (push_row self ranks m pid) = pids.
Proof.
  intros Hpid Hkeys. unfold push_row.
  apply (fold_left_ind (push self ranks pid) (fun m => dict_keys m = pids)); [assumption|].
  intros [n w] s Hin Hs. unfold push. apply bump_keys; [assumption|].
  simpl. eapply neighbors_closed; eassumption.
Qed.

Lemma propagate_pure (ranks m : dict string Q) :
  dict_keys ranks = pids -> dict_keys m = pids ->
  propagate self ranks m = Ok (fold_left (push_row self ranks) pids m)
  /\ dict_keys (fold_left (push_row self ranks) pids m) = pids.
Proof.
  intros Hranks Hm. unfold propagate.
  apply (for_each_pure _ _ (fun m => dict_keys m = pids)); [assumption|].
  intros s pid Hpid Hs. split; [|apply push_row_keys; assumption].
  destruct (nonempty (row pid)) eqn:Hrow; simpl.
  - unfold push_row.
    apply (for_each_pure _ (push self ranks pid) (fun m => dict_keys m = pids)); [assumption|].
    intros s' [n w] Hin Hs'.
    assert (Hn : In n pids) by (eapply neighbors_closed; eassumption).
    split; [|apply bump_keys; assumption].
    rewrite getitem_present by assumption. simpl.
    apply iadd_present; assumption.
  - apply nonempty_false in Hrow. unfold push_row. rewrite Hrow. reflexivity.
Qed.

Lemma spread_keys (leak : Q) (m : dict string Q) :
  dict_keys m = pids -> dict_keys (spread self leak m) = pids.
Proof.
  intros Hkeys. unfold spread.
  apply (fold_left_ind _ (fun m => dict_keys m = pids)); [assumption|].
  intros pid s Hpid Hs. apply bump_keys; assumption.
Qed.

Lemma add_leak_pure (leak : Q) (m : dict string Q) :
  dict_keys m = pids ->
  add_leak self leak m = Ok (if negb (feqb leak 0) then spread self leak m else m).
Proof.
  intros Hkeys. unfold add_leak. destruct (negb (feqb leak 0)); [|reflexivity].
  unfold spread.
  apply (for_each_pure _ _ (fun m => dict_keys m = pids)); [assumption|].
  intros s pid Hpid Hs. split; [apply iadd_present | apply bump_keys]; assumption.
Qed.

Lemma l1_delta_pure (new_ranks ranks : dict string Q) :
  dict_keys new_ranks = pids -> dict_keys ranks = pids ->
  l1_delta self new_ranks ranks = Ok (delta_of self new_ranks ranks).
Proof.
  intros Hnew Hranks. unfold l1_delta, delta_of.
  apply (for_each_pure _ _ (fun _ => True)); [exact I|].
  intros s pid Hpid _. split; [|exact I].
  rewrite !getitem_present by assumption. reflexivity.
Qed.

Lemma base_ranks_keys (personalization : dict string Q) :
  dict_keys (base_ranks self personalization) = pids.
Proof. apply dict_keys_from_keys. exact pids_NoDup. Qed.

Lemma next_ranks_keys (personalization ranks : dict string Q) :
  dict_keys ranks = pids -> dict_keys (next_ranks self personalization ranks) = pids.
Proof.
  intros Hranks. unfold next_ranks.
  destruct (propagate_pure ranks (base_ranks self personalization) Hranks
              (base_ranks_keys personalization)) as [_ Hkeys].
  destruct (negb (feqb (leak_of self ranks) 0)); [apply spread_keys|]; assumption.
Qed.

(** The monadic loop body never raises on rank vectors indexed by the
    product list, and computes [next_ranks]. *)
Lemma pagerank_iteration_pure (personalization ranks : dict string Q) :
  dict_keys ranks = pids ->
  pagerank_iteration self personalization ranks
  = Ok (next_ranks self personalization ranks,
        delta_of self (next_ranks self personalization ranks) ranks).
Proof.
  intros Hranks. unfold pagerank_iteration.
  rewrite sink_rank_sum_pure by assumption. simpl.
  destruct (propagate_pure ranks (base_ranks self personalization) Hranks
              (base_ranks_keys personalization)) as [Hprop Hkeys].
  unfold base_ranks, rk in Hprop. rewrite Hprop. simpl.
  fold (rk personalization) in *.
  change (dict_from_keys (fun pid => fmul (fsub 1 d) (rk personalization pid)) pids)
    with (base_ranks self personalization) in *.
  rewrite add_leak_pure by assumption. simpl.
  fold (leak_of self ranks).
  change (if negb (feqb (leak_of self ranks) 0)
          then spread self (leak_of self ranks)
                 (fold_left (push_row self ranks) pids (base_ranks self personalization))
          else fold_left (push_row self ranks) pids (base_ranks self personalization))
    with (next_ranks self personalization ranks).
  rewrite l1_delta_pure; [reflexivity | apply next_ranks_keys; assumption | assumption].
Qed.
End PageRankFacts.

(** ** PageRank solver: conservation of mass *)

Lemma qsum_map_const {A : Type} (c : Q) (xs : list A) :
  (qsum (map (fun _ => c) xs) == flen xs * c)%Q.
Proof.
  unfold flen, float_of_int. induction xs as [|x xs IH].
  - simpl. ring.
  - cbn [map qsum fold_right List.length]. fold (qsum (map (fun _ : A => c) xs)).
    rewrite IH, Nat2Z.inj_succ, <- Z.add_1_r, inject_Z_plus. ring.
Qed.

Lemma flen_pos {A : Type} (xs : list A) : xs <> [] -> (0 < flen xs)%Q.
Proof.
  intros Hne. destruct xs as [|x xs]; [congruence|].
  unfold flen, float_of_int. change 0%Q with (inject_Z 0). rewrite <- Zlt_Qlt.
  simpl List.length. lia.
Qed.

Section PageRankMass.
Local Open Scope Q_scope.

Variable self : RecommendationEngine.

Local Abbreviation pids := (_product_ids self).
Local Abbreviation row pid := (dict_get_default (product_adjacency (graph self)) pid []).
Local Abbreviation d := (damping self).

Hypothesis pids_NoDup : NoDup pids.
Hypothesis neighbors_closed :
  forall pid n w, In pid pids -> In (n, w) (row pid) -> In n pids.

Lemma sink_mass_correct (ranks : dict string Q) :
  sink_mass self ranks == qsum (map (rk ranks) (filter (is_sink self) pids)).
Proof.
  unfold sink_mass.
  enough (Hgen : forall xs a,
             fold_left (fun acc pid => if is_sink self pid then fadd acc (rk ranks pid)
                                       else acc) xs a
             == a + qsum (map (rk ranks) (filter (is_sink self) xs))).
  { rewrite Hgen. ring. }
  induction xs as [|x xs IH]; intros a; simpl.
  - ring.
  - rewrite IH. destruct (is_sink self x); simpl; rewrite ?fadd_correct; ring.
Qed.

Lemma total_push (ranks : dict string Q) (pid : string) (items : list (string * Q)) :
  forall m, (forall nw, In nw items -> In (fst nw) pids) ->
  total_rank pids (fold_left (push self ranks pid) items m)
  == total_rank pids m + d * rk ranks pid * qsum (map snd items).
Proof.
  induction items as [|[n w] items IH]; intros m Hclosed; simpl.
  - ring.
  - rewrite IH by (intros; apply Hclosed; right; assumption).
    unfold push. simpl.
    rewrite total_bump by (try assumption; apply (Hclosed (n, w)); left; reflexivity).
    rewrite !fmul_correct. ring.
Qed.

Lemma total_push_row (ranks m : dict string Q) (pid : string) :
  In pid pids ->
  total_rank pids (push_row self ranks m pid)
  == total_rank pids m + d * rk ranks pid * qsum (map snd (row pid)).
Proof.
  intros Hpid. unfold push_row. apply total_push.
  intros [n w] Hin. simpl. eapply neighbors_closed; eassumption.
Qed.

Lemma total_propagate (ranks : dict string Q) (xs : list string) :
  forall m, (forall pid, In pid xs -> In pid pids) ->
  total_rank pids (fold_left (push_row self ranks) xs m)
  == total_rank pids m
     + qsum (map (fun pid => d * rk ranks pid * qsum (map snd (row pid))) xs).
Proof.
  induction xs as [|x xs IH]; intros m Hsub; simpl.
  - ring.
  - rewrite IH by (intros; apply Hsub; right; assumption).
    rewrite total_push_row by (apply Hsub; left; reflexivity). ring.
Qed.

Lemma total_spread (leak : Q) (xs : list string) :
  forall m, (forall pid, In pid xs -> In pid pids) ->
  total_rank pids (fold_left (fun m pid => bump m pid leak) xs m)
  == total_rank pids m + flen xs * leak.
Proof.
  induction xs as [|x xs IH]; intros m Hsub.
  - simpl. unfold flen, float_of_int. simpl. ring.
  - cbn [fold_left]. rewrite IH by (intros; apply Hsub; right; assumption).
    rewrite total_bump by (try assumption; apply Hsub; left; reflexivity).
    unfold flen, float_of_int. cbn [List.length].
    rewrite Nat2Z.inj_succ, <- Z.add_1_r, inject_Z_plus. ring.
Qed.

Lemma rk_base_ranks (personalization : dict string Q) (pid : string) :
  In pid pids ->
  rk (base_ranks self personalization) pid = fmul (fsub 1 d) (rk personalization pid).
Proof.
  intros Hpid. unfold rk at 1, base_ranks, dict_get_default.
  rewrite dict_get_from_keys by assumption. reflexivity.
Qed.

Lemma total_base_ranks (personalization : dict string Q) :
  total_rank pids (base_ranks self personalization)
  == (1 - d) * total_rank pids personalization.
Proof.
  unfold total_rank. rewrite <- qsum_map_scale. apply qsum_map_ext.
  intros pid Hpid. rewrite rk_base_ranks by assumption.
  rewrite fmul_correct, fsub_correct. reflexivity.
Qed.

Hypothesis rows_normalized :
  forall pid, In pid pids -> row pid <> [] -> qsum (map snd (row pid)) == 1.

Lemma propagated_mass (ranks : dict string Q) (xs : list string) :
  (forall pid, In pid xs -> In pid pids) ->
  qsum (map (fun pid => d * rk ranks pid * qsum (map snd (row pid))) xs)
  == d * qsum (map (rk ranks) (filter (fun pid => negb (is_sink self pid)) xs)).
Proof.
  induction xs as [|x xs IH]; intros Hsub; simpl.
  - ring.
  - rewrite IH by (intros; apply Hsub; right; assumption).
    unfold is_sink at 2. destruct (nonempty (row x)) eqn:Hrow; simpl.
    + rewrite rows_normalized;
        [ring | apply Hsub; left; reflexivity | apply nonempty_true; assumption].
    + apply nonempty_false in Hrow. rewrite Hrow. simpl. ring.
Qed.

(** One iteration maps total mass [t] to [(1 - d) * p + d * t], where [p]
    is the mass of the personalization vector. *)
Lemma total_next_ranks (personalization ranks : dict string Q) :
  pids <> [] ->
  total_rank pids (next_ranks self personalization ranks)
  == (1 - d) * total_rank pids personalization + d * total_rank pids ranks.
Proof.
  intros Hne. pose proof (flen_pos Hne) as Hlen.
  assert (Hprop :
    total_rank pids (fold_left (push_row self ranks) pids
                       (base_ranks self personalization))
    == (1 - d) * total_rank pids personalization
       + d * qsum (map (rk ranks) (filter (fun pid => negb (is_sink self pid)) pids))).
  { rewrite total_propagate by auto.
    rewrite total_base_ranks, propagated_mass by auto. reflexivity. }
  assert (Hleak : flen pids * leak_of self ranks
                  == d * qsum (map (rk ranks) (filter (is_sink self) pids))).
  { unfold leak_of. rewrite fdiv_correct, fmul_correct, sink_mass_correct.
    field. lra. }
  unfold total_rank at 3.
  rewrite (qsum_filter_split (is_sink self) (rk ranks) pids).
  unfold next_ranks. destruct (feqb (leak_of self ranks) 0) eqn:Hzero; simpl.
  - apply feqb_eq in Hzero. rewrite Hzero in Hleak. rewrite Hprop. lra.
  - unfold spread. rewrite total_spread by auto. rewrite Hprop, Hleak. ring.
Qed.
End PageRankMass.

(** ** PageRank solver: the whole run *)

Lemma qsum_pos (xs : list Q) :
  xs <> [] -> (forall x, In x xs -> (0 < x)%Q) -> (0 < qsum xs)%Q.
Proof.
  intros Hne Hpos. destruct xs as [|x xs]; [congruence|]. simpl.
  assert (0 < x)%Q by (apply Hpos; left; reflexivity).
  assert (0 <= qsum xs)%Q.
  { apply qsum_nonneg. intros y Hy. apply Qlt_le_weak. apply Hpos. right. assumption. }
  lra.
Qed.

Section PageRankRun.
Local Open Scope Q_scope.

Variable self : RecommendationEngine.

Local Abbreviation pids := (_product_ids self).
Local Abbreviation row pid := (dict_get_default (product_adjacency (graph self)) pid []).
Local Abbreviation d := (damping self).

Hypothesis pids_NoDup : NoDup pids.
Hypothesis neighbors_closed :
  forall pid n w, In pid pids -> In (n, w) (row pid) -> In n pids.

Lemma uniform_nonempty :
  pids <> [] ->
  _uniform_personalization self = dict_from_keys (fun _ => fdiv 1 (flen pids)) pids.
Proof.
  intros Hne. unfold _uniform_personalization.
  apply nonempty_true in Hne. rewrite Hne. reflexivity.
Qed.

Lemma rk_initial_ranks (pid : string) :
  In pid pids -> rk (initial_ranks self) pid = fdiv 1 (flen pids).
Proof.
  intros Hpid. unfold rk, initial_ranks, dict_get_default.
  rewrite dict_get_from_keys by assumption. reflexivity.
Qed.

Lemma total_initial_ranks : pids <> [] -> total_rank pids (initial_ranks self) == 1.
Proof.
  intros Hne. pose proof (flen_pos Hne) as Hlen. unfold total_rank.
  rewrite (qsum_map_ext (rk (initial_ranks self)) (fun _ => 1 / flen pids)).
  - rewrite qsum_map_const. field. lra.
  - intros pid Hpid. rewrite rk_initial_ranks by assumption. apply fdiv_correct.
Qed.

Lemma rk_normalized (values : dict string Q) (pid : string) :
  In pid pids ->
  rk (_normalize_personalization self values) pid
  == if feqb (total_rank pids values) 0 then 1 / flen pids
     else rk values pid / total_rank pids values.
Proof.
  intros Hpid. assert (Hne : pids <> []) by (intros Hnil; rewrite Hnil in Hpid; exact Hpid).
  unfold _normalize_personalization.
  fold (rk values). fold (total_rank pids values).
  assert (Htot : fsum (map (rk values) pids) == total_rank pids values)
    by apply fsum_correct.
  unfold feqb at 1. rewrite Htot. fold (feqb (total_rank pids values) 0).
  destruct (feqb (total_rank pids values) 0).
  - rewrite uniform_nonempty by assumption. fold (initial_ranks self).
    rewrite rk_initial_ranks by assumption. apply fdiv_correct.
  - unfold rk at 1, dict_get_default. rewrite dict_get_from_keys by assumption.
    rewrite fdiv_correct, Htot. reflexivity.
Qed.

Lemma total_normalized (values : dict string Q) :
  pids <> [] -> total_rank pids (_normalize_personalization self values) == 1.
Proof.
  intros Hne. pose proof (flen_pos Hne) as Hlen.
  unfold total_rank at 1.
  destruct (feqb (total_rank pids values) 0) eqn:Hzero.
  - rewrite (qsum_map_ext _ (fun _ => 1 / flen pids)).
    + rewrite qsum_map_const. field. lra.
    + intros pid Hpid. rewrite rk_normalized by assumption. rewrite Hzero. reflexivity.
  - apply feqb_neq in Hzero.
    rewrite (qsum_map_ext _ (fun pid => (/ total_rank pids values) * rk values pid)).
    + rewrite qsum_map_scale. fold (total_rank pids values). field. assumption.
    + intros pid Hpid. rewrite rk_normalized by assumption.
      destruct (feqb (total_rank pids values) 0) eqn:Hz.
      * apply feqb_eq in Hz. contradiction.
      * field. assumption.
Qed.

Lemma initial_ranks_keys : dict_keys (initial_ranks self) = pids.
Proof. apply dict_keys_from_keys. exact pids_NoDup. Qed.

(** The loop ends without raising and keeps every property that one
    iteration keeps. *)
Lemma pagerank_loop_invariant (Inv : dict string Q -> Prop)
  (personalization : dict string Q) :
  (forall ranks, dict_keys ranks = pids -> Inv ranks ->
                 Inv (next_ranks self personalization ranks)) ->
  forall remaining ranks,
    dict_keys ranks = pids -> Inv ranks ->
    exists out, pagerank_loop self personalization remaining ranks = Ok out
                /\ dict_keys out = pids /\ Inv out.
Proof.
  intros Hstep. induction remaining as [|n IH]; intros ranks Hkeys Hinv; simpl.
  - exists ranks. auto.
  - rewrite pagerank_iteration_pure by assumption. simpl.
    assert (Hkeys' : dict_keys (next_ranks self personalization ranks) = pids)
      by (apply next_ranks_keys; assumption).
    destruct (fltb _ (tolerance self)).
    + eexists. split; [reflexivity|]. auto.
    + apply IH; auto.
Qed.

Lemma run_pagerank_invariant (Inv : dict string Q -> Prop) (values : dict string Q) :
  pids <> [] ->
  Inv (initial_ranks self) ->
  (forall ranks, dict_keys ranks = pids -> Inv ranks ->
                 Inv (next_ranks self (_normalize_personalization self values) ranks)) ->
  exists out, _run_pagerank self values = Ok out /\ dict_keys out = pids /\ Inv out.
Proof.
  intros Hne Hinit Hstep. unfold _run_pagerank.
  apply nonempty_true in Hne. rewrite Hne. simpl.
  apply pagerank_loop_invariant; [assumption | apply initial_ranks_keys | assumption].
Qed.

(** The solver always returns, with one rank per product. *)
Lemma run_pagerank_returns (values : dict string Q) :
  exists out, _run_pagerank self values = Ok out /\ dict_keys out = pids.
Proof.
  destruct (nonempty pids) eqn:Hne.
  - apply nonempty_true in Hne.
    destruct (@run_pagerank_invariant (fun _ => True) values Hne I) as (out & Hrun & Hkeys & _).
    + auto.
    + exists out. auto.
  - unfold _run_pagerank. rewrite Hne. simpl. exists []. split; [reflexivity|].
    apply nonempty_false in Hne. rewrite Hne. reflexivity.
Qed.

Section Mass.
Hypothesis rows_normalized :
  forall pid, In pid pids -> row pid <> [] -> qsum (map snd (row pid)) == 1.

Lemma run_pagerank_mass (values : dict string Q) :
  pids <> [] ->
  exists out, _run_pagerank self values = Ok out /\ dict_keys out = pids
              /\ total_rank pids out == 1.
Proof.
  intros Hne.
  apply (@run_pagerank_invariant (fun m => total_rank pids m == 1) values Hne).
  - apply total_initial_ranks. assumption.
  - intros ranks Hkeys Hone.
    rewrite total_next_ranks by assumption.
    rewrite total_normalized, Hone by assumption. ring.
Qed.
End Mass.

Section Positivity.
Hypothesis damping_range : 0 <= d < 1.
Hypothesis weights_nonneg :
  forall pid n w, In pid pids -> In (n, w) (row pid) -> 0 <= w.

Lemma rk_bump_ge (m : dict string Q) (k k' : string) (x : Q) :
  0 <= x -> rk m k' <= rk (bump m k x) k'.
Proof.
  intros Hx. rewrite rk_bump. destruct (eq_dec k' k) as [->|Hne].
  - rewrite fadd_correct. lra.
  - apply Qle_refl.
Qed.

Lemma sink_mass_nonneg (ranks : dict string Q) :
  (forall pid, In pid pids -> 0 <= rk ranks pid) -> 0 <= sink_mass self ranks.
Proof.
  intros Hpos. rewrite sink_mass_correct. apply qsum_nonneg.
  intros x Hx. apply in_map_iff in Hx. destruct Hx as (pid & <- & Hpid).
  apply filter_In in Hpid. apply Hpos. tauto.
Qed.

Lemma next_ranks_ge_base (personalization ranks : dict string Q) (pid : string) :
  pids <> [] ->
  (forall pid, In pid pids -> 0 <= rk ranks pid) ->
  rk (base_ranks self personalization) pid <= rk (next_ranks self personalization ranks) pid.
Proof.
  intros Hne Hpos. pose proof (flen_pos Hne) as Hlen.
  set (above := fun m : dict string Q => rk (base_ranks self personalization) pid <= rk m pid).
  assert (Hprop : above (fold_left (push_row self ranks) pids
                           (base_ranks self personalization))).
  { apply fold_left_ind; [apply Qle_refl|].
    intros x s Hx Hs. unfold push_row.
    apply fold_left_ind; [assumption|].
    intros [n w] s' Hin Hs'. unfold above, push in *. simpl.
    eapply Qle_trans; [exact Hs'|]. apply rk_bump_ge.
    rewrite !fmul_correct.
    assert (0 <= w) by (eapply weights_nonneg; eassumption).
    assert (0 <= rk ranks x) by (apply Hpos; assumption).
    apply Qmult_le_0_compat; [apply Qmult_le_0_compat; tauto | assumption]. }
  unfold next_ranks. destruct (negb (feqb (leak_of self ranks) 0)); [|exact Hprop].
  unfold spread. apply fold_left_ind; [exact Hprop|].
  intros x s Hx Hs. unfold above in *.
  eapply Qle_trans; [exact Hs|]. apply rk_bump_ge.
  unfold leak_of. rewrite fdiv_correct, fmul_correct.
  pose proof (sink_mass_nonneg ranks Hpos) as Hsink.
  apply Qle_shift_div_l; [assumption|]. rewrite Qmult_0_l.
  apply Qmult_le_0_compat; tauto.
Qed.

(** With a personalization vector that is positive on every product,
    every rank is positive. *)
Lemma run_pagerank_positive (values : dict string Q) :
  pids <> [] ->
  (forall pid, In pid pids -> 0 < rk (_normalize_personalization self values) pid) ->
  exists out, _run_pagerank self values = Ok out /\ dict_keys out = pids
              /\ forall pid, In pid pids -> 0 < rk out pid.
Proof.
  intros Hne Hpers. pose proof (flen_pos Hne) as Hlen.
  apply (@run_pagerank_invariant (fun m => forall pid, In pid pids -> 0 < rk m pid)
           values Hne).
  - intros pid Hpid. rewrite rk_initial_ranks by assumption.
    rewrite fdiv_correct. apply Qlt_shift_div_l; lra.
  - intros ranks Hkeys Hpos pid Hpid.
    eapply Qlt_le_trans;
      [|apply next_ranks_ge_base;
        [assumption | intros; apply Qlt_le_weak; apply Hpos; assumption]].
    rewrite rk_base_ranks by assumption.
    rewrite fmul_correct, fsub_correct.
    apply Qmult_lt_0_compat; [lra | apply Hpers; assumption].
Qed.

Lemma uniform_normalized_positive (pid : string) :
  In pid pids ->
  0 < rk (_normalize_personalization self (_uniform_personalization self)) pid.
Proof.
  intros Hpid. assert (Hne : pids <> []) by (intros Hnil; rewrite Hnil in Hpid; exact Hpid).
  pose proof (flen_pos Hne) as Hlen.
  rewrite rk_normalized by assumption.
  rewrite uniform_nonempty by assumption. fold (initial_ranks self).
  rewrite total_initial_ranks by assumption.
  change (feqb 1 0) with false. cbv iota.
  rewrite total_initial_ranks by assumption.
  rewrite rk_initial_ranks by assumption. rewrite fdiv_correct.
  apply Qlt_shift_div_l; [lra|]. rewrite Qmult_0_l.
  apply Qlt_shift_div_l; lra.
Qed.
End Positivity.
End PageRankRun.

(** ** Graph builder: co-occurrence counts *)

Lemma row_ok_nil : row_ok [].
Proof. split; [constructor | intros n c []]. Qed.

Lemma counter_incr_ok (row : dict string Z) (k : string) :
  row_ok row -> row_ok (counter_incr row k).
Proof.
  intros [Hnd Hpos]. unfold counter_incr. split.
  - apply dict_set_NoDup. assumption.
  - intros n c Hin. apply In_dict_set in Hin. destruct Hin as [Heq|Hin].
    + inversion Heq; subst. unfold dict_get_default.
      destruct (dict_get row k) as [c0|] eqn:Hget; [|lia].
      apply dict_get_In in Hget. apply Hpos in Hget. lia.
    + eapply Hpos. eassumption.
Qed.

Lemma counter_incr_keys (row : dict string Z) (k n : string) :
  In n (dict_keys (counter_incr row k)) <-> n = k \/ In n (dict_keys row).
Proof. unfold counter_incr. apply dict_keys_set_In. Qed.

Lemma default_row_ok (cooc : dict string (dict string Z)) (p : string) :
  (forall q row, dict_get cooc q = Some row -> row_ok row) ->
  row_ok (dict_get_default cooc p []).
Proof.
  intros Hrows. unfold dict_get_default.
  destruct (dict_get cooc p) as [row|] eqn:Hget; [eapply Hrows; eassumption | apply row_ok_nil].
Qed.

Lemma edge_default_row (cooc : dict string (dict string Z)) (p n : string) :
  In n (dict_keys (dict_get_default cooc p [])) <-> edge cooc p n.
Proof.
  unfold edge, dict_get_default. destruct (dict_get cooc p) as [row|].
  - split; [intros Hin; exists row; auto | intros (row' & [= <-] & Hin); assumption].
  - split; [intros [] | intros (row' & Hrow & _); discriminate].
Qed.

Lemma edge_cooccurrence_incr (cooc : dict string (dict string Z)) (a b p n : string) :
  edge (cooccurrence_incr cooc a b) p n <-> edge cooc p n \/ (p = a /\ n = b).
Proof.
  unfold cooccurrence_incr. destruct (eq_dec p a) as [->|Hne].
  - split.
    + intros (row & Hget & Hin). rewrite dict_get_set_same in Hget.
      injection Hget as <-. apply counter_incr_keys in Hin.
      destruct Hin as [->|Hin]; [right; auto | left; apply edge_default_row; assumption].
    + intros Hcase. eexists. split; [apply dict_get_set_same|].
      apply counter_incr_keys. destruct Hcase as [Hedge|[_ ->]]; [right | left; reflexivity].
      apply edge_default_row. assumption.
  - unfold edge. rewrite dict_get_set_other by assumption. intuition congruence.
Qed.

Lemma cooccurrence_incr_ok_rows (cooc : dict string (dict string Z)) (a b : string) :
  NoDup (dict_keys cooc) /\ (forall p row, dict_get cooc p = Some row -> row_ok row) ->
  NoDup (dict_keys (cooccurrence_incr cooc a b))
  /\ (forall p row, dict_get (cooccurrence_incr cooc a b) p = Some row -> row_ok row).
Proof.
  intros [Hnd Hrows]. unfold cooccurrence_incr. split.
  - apply dict_set_NoDup. assumption.
  - intros p row. rewrite dict_get_set. destruct (eq_dec p a) as [->|Hne].
    + intros [= <-]. apply counter_incr_ok. apply default_row_ok. assumption.
    + apply Hrows.
Qed.

Lemma record_pair_ok (st : Accumulators) (lr : string * string) :
  cooccurrence_ok (acc_cooccurrence st) ->
  cooccurrence_ok (acc_cooccurrence (record_pair st lr)).
Proof.
  intros [Hnd Hrows Hsym]. destruct lr as [l r]. simpl.
  destruct (@cooccurrence_incr_ok_rows (cooccurrence_incr (acc_cooccurrence st) l r) r l)
    as [Hnd' Hrows'].
  { apply cooccurrence_incr_ok_rows. auto. }
  constructor; [assumption | assumption |].
  intros p n. rewrite !edge_cooccurrence_incr.
  intros [[Hedge|[-> ->]]|[-> ->]]; auto.
Qed.

Lemma record_incidence_cooccurrence (cid : string) (pids : list string) (st : Accumulators) :
  acc_cooccurrence (fold_left (record_incidence cid) pids st) = acc_cooccurrence st.
Proof.
  revert st. induction pids as [|p pids IH]; intros st; simpl; [reflexivity|].
  rewrite IH. reflexivity.
Qed.

Lemma process_order_ok (st : Accumulators) (order : Order) :
  cooccurrence_ok (acc_cooccurrence st) ->
  cooccurrence_ok (acc_cooccurrence (process_order st order)).
Proof.
  intros Hok. unfold process_order.
  apply (fold_left_ind record_pair (fun st => cooccurrence_ok (acc_cooccurrence st))).
  - rewrite record_incidence_cooccurrence. assumption.
  - intros lr s _ Hs. apply record_pair_ok. assumption.
Qed.

Lemma build_graph_cooccurrence_ok (ds : Dataset) :
  cooccurrence_ok (product_cooccurrence (build_graph ds)).
Proof.
  unfold build_graph. cbn [product_cooccurrence].
  apply (fold_left_ind process_event (fun st => cooccurrence_ok (acc_cooccurrence st))).
  - apply (fold_left_ind process_order (fun st => cooccurrence_ok (acc_cooccurrence st))).
    + constructor; [constructor | intros p row; discriminate |].
      intros p n (row & Hget & _). discriminate.
    + intros o s _ Hs. apply process_order_ok. assumption.
  - intros e s _ Hs. exact Hs.
Qed.

(** A non-empty row of positive counts has a positive total. *)
Lemma row_total_pos (row : dict string Z) : row_ok row -> row <> [] -> 0 < row_total row.
Proof.
  intros [_ Hpos] Hne. unfold row_total, dict_values.
  enough (Hgen : forall xs a, (forall x, In x xs -> 0 < x) -> a <= fold_left Z.add xs a
                              /\ (xs <> [] -> a < fold_left Z.add xs a)).
  { apply Hgen.
    - intros x Hx. apply in_map_iff in Hx. destruct Hx as ([n c] & <- & Hin).
      eapply Hpos. eassumption.
    - destruct row; simpl; congruence. }
  induction xs as [|x xs IH]; intros a Hxs; simpl.
  - split; [lia | congruence].
  - assert (0 < x) by (apply Hxs; left; reflexivity).
    destruct (IH (a + x)) as [Hle _]; [intros; apply Hxs; right; assumption|].
    split; [lia | intros _; lia].
Qed.

(** ** Graph builder: normalized adjacency *)

Lemma normalize_row_get (adjacency : dict string (dict string Q))
  (prow : string * dict string Z) (p : string) :
  dict_get (normalize_row adjacency prow) p
  = if (row_total (snd prow) =? 0) then dict_get adjacency p
    else if eq_dec p (fst prow) then Some (normalized_row (snd prow))
         else dict_get adjacency p.
Proof.
  unfold normalize_row. fold (row_total (snd prow)).
  destruct (row_total (snd prow) =? 0); [reflexivity|].
  rewrite dict_get_set. reflexivity.
Qed.

Lemma adjacency_get (rows : dict string (dict string Z)) :
  forall (adjacency : dict string (dict string Q)) (p : string),
    NoDup (dict_keys rows) ->
    dict_get (fold_left normalize_row rows adjacency) p
    = match dict_get rows p with
      | Some row =>
          if row_total row =? 0 then dict_get adjacency p else Some (normalized_row row)
      | None => dict_get adjacency p
      end.
Proof.
  induction rows as [|[k r] rows IH]; intros adjacency p Hnd; simpl; [reflexivity|].
  inversion Hnd as [|? ? Hnotin Hnd']; subst.
  rewrite IH by assumption. rewrite normalize_row_get. simpl.
  destruct (eq_dec p k) as [->|Hne].
  - apply dict_get_None in Hnotin. rewrite Hnotin. reflexivity.
  - destruct (dict_get rows p) as [row|]; destruct (row_total r =? 0); reflexivity.
Qed.

Lemma adjacency_keys_NoDup (rows : dict string (dict string Z))
  (adjacency : dict string (dict string Q)) :
  NoDup (dict_keys adjacency) -> NoDup (dict_keys (fold_left normalize_row rows adjacency)).
Proof.
  intros Hnd. apply fold_left_ind; [assumption|].
  intros prow s _ Hs. unfold normalize_row.
  destruct (_ =? 0); [assumption | apply dict_set_NoDup; assumption].
Qed.

Lemma initial_adjacency_get (pids : list string) (p : string) (row : dict string Q) :
  dict_get (_initial_adjacency pids) p = Some row -> row = [].
Proof.
  unfold _initial_adjacency, dict_from_keys.
  apply (fold_left_ind (fun (acc : dict string (dict string Q)) k => dict_set acc k [])
           (fun acc => dict_get acc p = Some row -> row = [])).
  - discriminate.
  - intros k s _ Hs. rewrite dict_get_set. destruct (eq_dec p k); [congruence | assumption].
Qed.

Lemma normalized_row_items (row : dict string Z) :
  row_ok row ->
  normalized_row row
  = map (fun nc => (fst nc, fdiv (float_of_int (snd nc)) (float_of_int (row_total row)))) row.
Proof.
  intros [Hnd _]. unfold normalized_row.
  rewrite dict_map_items_NoDup by assumption. reflexivity.
Qed.

Lemma inject_Z_fold_add (xs : list Z) (a : Z) :
  (inject_Z (fold_left Z.add xs a) == inject_Z a + qsum (map inject_Z xs))%Q.
Proof.
  revert a. induction xs as [|x xs IH]; intros a; simpl.
  - ring.
  - rewrite IH, inject_Z_plus. ring.
Qed.

(** A normalized row sums to one. *)
Lemma normalized_row_sum (row : dict string Z) :
  row_ok row -> row <> [] -> (qsum (map snd (normalized_row row)) == 1)%Q.
Proof.
  intros Hok Hne. pose proof (row_total_pos Hok Hne) as Hpos.
  rewrite normalized_row_items by assumption. rewrite map_map. simpl.
  rewrite (qsum_map_ext _ (fun nc => (/ inject_Z (row_total row)) * inject_Z (snd nc))%Q).
  - rewrite qsum_map_scale. rewrite <- map_map.
    assert (Htot : (inject_Z (row_total row) == qsum (map inject_Z (map snd row)))%Q).
    { unfold row_total, dict_values. rewrite inject_Z_fold_add. simpl. ring. }
    rewrite <- Htot. field.
    change 0%Q with (inject_Z 0). rewrite inject_Z_injective. lia.
  - intros nc _. rewrite fdiv_correct. unfold float_of_int. field.
    change 0%Q with (inject_Z 0). rewrite inject_Z_injective. lia.
Qed.

Lemma normalized_row_positive (row : dict string Z) (n : string) (w : Q) :
  row_ok row -> In (n, w) (normalized_row row) -> (0 < w)%Q /\ In n (dict_keys row).
Proof.
  intros Hok Hin. rewrite normalized_row_items in Hin by assumption.
  apply in_map_iff in Hin. destruct Hin as ([n' c] & Heq & Hin). simpl in Heq.
  injection Heq as -> <-.
  assert (Hne : row <> []) by (intros Hnil; rewrite Hnil in Hin; exact Hin).
  pose proof (row_total_pos Hok Hne) as Hpos.
  destruct Hok as [_ Hcounts]. pose proof (Hcounts _ _ Hin) as Hc.
  split.
  - rewrite fdiv_correct. unfold float_of_int.
    apply Qlt_shift_div_l.
    + change 0%Q with (inject_Z 0). rewrite <- Zlt_Qlt. assumption.
    + rewrite Qmult_0_l. change 0%Q with (inject_Z 0). rewrite <- Zlt_Qlt. assumption.
  - apply (in_map fst) in Hin. exact Hin.
Qed.

Lemma adjacency_row_cases (ds : Dataset) (p : string) :
  dict_get_default (product_adjacency (build_graph ds)) p [] = []
  \/ exists row, dict_get (product_cooccurrence (build_graph ds)) p = Some row
                 /\ row_ok row /\ row <> []
                 /\ dict_get (product_adjacency (build_graph ds)) p = Some (normalized_row row).
Proof.
  pose proof (build_graph_cooccurrence_ok ds) as [Hnd Hrows _].
  unfold dict_get_default. cbn [product_adjacency build_graph] in *.
  rewrite adjacency_get by assumption.
  destruct (dict_get _ p) as [row|] eqn:Hget.
  - pose proof (Hrows _ _ Hget) as Hok.
    destruct (row_total row =? 0) eqn:Hzero.
    + left. destruct (dict_get (_initial_adjacency _) p) as [r|] eqn:Hinit; [|reflexivity].
      eapply initial_adjacency_get. eassumption.
    + right. exists row. repeat split; try assumption; try apply Hok.
      intros ->. discriminate.
  - left. destruct (dict_get (_initial_adjacency _) p) as [r|] eqn:Hinit; [|reflexivity].
    eapply initial_adjacency_get. eassumption.
Qed.

Lemma build_graph_adjacency_ok (ds : Dataset) :
  adjacency_ok (product_adjacency (build_graph ds)).
Proof.
  pose proof (build_graph_cooccurrence_ok ds) as Hcooc.
  constructor.
  - cbn [product_adjacency build_graph]. apply adjacency_keys_NoDup.
    unfold _initial_adjacency, dict_from_keys.
    apply (fold_dict_set_keys_NoDup (fun k : string => k) (fun _ => [])). constructor.
  - intros p n w Hin.
    destruct (adjacency_row_cases ds p) as [Hnil|(row & Hget & Hok & Hne & Hadj)].
    { rewrite Hnil in Hin. contradiction. }
    unfold dict_get_default in Hin. rewrite Hadj in Hin.
    apply normalized_row_positive in Hin; [|assumption]. destruct Hin as [_ Hn].
    assert (Hedge : edge (product_cooccurrence (build_graph ds)) p n)
      by (exists row; auto).
    apply (cooc_symmetric Hcooc) in Hedge. destruct Hedge as (row' & Hget' & Hp).
    destruct (adjacency_row_cases ds n) as [Hnil|(row2 & Hget2 & _ & _ & Hadj2)].
    + exfalso. pose proof (cooc_rows Hcooc _ Hget') as Hok'.
      assert (Hne' : row' <> []) by (intros ->; exact Hp).
      pose proof (row_total_pos Hok' Hne') as Hpos.
      revert Hnil. unfold dict_get_default.
      cbn [product_adjacency product_cooccurrence build_graph] in *.
      rewrite adjacency_get by (apply (cooc_keys Hcooc)).
      rewrite Hget'. destruct (row_total row' =? 0) eqn:Hz; [lia|].
      intros Hnil. rewrite normalized_row_items in Hnil by assumption.
      destruct row'; [congruence | discriminate].
    + eapply dict_get_Some_key. eassumption.
  - intros p Hne.
    destruct (adjacency_row_cases ds p) as [Hnil|(row & Hget & Hok & Hrow & Hadj)];
      [contradiction|].
    unfold dict_get_default. rewrite Hadj. apply normalized_row_sum; assumption.
  - intros p n w Hin.
    destruct (adjacency_row_cases ds p) as [Hnil|(row & Hget & Hok & Hne & Hadj)].
    { rewrite Hnil in Hin. contradiction. }
    unfold dict_get_default in Hin. rewrite Hadj in Hin.
    apply normalized_row_positive in Hin; tauto.
Qed.

(** ** Engines built over a graph from [build_graph] *)

Section EngineFacts.
Variable self : RecommendationEngine.
Hypothesis self_ok : engine_ok self.

Lemma engine_pids_NoDup : NoDup (_product_ids self).
Proof. rewrite (eng_product_ids self_ok). apply (adj_keys (eng_adjacency self_ok)). Qed.

Lemma engine_neighbors_closed (pid n : string) (w : Q) :
  In pid (_product_ids self) ->
  In (n, w) (dict_get_default (product_adjacency (graph self)) pid []) ->
  In n (_product_ids self).
Proof.
  intros _ Hin. rewrite (eng_product_ids self_ok).
  eapply (adj_closed (eng_adjacency self_ok)). eassumption.
Qed.

Lemma engine_rows_normalized (pid : string) :
  In pid (_product_ids self) ->
  dict_get_default (product_adjacency (graph self)) pid [] <> [] ->
  (qsum (map snd (dict_get_default (product_adjacency (graph self)) pid [])) == 1)%Q.
Proof. intros _. apply (adj_rows (eng_adjacency self_ok)). Qed.

Lemma engine_weights_nonneg (pid n : string) (w : Q) :
  In pid (_product_ids self) ->
  In (n, w) (dict_get_default (product_adjacency (graph self)) pid []) ->
  (0 <= w)%Q.
Proof.
  intros _ Hin. apply Qlt_le_weak.
  eapply (adj_weights (eng_adjacency self_ok)). eassumption.
Qed.

Lemma engine_run_pagerank (values : dict string Q) :
  exists out, _run_pagerank self values = Ok out /\ dict_keys out = _product_ids self.
Proof.
  apply run_pagerank_returns;
    [apply engine_pids_NoDup | apply engine_neighbors_closed].
Qed.

Lemma engine_global_keys : dict_keys (_global_pagerank self) = _product_ids self.
Proof.
  destruct (engine_run_pagerank (_uniform_personalization self)) as (out & Hrun & Hkeys).
  rewrite (eng_global self_ok) in Hrun. injection Hrun as <-. assumption.
Qed.

Lemma engine_personalized_pagerank (seeds : pyset string) :
  exists out, _personalized_pagerank self seeds = Ok out
              /\ dict_keys out = _product_ids self.
Proof.
  unfold _personalized_pagerank. destruct (negb (nonempty seeds)).
  - exists (_global_pagerank self). split; [reflexivity | apply engine_global_keys].
  - apply engine_run_pagerank.
Qed.
End EngineFacts.

(** Constructing an engine over a built graph always succeeds. *)
Lemma new_engine_ok (ds : Dataset) (d tol : Q) (iters : Z) :
  exists eng, new_engine (build_graph ds) d tol iters = Ok eng
              /\ engine_ok eng
              /\ graph eng = build_graph ds
              /\ damping eng = d /\ tolerance eng = tol /\ max_iterations eng = iters.
Proof.
  unfold new_engine.
  set (self := {| graph := build_graph ds; damping := d; tolerance := tol;
                  max_iterations := iters;
                  _product_ids := dict_keys (product_adjacency (build_graph ds));
                  _global_pagerank := [] |}).
  pose proof (build_graph_adjacency_ok ds) as Hadj.
  destruct (@run_pagerank_returns self) with (values := _uniform_personalization self)
    as (global & Hrun & Hkeys).
  { apply (adj_keys Hadj). }
  { intros pid n w _ Hin. eapply (adj_closed Hadj). exact Hin. }
  rewrite Hrun. simpl. eexists. split; [reflexivity|].
  split; [|simpl; auto].
  constructor; simpl; [reflexivity | assumption |].
  rewrite <- Hrun. reflexivity.
Qed.

(** ** Sorting and slicing *)

Section SortFacts.
Context {A : Type} (lt : A -> A -> bool).

Lemma insert_sorted_perm (x : A) (l : list A) :
  Permutation (insert_sorted lt x l) (x :: l).
Proof.
  induction l as [|y l IH]; simpl.
  - apply Permutation_refl.
  - destruct (lt y x).
    + eapply Permutation_trans; [apply perm_skip; exact IH | apply perm_swap].
    + apply Permutation_refl.
Qed.

Lemma list_sort_perm (l : list A) : Permutation (list_sort lt l) l.
Proof.
  induction l as [|x l IH]; simpl.
  - apply perm_nil.
  - eapply Permutation_trans; [apply insert_sorted_perm | apply perm_skip; exact IH].
Qed.

Lemma list_sort_In (l : list A) (x : A) : In x (list_sort lt l) <-> In x l.
Proof.
  split; apply Permutation_in;
    [apply list_sort_perm | apply Permutation_sym; apply list_sort_perm].
Qed.

Hypothesis lt_asym : forall x y, lt x y = true -> lt y x = false.

Lemma insert_sorted_sorted (x : A) (l : list A) :
  Sorted (not_after lt) l -> Sorted (not_after lt) (insert_sorted lt x l).
Proof.
  induction l as [|y l IH]; intros Hs; simpl.
  - repeat constructor.
  - inversion Hs as [|? ? Hs' Hhd]; subst.
    destruct (lt y x) eqn:Hyx.
    + constructor; [apply IH; assumption|].
      destruct l as [|z l]; simpl.
      * constructor. apply lt_asym. assumption.
      * destruct (lt z x); constructor.
        -- inversion Hhd; subst. assumption.
        -- apply lt_asym. assumption.
    + constructor; [assumption|]. constructor. exact Hyx.
Qed.

Lemma list_sort_sorted (l : list A) : Sorted (not_after lt) (list_sort lt l).
Proof.
  induction l as [|x l IH]; simpl; [constructor|].
  apply insert_sorted_sorted. assumption.
Qed.

Hypothesis not_after_trans :
  forall x y z, not_after lt x y -> not_after lt y z -> not_after lt x z.

Lemma list_sort_strongly_sorted (l : list A) : StronglySorted (not_after lt) (list_sort lt l).
Proof.
  apply Sorted_StronglySorted; [|apply list_sort_sorted].
  intros x y z. apply not_after_trans.
Qed.
End SortFacts.

Lemma firstn_In {A : Type} (n : nat) (l : list A) (x : A) : In x (firstn n l) -> In x l.
Proof.
  revert l. induction n as [|n IH]; intros l; simpl; [contradiction|].
  destruct l as [|y l]; simpl; [contradiction|].
  intros [Heq|Hin]; [left | right; apply IH]; assumption.
Qed.

Lemma firstn_NoDup {A : Type} (n : nat) (l : list A) : NoDup l -> NoDup (firstn n l).
Proof.
  revert l. induction n as [|n IH]; intros l Hnd; simpl; [constructor|].
  destruct l as [|y l]; [constructor|].
  inversion Hnd as [|? ? Hnotin Hnd']; subst.
  constructor; [|apply IH; assumption].
  intros Hin. apply Hnotin. eapply firstn_In. eassumption.
Qed.

Lemma StronglySorted_firstn {A : Type} (R : A -> A -> Prop) (n : nat) (l : list A) :
  StronglySorted R l -> StronglySorted R (firstn n l).
Proof.
  revert l. induction n as [|n IH]; intros l Hs; simpl; [constructor|].
  destruct l as [|x l]; [constructor|].
  inversion Hs as [|? ? Hs' Hall]; subst. constructor; [apply IH; assumption|].
  rewrite Forall_forall in *. intros y Hy. apply Hall. eapply firstn_In; eassumption.
Qed.

Lemma StronglySorted_map {A B : Type} (f : A -> B) (R : B -> B -> Prop) (l : list A) :
  StronglySorted (fun x y => R (f x) (f y)) l -> StronglySorted R (map f l).
Proof.
  induction l as [|x l IH]; intros Hs; simpl; [constructor|].
  inversion Hs as [|? ? Hs' Hall]; subst. constructor; [apply IH; assumption|].
  rewrite Forall_forall in *. intros y Hy. apply in_map_iff in Hy.
  destruct Hy as (z & <- & Hz). apply Hall. assumption.
Qed.

Lemma StronglySorted_impl {A : Type} (R R' : A -> A -> Prop) (l : list A) :
  (forall x y, In x l -> In y l -> R x y -> R' x y) ->
  StronglySorted R l -> StronglySorted R' l.
Proof.
  induction l as [|x l IH]; intros Himpl Hs; [constructor|].
  inversion Hs as [|? ? Hs' Hall]; subst. constructor.
  - apply IH; [|assumption]. intros a b Ha Hb. apply Himpl; right; assumption.
  - rewrite Forall_forall in *. intros y Hy.
    apply Himpl; [left; reflexivity | right; assumption | apply Hall; assumption].
Qed.

(** In a sorted list with distinct keys, related elements have distinct keys. *)
Lemma StronglySorted_distinct {A B : Type} (f : A -> B) (R : A -> A -> Prop) (l : list A) :
  NoDup (map f l) -> StronglySorted R l ->
  StronglySorted (fun x y => R x y /\ f x <> f y) l.
Proof.
  induction l as [|x l IH]; intros Hnd Hs; [constructor|].
  inversion Hs as [|? ? Hs' Hall]; subst. simpl in Hnd.
  inversion Hnd as [|? ? Hnotin Hnd']; subst.
  constructor; [apply IH; assumption|].
  rewrite Forall_forall in *. intros y Hy. split; [apply Hall; assumption|].
  intros Heq. apply Hnotin. rewrite Heq. apply in_map. assumption.
Qed.

Section SliceFacts.
Context {A : Type}.
Implicit Types (l : list A) (n : Z).

Lemma slice_to_In l n (x : A) : In x (slice_to l n) -> In x l.
Proof. unfold slice_to. destruct (n <? 0); apply firstn_In. Qed.

Lemma slice_to_length l n :
  0 <= n -> Z.of_nat (List.length (slice_to l n)) <= n.
Proof.
  intros Hn. unfold slice_to. destruct (n <? 0) eqn:Hneg; [lia|].
  rewrite length_firstn. lia.
Qed.

Lemma slice_to_short l n :
  0 <= n -> Z.of_nat (List.length (slice_to l n)) < n -> slice_to l n = l.
Proof.
  intros Hn. unfold slice_to. destruct (n <? 0) eqn:Hneg; [lia|].
  rewrite length_firstn. intros Hlt. apply firstn_all2. lia.
Qed.

Lemma slice_to_map {B : Type} (f : A -> B) l n :
  slice_to (map f l) n = map f (slice_to l n).
Proof.
  unfold slice_to. rewrite length_map. destruct (n <? 0); apply firstn_map.
Qed.

Lemma slice_to_sorted (R : A -> A -> Prop) l n :
  StronglySorted R l -> StronglySorted R (slice_to l n).
Proof. intros Hs. unfold slice_to. destruct (n <? 0); apply StronglySorted_firstn; assumption. Qed.

Lemma slice_to_NoDup {B : Type} (f : A -> B) l n :
  NoDup (map f l) -> NoDup (map f (slice_to l n)).
Proof.
  intros Hnd. rewrite <- slice_to_map. unfold slice_to.
  destruct (_ <? 0); apply firstn_NoDup; assumption.
Qed.
End SliceFacts.

(** ** The ranking order *)

Lemma str_lt_iff (a b : string) : str_lt a b <-> String_as_OT.lt a b.
Proof.
  unfold str_lt, String.ltb. rewrite <- String_as_OT.cmp_lt. unfold String_as_OT.cmp.
  destruct (String.compare a b); split; intros; congruence.
Qed.

Lemma str_lt_trans (a b c : string) : str_lt a b -> str_lt b c -> str_lt a c.
Proof. rewrite !str_lt_iff. apply String_as_OT.lt_trans. Qed.

Lemma str_lt_irrefl (a : string) : ~ str_lt a a.
Proof.
  rewrite str_lt_iff. intros Hlt. apply String_as_OT.lt_not_eq in Hlt.
  apply Hlt. reflexivity.
Qed.

Lemma str_lt_trichotomy (a b : string) : str_lt a b \/ a = b \/ str_lt b a.
Proof.
  unfold str_lt, String.ltb. rewrite (String.compare_antisym b a).
  destruct (String.compare a b) eqn:Hcmp; simpl; auto.
  right. left. apply String.compare_eq_iff. assumption.
Qed.

Lemma rank_key_lt_true (a b : string * Q) : rank_key_lt a b = true <-> key_before a b.
Proof.
  unfold rank_key_lt, key_before, str_lt.
  destruct (feqb (fneg (snd a)) (fneg (snd b))) eqn:Heq.
  - apply feqb_eq in Heq. rewrite !fneg_correct in Heq.
    split; [intros Hlt; right; split; [lra | assumption]|].
    intros [Hlt|[_ Hlt]]; [lra | assumption].
  - apply feqb_neq in Heq. rewrite !fneg_correct in Heq.
    rewrite fltb_lt, !fneg_correct.
    split; [intros Hlt; left; lra|].
    intros [Hlt|[Hs _]]; [lra | exfalso; apply Heq; lra].
Qed.

Lemma rank_key_lt_false (a b : string * Q) :
  rank_key_lt a b = false <-> ~ key_before a b.
Proof. rewrite <- rank_key_lt_true. destruct (rank_key_lt a b); split; congruence. Qed.

Lemma key_before_asym (a b : string * Q) : key_before a b -> ~ key_before b a.
Proof.
  unfold key_before. intros [Hlt|[Heq Hs]] [Hlt'|[Heq' Hs']]; try lra.
  apply (@str_lt_irrefl (fst a)). eapply str_lt_trans; eassumption.
Qed.

(** Two keys with different identifiers are strictly ordered one way. *)
Lemma key_before_total (a b : string * Q) :
  fst a <> fst b -> key_before a b \/ key_before b a.
Proof.
  intros Hne. unfold key_before.
  destruct (Q_dec (snd a) (snd b)) as [[Hlt|Hgt]|Heq].
  - right. left. assumption.
  - left. left. assumption.
  - destruct (str_lt_trichotomy (fst a) (fst b)) as [Hs|[Hs|Hs]].
    + left. right. auto.
    + contradiction.
    + right. right. split; [symmetry|]; assumption.
Qed.

Lemma not_key_before_trans (a b c : string * Q) :
  ~ key_before b a -> ~ key_before c b -> ~ key_before c a.
Proof.
  unfold key_before. intros Hba Hcb Hca.
  assert (Hab : (snd b <= snd a)%Q) by (apply Qnot_lt_le; tauto).
  assert (Hbc : (snd c <= snd b)%Q) by (apply Qnot_lt_le; tauto).
  destruct Hca as [Hlt|[Heq Hs]]; [lra|].
  assert (Hab' : (snd b == snd a)%Q) by lra.
  assert (Hbc' : (snd c == snd b)%Q) by lra.
  destruct (str_lt_trichotomy (fst b) (fst a)) as [Hs1|[Hs1|Hs1]].
  - apply Hba. right. auto.
  - apply Hcb. right. rewrite Hs1. auto.
  - apply Hcb. right. split; [assumption|]. eapply str_lt_trans; eassumption.
Qed.

(** Sorting by the rank key puts a list with distinct identifiers in
    strict rank order. *)
Lemma sort_by_rank_key {A : Type} (key : A -> string * Q) (l : list A) :
  NoDup (map (fun x => fst (key x)) l) ->
  StronglySorted (fun x y => key_before (key x) (key y))
    (list_sort (fun x y => rank_key_lt (key x) (key y)) l).
Proof.
  intros Hnd. set (lt := fun x y => rank_key_lt (key x) (key y)).
  assert (Hsorted : StronglySorted (not_after lt) (list_sort lt l)).
  { apply list_sort_strongly_sorted.
    - intros x y Hxy. unfold lt in *. apply rank_key_lt_false.
      apply rank_key_lt_true in Hxy. apply key_before_asym. assumption.
    - unfold not_after, lt. intros x y z Hxy Hyz.
      rewrite rank_key_lt_false in *. eapply not_key_before_trans; eassumption. }
  assert (Hnd' : NoDup (map (fun x => fst (key x)) (list_sort lt l))).
  { eapply Permutation_NoDup; [|exact Hnd].
    apply Permutation_map. apply Permutation_sym. apply list_sort_perm. }
  apply (StronglySorted_distinct (fun x => fst (key x))) in Hsorted; [|assumption].
  eapply StronglySorted_impl; [|exact Hsorted].
  intros x y _ _ [Hna Hne]. unfold not_after, lt in Hna.
  apply rank_key_lt_false in Hna.
  destruct (key_before_total (key x) (key y) Hne); [assumption | contradiction].
Qed.

(** In strict rank order, the list is determined by its elements: the
    order of the input of the sort does not matter. *)
Lemma rank_order_unique {A : Type} (key : A -> string * Q) (l1 l2 : list A) :
  StronglySorted (fun x y => key_before (key x) (key y)) l1 ->
  StronglySorted (fun x y => key_before (key x) (key y)) l2 ->
  Permutation l1 l2 -> l1 = l2.
Proof.
  revert l2. induction l1 as [|x l1 IH]; intros l2 Hs1 Hs2 Hperm.
  - apply Permutation_nil in Hperm. congruence.
  - destruct l2 as [|y l2]; [apply Permutation_sym, Permutation_nil in Hperm; discriminate|].
    inversion Hs1 as [|? ? Hs1' Hall1]; subst.
    inversion Hs2 as [|? ? Hs2' Hall2]; subst.
    rewrite Forall_forall in Hall1, Hall2.
    assert (Hxy : x = y).
    { assert (Hx : In x (y :: l2)) by (eapply Permutation_in; [exact Hperm | left; reflexivity]).
      assert (Hy : In y (x :: l1))
        by (eapply Permutation_in; [apply Permutation_sym; exact Hperm | left; reflexivity]).
      destruct Hx as [Hx|Hx]; [congruence|].
      destruct Hy as [Hy|Hy]; [congruence|].
      exfalso. apply (key_before_asym (Hall1 y Hy)). apply Hall2. assumption. }
    subst y. f_equal. apply IH; try assumption.
    eapply Permutation_cons_inv. exact Hperm.
Qed.

(** ** Ranking fuser *)

Lemma dict_set_nonempty {K V : Type} `{EqDec K} (d : dict K V) (k : K) (v : V) :
  dict_set d k v <> [].
Proof.
  destruct d as [|[k' v'] d]; simpl; [discriminate|].
  destruct (eq_dec k k'); discriminate.
Qed.

Lemma strategy_weight_nonneg (name : string) :
  (0 <= dict_get_default STRATEGY_WEIGHTS name 0)%Q.
Proof.
  unfold dict_get_default, STRATEGY_WEIGHTS. simpl.
  repeat (destruct (eq_dec name _); [unfold Qle; simpl; lia|]).
  apply Qle_refl.
Qed.

Lemma fuse_strategy_ok (exclude : pyset string) (name : string) (weight : Q)
  (combined : dict string (dict string Q)) (pv : string * Q) :
  (0 < weight)%Q -> fusion_ok exclude combined ->
  fusion_ok exclude (fuse_strategy exclude name weight combined pv).
Proof.
  intros Hw [Hnd Hall]. unfold fuse_strategy.
  destruct (set_mem (fst pv) exclude) eqn:Hex; simpl; [split; assumption|].
  destruct (fleb (snd pv) 0%Q) eqn:Hpos; [split; assumption|].
  apply set_mem_false in Hex. apply fleb_gt in Hpos.
  split; [apply dict_set_NoDup; assumption|].
  apply Forall_dict_set; [assumption|].
  split; [exact Hex|]. split; [apply dict_set_nonempty|]. simpl.
  apply Forall_dict_set.
  - unfold dict_get_default.
    destruct (dict_get combined (fst pv)) as [old|] eqn:Hget; [|constructor].
    apply dict_get_In in Hget. rewrite Forall_forall in Hall.
    apply (Hall _ Hget).
  - simpl. rewrite fmul_correct. apply Qmult_lt_0_compat; assumption.
Qed.

Lemma fuse_ok (exclude : pyset string) (combined : dict string (dict string Q))
  (strategy : string * dict string Q) :
  fusion_ok exclude combined -> fusion_ok exclude (fuse exclude combined strategy).
Proof.
  intros Hok. unfold fuse.
  destruct (feqb (dict_get_default STRATEGY_WEIGHTS (fst strategy) 0%Q) 0%Q) eqn:Hzero;
    [assumption|].
  apply feqb_neq in Hzero. pose proof (strategy_weight_nonneg (fst strategy)) as Hge.
  apply fold_left_ind; [assumption|].
  intros pv s _ Hs. apply fuse_strategy_ok; [|assumption].
  apply Qle_lt_or_eq in Hge. destruct Hge as [Hlt|Heq]; [assumption|].
  exfalso. apply Hzero. symmetry. assumption.
Qed.

Lemma fusion_table_ok (strategies : dict string (dict string Q)) (exclude : pyset string) :
  fusion_ok exclude (fold_left (fuse exclude) strategies []).
Proof.
  apply fold_left_ind.
  - split; constructor.
  - intros strategy s _ Hs. apply fuse_ok. assumption.
Qed.

Lemma make_recommendation_ids (combined : dict string (dict string Q)) :
  map product_id (map make_recommendation combined) = dict_keys combined.
Proof. rewrite map_map. reflexivity. Qed.

Lemma combine_strategies_In (strategies : dict string (dict string Q))
  (exclude : pyset string) (r : Recommendation) :
  In r (_combine_strategies strategies exclude) ->
  ~ In (product_id r) exclude
  /\ score r = fsum (dict_values (contributions r))
  /\ contributions r <> []
  /\ Forall (fun nv => (0 < snd nv)%Q) (contributions r).
Proof.
  unfold _combine_strategies. rewrite list_sort_In. intros Hin.
  apply in_map_iff in Hin. destruct Hin as (pc & <- & Hpc).
  destruct (fusion_table_ok strategies exclude) as [_ Hall].
  rewrite Forall_forall in Hall. destruct (Hall _ Hpc) as (Hex & Hne & Hpos).
  simpl. auto.
Qed.

Lemma combine_strategies_NoDup (strategies : dict string (dict string Q))
  (exclude : pyset string) :
  NoDup (map product_id (_combine_strategies strategies exclude)).
Proof.
  unfold _combine_strategies.
  eapply Permutation_NoDup.
  - apply Permutation_map. apply Permutation_sym. apply list_sort_perm.
  - rewrite make_recommendation_ids. apply (fusion_table_ok strategies exclude).
Qed.

Lemma combine_strategies_sorted (strategies : dict string (dict string Q))
  (exclude : pyset string) :
  StronglySorted ranked_before (_combine_strategies strategies exclude).
Proof.
  unfold _combine_strategies, ranked_before.
  apply (sort_by_rank_key (fun r => (product_id r, score r))). simpl.
  change (fun x : Recommendation => product_id x) with product_id.
  rewrite make_recommendation_ids. apply (fusion_table_ok strategies exclude).
Qed.

(** A sum of positive contributions is positive. *)
Lemma positive_contributions_score (contribs : dict string Q) :
  contribs <> [] -> Forall (fun nv => (0 < snd nv)%Q) contribs ->
  (0 < fsum (dict_values contribs))%Q.
Proof.
  intros Hne Hpos. rewrite fsum_correct. apply qsum_pos.
  - destruct contribs; simpl; congruence.
  - intros x Hx. apply in_map_iff in Hx. destruct Hx as (nv & <- & Hnv).
    rewrite Forall_forall in Hpos. apply Hpos. assumption.
Qed.

(** ** Top items of a score map *)

Lemma top_items_In (scores : dict string Q) (top_n : Z) (exclude : pyset string)
  (item : string * Q) :
  In item (_top_items scores top_n exclude) ->
  In item scores /\ ~ In (fst item) exclude.
Proof.
  unfold _top_items. intros Hin. apply slice_to_In in Hin.
  apply list_sort_In in Hin. apply filter_In in Hin. destruct Hin as [Hin Hex].
  split; [assumption|]. apply negb_true_iff in Hex. apply set_mem_false. assumption.
Qed.

Lemma filter_keys_NoDup {V : Type} (p : string * V -> bool) (d : dict string V) :
  NoDup (dict_keys d) -> NoDup (dict_keys (filter p d)).
Proof.
  unfold dict_keys. induction d as [|kv d IH]; simpl; intros Hnd; [constructor|].
  inversion Hnd as [|? ? Hnotin Hnd']; subst.
  destruct (p kv); simpl; [|apply IH; assumption].
  constructor; [|apply IH; assumption].
  intros Hin. apply Hnotin. apply in_map_iff in Hin. destruct Hin as (x & Hx & Hin).
  apply filter_In in Hin. rewrite <- Hx. apply in_map. tauto.
Qed.

Lemma top_items_sorted (scores : dict string Q) (top_n : Z) (exclude : pyset string) :
  NoDup (dict_keys scores) ->
  StronglySorted key_before (_top_items scores top_n exclude).
Proof.
  intros Hnd. unfold _top_items. apply slice_to_sorted.
  apply (sort_by_rank_key (fun item : string * Q => item)).
  apply filter_keys_NoDup. assumption.
Qed.

(** ** The façade *)

Lemma ensure_known_customer_true (self : RecommendationEngine) (cid : string) :
  dict_mem (customers (dataset (graph self))) cid = true ->
  _ensure_known_customer self cid = Ok tt.
Proof. intros Hmem. unfold _ensure_known_customer. rewrite Hmem. reflexivity. Qed.

Lemma seeds_subset_exclusion (self : RecommendationEngine) (cid pid : string) :
  In pid (customer_seeds self cid) -> In pid (exclusion_set self cid).
Proof.
  unfold customer_seeds, seeds_of, exclusion_set. rewrite set_union_In.
  destruct (nonempty (purchased_of self cid)); auto.
Qed.

(** Shape of the result for a known customer: the cold-start ranking or
    the fused ranking, cut at [top_n]. *)
Lemma recommend_known_customer (self : RecommendationEngine) (cid : string) :
  engine_ok self ->
  dict_mem (customers (dataset (graph self))) cid = true ->
  (customer_seeds self cid = []
   /\ forall top_n,
        recommend_for_customer self cid top_n = Ok (slice_to (global_ranking self) top_n))
  \/ (customer_seeds self cid <> []
      /\ exists ppr,
          _personalized_pagerank self (customer_seeds self cid) = Ok ppr
          /\ forall top_n,
               recommend_for_customer self cid top_n
               = Ok (slice_to
                       (_combine_strategies
                          (fused_strategies self (customer_seeds self cid) ppr)
                          (exclusion_set self cid))
                       top_n)).
Proof.
  intros Hok Hmem.
  destruct (customer_seeds self cid) as [|seed seeds] eqn:Hseeds.
  - left. split; [reflexivity|]. intros top_n. unfold recommend_for_customer.
    rewrite ensure_known_customer_true by assumption. simpl.
    fold (customer_seeds self cid). rewrite Hseeds. simpl.
    unfold _fallback_top_pagerank, _top_items, global_ranking.
    rewrite slice_to_map. reflexivity.
  - right. split; [discriminate|].
    destruct (engine_personalized_pagerank Hok (seed :: seeds)) as (ppr & Hppr & _).
    exists ppr. split; [assumption|]. intros top_n. unfold recommend_for_customer.
    rewrite ensure_known_customer_true by assumption. simpl.
    fold (customer_seeds self cid). rewrite Hseeds. simpl nonempty. simpl negb. cbv iota.
    rewrite Hppr. reflexivity.
Qed.

Section GlobalRanking.
Variable self : RecommendationEngine.
Hypothesis self_ok : engine_ok self.

Lemma global_pagerank_NoDup : NoDup (dict_keys (_global_pagerank self)).
Proof. rewrite (engine_global_keys self_ok). apply engine_pids_NoDup. assumption. Qed.

Lemma global_pagerank_positive (item : string * Q) :
  (0 <= damping self < 1)%Q -> In item (_global_pagerank self) -> (0 < snd item)%Q.
Proof.
  intros Hd Hin. destruct item as [pid s]. simpl.
  assert (Hpid : In pid (_product_ids self)).
  { rewrite <- (engine_global_keys self_ok). apply (in_map fst) in Hin. exact Hin. }
  assert (Hne : _product_ids self <> []) by (intros Hnil; rewrite Hnil in Hpid; exact Hpid).
  destruct (@run_pagerank_positive self (engine_pids_NoDup self_ok)
              (engine_neighbors_closed self_ok) Hd (engine_weights_nonneg self_ok)
              (_uniform_personalization self) Hne) as (out & Hrun & _ & Hpos).
  { intros p Hp. apply uniform_normalized_positive;
      first [assumption | apply (engine_pids_NoDup self_ok)
             | apply (engine_neighbors_closed self_ok)]. }
  rewrite (eng_global self_ok) in Hrun. injection Hrun as <-.
  specialize (Hpos pid Hpid). unfold rk, dict_get_default in Hpos.
  rewrite (In_dict_get _ _ _ global_pagerank_NoDup Hin) in Hpos. exact Hpos.
Qed.

Lemma global_ranking_In (r : Recommendation) :
  In r (global_ranking self) ->
  exists item, In item (_global_pagerank self) /\ r = global_recommendation item.
Proof.
  unfold global_ranking. intros Hin. apply in_map_iff in Hin.
  destruct Hin as (item & <- & Hitem). apply list_sort_In in Hitem.
  apply filter_In in Hitem. exists item. tauto.
Qed.

Lemma global_ranking_NoDup : NoDup (map product_id (global_ranking self)).
Proof.
  unfold global_ranking. rewrite map_map.
  change (fun x : string * Q => product_id (global_recommendation x))
    with (@fst string Q).
  eapply Permutation_NoDup.
  - apply Permutation_map. apply Permutation_sym. apply list_sort_perm.
  - apply filter_keys_NoDup. apply global_pagerank_NoDup.
Qed.

Lemma global_ranking_sorted : StronglySorted ranked_before (global_ranking self).
Proof.
  unfold global_ranking. apply StronglySorted_map.
  apply (sort_by_rank_key (fun item : string * Q => item)).
  apply filter_keys_NoDup. apply global_pagerank_NoDup.
Qed.
End GlobalRanking.

Lemma seeds_nil (self : RecommendationEngine) (cid : string) :
  customer_seeds self cid = [] ->
  purchased_of self cid = [] /\ _interacted_products self cid = [].
Proof.
  unfold customer_seeds, seeds_of.
  destruct (purchased_of self cid) as [|p ps]; simpl; [auto | discriminate].
Qed.

Lemma recommend_ranking (self : RecommendationEngine) (cid : string) :
  engine_ok self ->
  dict_mem (customers (dataset (graph self))) cid = true ->
  exists full,
    (forall top_n, recommend_for_customer self cid top_n = Ok (slice_to full top_n))
    /\ ranking_ok self cid full.
Proof.
  intros Hok Hmem.
  destruct (recommend_known_customer cid Hok Hmem)
    as [[Hseeds Hrec]|[Hseeds (ppr & Hppr & Hrec)]].
  - exists (global_ranking self). split; [assumption|].
    destruct (seeds_nil _ _ Hseeds) as [Hp Hi].
    constructor.
    + intros r _. unfold exclusion_set. rewrite Hp, Hi. simpl. tauto.
    + apply global_ranking_sorted. assumption.
    + apply global_ranking_NoDup. assumption.
    + intros r Hr. apply global_ranking_In in Hr. destruct Hr as (item & _ & ->).
      simpl. split; [|discriminate].
      rewrite fsum_correct. simpl. ring.
    + intros Hne. contradiction.
    + reflexivity.
  - eexists. split; [exact Hrec|].
    constructor.
    + intros r Hr. apply combine_strategies_In in Hr. tauto.
    + apply combine_strategies_sorted.
    + apply combine_strategies_NoDup.
    + intros r Hr. apply combine_strategies_In in Hr.
      destruct Hr as (_ & -> & Hne & _). split; [reflexivity | assumption].
    + intros _ r Hr. apply combine_strategies_In in Hr. tauto.
    + intros Hnil. contradiction.
Qed.

Lemma built_engine_customer (ds : Dataset) (eng : RecommendationEngine) (cid : string) :
  graph eng = build_graph ds ->
  dict_mem (customers ds) cid = true ->
  dict_mem (customers (dataset (graph eng))) cid = true.
Proof. intros -> Hmem. exact Hmem. Qed.

(** ** Which exceptions the solver can raise *)

Ltac case_if :=
  cbv zeta; match goal with |- context [if ?c then _ else _] => destruct c end.

Lemma no_value_error_bind {A B : Type} (m : result A) (k : A -> result B) :
  no_value_error m -> (forall a, no_value_error (k a)) -> no_value_error (bind m k).
Proof. intros Hm Hk. destruct m as [a|[msg|key]]; simpl; auto. Qed.

Lemma no_value_error_for_each {A S : Type} (body : S -> A -> result S)
  (xs : list A) (acc : S) :
  (forall s x, no_value_error (body s x)) -> no_value_error (for_each body xs acc).
Proof.
  intros Hbody. revert acc. induction xs as [|x xs IH]; intros acc; simpl; [exact I|].
  apply no_value_error_bind; auto.
Qed.

Lemma getitem_no_value_error {V : Type} (d : dict string V) (k : string) :
  no_value_error (getitem d k).
Proof. unfold getitem. destruct (dict_get d k); exact I. Qed.

Lemma iadd_no_value_error (d : dict string Q) (k : string) (x : result Q) :
  no_value_error x -> no_value_error (iadd d k x).
Proof.
  intros Hx. unfold iadd.
  apply no_value_error_bind; [apply getitem_no_value_error|]. intros old.
  apply no_value_error_bind; [assumption|]. intros x'. exact I.
Qed.

Lemma pagerank_iteration_no_value_error (self : RecommendationEngine)
  (personalization ranks : dict string Q) :
  no_value_error (pagerank_iteration self personalization ranks).
Proof.
  unfold pagerank_iteration.
  apply no_value_error_bind.
  { apply no_value_error_for_each. intros s x. destruct (is_sink self x); [|exact I].
    apply no_value_error_bind; [apply getitem_no_value_error | intros; exact I]. }
  intros sink_rank. apply no_value_error_bind.
  { apply no_value_error_for_each. intros s x. case_if; [exact I|].
    apply no_value_error_for_each. intros s' nw. apply iadd_no_value_error.
    apply no_value_error_bind; [apply getitem_no_value_error | intros; exact I]. }
  intros new_ranks. apply no_value_error_bind.
  { unfold add_leak. destruct (negb (feqb _ 0%Q)); [|exact I].
    apply no_value_error_for_each. intros s x. apply iadd_no_value_error. exact I. }
  intros new_ranks'. apply no_value_error_bind; [|intros; exact I].
  apply no_value_error_for_each. intros s x.
  apply no_value_error_bind; [apply getitem_no_value_error|]. intros n.
  apply no_value_error_bind; [apply getitem_no_value_error | intros; exact I].
Qed.

Lemma personalized_pagerank_no_value_error (self : RecommendationEngine)
  (seeds : pyset string) :
  no_value_error (_personalized_pagerank self seeds).
Proof.
  unfold _personalized_pagerank. destruct (negb (nonempty seeds)); [exact I|].
  unfold _run_pagerank. destruct (negb (nonempty (_product_ids self))); [exact I|].
  generalize (dict_from_keys (fun _ : string => fdiv 1 (flen (_product_ids self)))
                (_product_ids self)).
  induction (Z.to_nat (max_iterations self)) as [|n IH]; intros ranks; simpl; [exact I|].
  apply no_value_error_bind; [apply pagerank_iteration_no_value_error|].
  intros step. destruct (fltb (snd step) (tolerance self)); [exact I | apply IH].
Qed.

Lemma no_value_error_neq {A : Type} (r : result A) (msg : string) :
  no_value_error r -> r <> Raise (ValueError msg).
Proof. intros Hr ->. exact Hr. Qed.

(** ** Products of the dataset are products of the graph *)

Lemma dict_from_keys_mem {V : Type} (f : string -> V) (ks : list string) (k : string) :
  In k ks -> In k (dict_keys (dict_from_keys f ks)).
Proof.
  unfold dict_from_keys. revert k.
  apply (fold_left_prefix_ind (fun (acc : dict string V) k => dict_set acc k (f k))
           (fun pre acc => forall k, In k pre -> In k (dict_keys acc))).
  - intros k [].
  - intros pre x s _ Hpre k Hk. apply dict_keys_set_In.
    apply in_app_iff in Hk. destruct Hk as [Hk|[<-|[]]]; [right; auto | left; reflexivity].
Qed.

Lemma build_graph_products (ds : Dataset) (p : string) :
  In p (product_ids ds) -> In p (dict_keys (product_adjacency (build_graph ds))).
Proof.
  intros Hp. cbn [product_adjacency build_graph].
  apply fold_left_ind.
  - apply dict_from_keys_mem. assumption.
  - intros prow s _ Hs. unfold normalize_row. case_if; [assumption|].
    apply dict_keys_set_In. right. assumption.
Qed.

Lemma dict_values_rk (m : dict string Q) :
  NoDup (dict_keys m) -> map (rk m) (dict_keys m) = dict_values m.
Proof.
  unfold dict_keys, dict_values. induction m as [|[k v] m IH]; intros Hnd; simpl;
    [reflexivity|].
  inversion Hnd as [|? ? Hnotin Hnd']; subst.
  unfold rk at 1, dict_get_default. simpl. destruct (eq_dec k k); [|congruence].
  f_equal. rewrite <- IH by assumption. apply map_ext_in.
  intros k' Hk'. unfold rk, dict_get_default. simpl.
  destruct (eq_dec k' k) as [->|Hne]; [contradiction | reflexivity].
Qed.

Lemma total_rank_values (pids : list string) (m : dict string Q) :
  NoDup pids -> dict_keys m = pids -> (fsum (dict_values m) == total_rank pids m)%Q.
Proof.
  intros Hnd Hkeys. rewrite fsum_correct. unfold total_rank.
  rewrite <- Hkeys, dict_values_rk by (rewrite Hkeys; assumption). reflexivity.
Qed.

(** ** Customers without orders or events *)

Lemma record_incidence_untouched (cid c : string) (st : Accumulators) (pid : string) :
  c <> cid -> untouched cid st -> untouched cid (record_incidence c st pid).
Proof.
  intros Hne [Hcp Hew]. split; simpl; [|assumption].
  unfold multimap_add. rewrite dict_get_set_other by congruence. assumption.
Qed.

Lemma process_order_untouched (cid : string) (st : Accumulators) (order : Order) :
  customer_id order <> cid -> untouched cid st -> untouched cid (process_order st order).
Proof.
  intros Hne Hst. unfold process_order.
  apply fold_left_ind.
  - apply fold_left_ind; [assumption|].
    intros pid s _ Hs. apply record_incidence_untouched; assumption.
  - intros lr s _ Hs. exact Hs.
Qed.

Lemma process_event_untouched (cid : string) (st : Accumulators) (event : Event) :
  event_customer_id event <> cid -> untouched cid st ->
  untouched cid (process_event st event).
Proof.
  intros Hne Hst.
  destruct (@record_incidence_untouched cid _ st (event_product_id event) Hne Hst)
    as [Hcp Hew].
  split; [exact Hcp|]. cbn [acc_event_weights process_event].
  intros k w Hin. apply In_dict_set in Hin. destruct Hin as [Heq|Hin].
  - injection Heq as -> _. simpl. assumption.
  - eapply Hew. eassumption.
Qed.

Lemma build_graph_untouched (ds : Dataset) (cid : string) :
  Forall (fun o => customer_id o <> cid) (dict_values (orders ds)) ->
  Forall (fun e => event_customer_id e <> cid) (events ds) ->
  dict_get (customer_products (build_graph ds)) cid = None
  /\ forall k w, In (k, w) (event_weights (build_graph ds)) -> fst k <> cid.
Proof.
  intros Horders Hevents. rewrite Forall_forall in Horders, Hevents.
  change (untouched cid
            (fold_left process_event (events ds)
               (fold_left process_order (dict_values (orders ds)) empty_accumulators))).
  apply fold_left_ind.
  - apply fold_left_ind.
    + split; [reflexivity | intros k w []].
    + intros o s Ho Hs. apply process_order_untouched; auto.
  - intros e s He Hs. apply process_event_untouched; auto.
Qed.

Lemma filter_none {A : Type} (p : A -> bool) (l : list A) :
  (forall x, In x l -> p x = false) -> filter p l = [].
Proof.
  induction l as [|x l IH]; intros Hp; simpl; [reflexivity|].
  rewrite (Hp x (or_introl eq_refl)). apply IH. intros y Hy. apply Hp. right. assumption.
Qed.

Lemma filter_all {A : Type} (p : A -> bool) (l : list A) :
  (forall x, In x l -> p x = true) -> filter p l = l.
Proof.
  induction l as [|x l IH]; intros Hp; simpl; [reflexivity|].
  rewrite (Hp x (or_introl eq_refl)). f_equal. apply IH. intros y Hy. apply Hp. right.
  assumption.
Qed.

Lemma cold_customer_has_no_seeds (ds : Dataset) (eng : RecommendationEngine)
  (cid : string) :
  graph eng = build_graph ds ->
  Forall (fun o => customer_id o <> cid) (dict_values (orders ds)) ->
  Forall (fun e => event_customer_id e <> cid) (events ds) ->
  purchased_of eng cid = [] /\ _interacted_products eng cid = [].
Proof.
  intros Hgraph Horders Hevents.
  destruct (build_graph_untouched ds Horders Hevents) as [Hcp Hew].
  unfold purchased_of, _interacted_products, dict_get_default. rewrite Hgraph, Hcp.
  split; [reflexivity|]. rewrite filter_none; [reflexivity|].
  intros [k w] Hin. simpl. destruct (eq_dec (fst k) cid) as [Heq|Hne]; [|reflexivity].
  exfalso. eapply Hew; eassumption.
Qed.

(** ** Adding an event *)

Lemma accumulate_add_event (ds : Dataset) (e : Event) :
  accumulate (add_event ds e) = process_event (accumulate ds) e.
Proof. unfold accumulate. simpl. rewrite fold_left_app. reflexivity. Qed.

Lemma multimap_add_In (m : dict string (pyset string)) (k v k' x : string) :
  In x (dict_get_default (multimap_add m k v) k' [])
  <-> (k' = k /\ (x = v \/ In x (dict_get_default m k [])))
      \/ (k' <> k /\ In x (dict_get_default m k' [])).
Proof.
  unfold multimap_add. rewrite dict_get_default_set.
  destruct (eq_dec k' k) as [->|Hne].
  - rewrite set_add_In. intuition congruence.
  - intuition congruence.
Qed.

Lemma multimap_add_member (m : dict string (pyset string)) (k v : string) :
  In v (dict_get_default m k []) -> multimap_add m k v = m.
Proof.
  intros Hin. unfold multimap_add. rewrite set_add_member by assumption.
  unfold dict_get_default in *. destruct (dict_get m k) as [s|] eqn:Hget; [|contradiction].
  apply dict_set_same_value. assumption.
Qed.

Lemma record_incidence_mirrored (cid : string) (st : Accumulators) (pid : string) :
  incidence_mirrored st -> incidence_mirrored (record_incidence cid st pid).
Proof.
  intros Hst c p. simpl. rewrite !multimap_add_In. specialize (Hst c p).
  pose proof (Hst' := Hst).
  destruct (eq_dec c cid) as [->|Hc]; destruct (eq_dec p pid) as [->|Hp];
    intuition congruence.
Qed.

Lemma accumulate_mirrored (ds : Dataset) : incidence_mirrored (accumulate ds).
Proof.
  unfold accumulate. apply fold_left_ind.
  - apply fold_left_ind; [intros c p; simpl; tauto|].
    intros o s _ Hs. unfold process_order.
    apply fold_left_ind.
    + apply fold_left_ind; [assumption|].
      intros pid s' _ Hs'. apply record_incidence_mirrored. assumption.
    + intros lr s' _ Hs'. exact Hs'.
  - intros e s _ Hs. intros c p. cbn [process_event acc_customer_products
                                       acc_product_customers].
    apply record_incidence_mirrored. assumption.
Qed.

(** Rewriting a weight by one of the same sign leaves the products with
    positive weight unchanged. *)
Lemma interacted_weights_set (weights : dict (string * string) Q)
  (key : string * string) (w : Q) (cid : string) :
  fltb 0%Q w = fltb 0%Q (dict_get_default weights key 0%Q) ->
  map (fun kw : string * string * Q => snd (fst kw))
    (filter (fun kw : string * string * Q =>
               if eq_dec (fst (fst kw)) cid then fltb 0%Q (snd kw) else false)
       (dict_set weights key w))
  = map (fun kw : string * string * Q => snd (fst kw))
      (filter (fun kw : string * string * Q =>
                 if eq_dec (fst (fst kw)) cid then fltb 0%Q (snd kw) else false)
         weights).
Proof.
  induction weights as [|[k' v'] weights IH]; intros Hsign.
  - unfold dict_get_default in Hsign. simpl in Hsign. simpl.
    rewrite Hsign. destruct (eq_dec (fst key) cid); reflexivity.
  - unfold dict_get_default in Hsign. cbn [dict_get] in Hsign. cbn [dict_set].
    destruct (eq_dec key k') as [->|Hne].
    + cbn [filter fst snd]. rewrite Hsign.
      destruct (eq_dec (fst k') cid); [destruct (fltb 0%Q v')|]; reflexivity.
    + cbn [filter]. specialize (IH Hsign).
      destruct (if eq_dec (fst (fst (k', v'))) cid then fltb 0%Q (snd (k', v')) else false);
        cbn [map]; rewrite IH; reflexivity.
Qed.

(** ** Engines that read the same data return the same results *)

Lemma pagerank_iteration_same (a b : RecommendationEngine)
  (personalization ranks : dict string Q) :
  same_solver a b ->
  pagerank_iteration a personalization ranks = pagerank_iteration b personalization ranks.
Proof.
  intros [Hadj Hd _ _ Hpids].
  unfold pagerank_iteration, sink_rank_sum, propagate, add_leak, l1_delta, is_sink.
  rewrite Hadj, Hd, Hpids. reflexivity.
Qed.

Lemma pagerank_loop_same (a b : RecommendationEngine)
  (personalization : dict string Q) (remaining : nat) :
  same_solver a b ->
  forall ranks,
    pagerank_loop a personalization remaining ranks
    = pagerank_loop b personalization remaining ranks.
Proof.
  intros Hsame. induction remaining as [|n IH]; intros ranks; simpl; [reflexivity|].
  rewrite (pagerank_iteration_same personalization ranks Hsame), (same_tolerance Hsame).
  destruct (pagerank_iteration b personalization ranks) as [step|err]; simpl;
    [|reflexivity].
  case_if; [reflexivity | apply IH].
Qed.

Lemma run_pagerank_same (a b : RecommendationEngine) (values : dict string Q) :
  same_solver a b -> _run_pagerank a values = _run_pagerank b values.
Proof.
  intros Hsame.
  unfold _run_pagerank, _normalize_personalization, _uniform_personalization.
  rewrite (same_max_iterations Hsame), (same_product_ids Hsame).
  case_if; [reflexivity|]. apply pagerank_loop_same. assumption.
Qed.

Lemma personalized_pagerank_same (a b : RecommendationEngine) (seeds : pyset string) :
  same_view a b -> _personalized_pagerank a seeds = _personalized_pagerank b seeds.
Proof.
  intros Hview. unfold _personalized_pagerank.
  rewrite (view_global Hview), (same_product_ids (view_solver Hview)).
  case_if; [reflexivity|]. apply run_pagerank_same. apply (view_solver Hview).
Qed.

Lemma scores_same (a b : RecommendationEngine) (seeds : pyset string) :
  same_view a b ->
  _co_occurrence_scores a seeds = _co_occurrence_scores b seeds
  /\ _similarity_scores a seeds = _similarity_scores b seeds.
Proof.
  intros Hview. unfold _co_occurrence_scores, _similarity_scores, jaccard_step.
  rewrite (view_cooccurrence Hview), (view_product_customers Hview). split; reflexivity.
Qed.

Lemma recommend_same_view (a b : RecommendationEngine) (cid : string) (top_n : Z) :
  same_view a b ->
  recommend_for_customer a cid top_n = recommend_for_customer b cid top_n
  /\ strategy_breakdown a cid top_n = strategy_breakdown b cid top_n.
Proof.
  intros Hview.
  unfold recommend_for_customer, strategy_breakdown, _ensure_known_customer,
    _fallback_top_pagerank, purchased_of.
  rewrite (view_customers Hview), (view_customer_products Hview),
    (view_interacted Hview cid), (view_global Hview).
  cbv zeta.
  set (seeds := seeds_of _ _).
  destruct (scores_same seeds Hview) as [-> ->].
  rewrite (personalized_pagerank_same seeds Hview). split; reflexivity.
Qed.

(** ** What an event of unknown type changes in the graph *)

Lemma unknown_type_weight (t : string) :
  dict_mem EVENT_WEIGHTS t = false -> dict_get_default EVENT_WEIGHTS t 0%Q = 0%Q.
Proof.
  unfold dict_mem, dict_get_default. destruct (dict_get EVENT_WEIGHTS t);
    [discriminate | reflexivity].
Qed.

Lemma fltb_fadd_zero (x : Q) : fltb 0%Q (fadd x 0%Q) = fltb 0%Q x.
Proof.
  unfold fltb. f_equal. apply Qleb_comp; [|reflexivity].
  rewrite fadd_correct. ring.
Qed.

Lemma add_event_cooccurrence (ds : Dataset) (e : Event) :
  product_cooccurrence (build_graph (add_event ds e))
  = product_cooccurrence (build_graph ds).
Proof.
  change (acc_cooccurrence (accumulate (add_event ds e))
          = acc_cooccurrence (accumulate ds)).
  rewrite accumulate_add_event. reflexivity.
Qed.

Lemma add_event_adjacency (ds : Dataset) (e : Event) :
  product_adjacency (build_graph (add_event ds e)) = product_adjacency (build_graph ds).
Proof.
  change (fold_left normalize_row (product_cooccurrence (build_graph (add_event ds e)))
            (_initial_adjacency (product_ids ds))
          = fold_left normalize_row (product_cooccurrence (build_graph ds))
              (_initial_adjacency (product_ids ds))).
  rewrite add_event_cooccurrence. reflexivity.
Qed.

Lemma add_event_weights (ds : Dataset) (e : Event) :
  event_weights (build_graph (add_event ds e))
  = dict_set (event_weights (build_graph ds))
      (event_customer_id e, event_product_id e)
      (fadd (dict_get_default (event_weights (build_graph ds))
               (event_customer_id e, event_product_id e) 0%Q)
         (dict_get_default EVENT_WEIGHTS (event_type e) 0%Q)).
Proof.
  replace (event_weights (build_graph (add_event ds e)))
    with (acc_event_weights (accumulate (add_event ds e))) by reflexivity.
  replace (event_weights (build_graph ds))
    with (acc_event_weights (accumulate ds)) by reflexivity.
  rewrite accumulate_add_event. reflexivity.
Qed.

Lemma add_event_incidence (ds : Dataset) (e : Event) :
  In (event_product_id e)
    (dict_get_default (customer_products (build_graph ds)) (event_customer_id e) []) ->
  customer_products (build_graph (add_event ds e)) = customer_products (build_graph ds)
  /\ product_customers (build_graph (add_event ds e)) = product_customers (build_graph ds).
Proof.
  intros Hin.
  change (In (event_product_id e)
            (dict_get_default (acc_customer_products (accumulate ds))
               (event_customer_id e) [])) in Hin.
  change (acc_customer_products (accumulate (add_event ds e))
          = acc_customer_products (accumulate ds)
          /\ acc_product_customers (accumulate (add_event ds e))
             = acc_product_customers (accumulate ds)).
  rewrite accumulate_add_event. cbn [process_event record_incidence
                                      acc_customer_products acc_product_customers].
  split; apply multimap_add_member; [assumption|].
  apply (accumulate_mirrored ds). assumption.
Qed.

Lemma add_event_interacted (ds : Dataset) (e : Event) (a b : RecommendationEngine)
  (cid : string) :
  dict_mem EVENT_WEIGHTS (event_type e) = false ->
  graph a = build_graph (add_event ds e) -> graph b = build_graph ds ->
  _interacted_products a cid = _interacted_products b cid.
Proof.
  intros Htype Ha Hb. unfold _interacted_products.
  rewrite Ha, Hb, add_event_weights, (unknown_type_weight _ Htype).
  rewrite interacted_weights_set; [reflexivity | apply fltb_fadd_zero].
Qed.

(** Engines over the two graphs agree on everything the façade reads. *)
Lemma add_event_same_results (ds : Dataset) (e : Event) (d tol : Q) (iters : Z)
  (cid : string) (top_n : Z) :
  dict_mem EVENT_WEIGHTS (event_type e) = false ->
  In (event_product_id e)
    (dict_get_default (customer_products (build_graph ds)) (event_customer_id e) []) ->
  (eng <- new_engine (build_graph (add_event ds e)) d tol iters ;;
   recommend_for_customer eng cid top_n)
  = (eng <- new_engine (build_graph ds) d tol iters ;;
     recommend_for_customer eng cid top_n)
  /\ (eng <- new_engine (build_graph (add_event ds e)) d tol iters ;;
      strategy_breakdown eng cid top_n)
     = (eng <- new_engine (build_graph ds) d tol iters ;;
        strategy_breakdown eng cid top_n).
Proof.
  intros Htype Hin.
  destruct (new_engine_ok ds d tol iters)
    as (b & Hb & Hbok & Hbg & Hbd & Hbt & Hbi).
  destruct (new_engine_ok (add_event ds e) d tol iters)
    as (a & Ha & Haok & Hag & Had & Hat & Hai).
  rewrite Ha, Hb. simpl.
  destruct (add_event_incidence ds e Hin) as [Hcp Hpc].
  assert (Hsolver : same_solver a b).
  { constructor; try congruence.
    - rewrite Hag, Hbg. apply add_event_adjacency.
    - rewrite (eng_product_ids Haok), (eng_product_ids Hbok), Hag, Hbg,
        add_event_adjacency. reflexivity. }
  apply recommend_same_view. constructor; try assumption.
  - rewrite Hag, Hbg. reflexivity.
  - rewrite Hag, Hbg. apply add_event_cooccurrence.
  - rewrite Hag, Hbg. assumption.
  - rewrite Hag, Hbg. assumption.
  - intros c. eapply add_event_interacted; eassumption.
  - pose proof (eng_global Haok) as Hga. pose proof (eng_global Hbok) as Hgb.
    rewrite (run_pagerank_same _ Hsolver) in Hga.
    unfold _uniform_personalization in Hga, Hgb.
    rewrite (same_product_ids Hsolver) in Hga. rewrite Hga in Hgb.
    injection Hgb as ->. reflexivity.
Qed.

(** ** The reference dataset *)

Example reference_cooccurrence :
  product_cooccurrence (build_graph load_dataset)
  = [("P1", [("P2", 1)]); ("P2", [("P1", 1); ("P4", 1)]); ("P4", [("P2", 1)])].
Proof. reflexivity. Qed.

Example reference_adjacency :
  product_adjacency (build_graph load_dataset)
  = [("P1", [("P2", 1)]); ("P2", [("P1", 1 # 2); ("P4", 1 # 2)]); ("P3", []);
     ("P4", [("P2", 1)])]%Q.
Proof. reflexivity. Qed.

Example reference_customer_products :
  customer_products (build_graph load_dataset)
  = [("C1", ["P1"; "P2"; "P4"; "P3"]); ("C2", ["P3"; "P2"; "P4"]); ("C3", ["P1"])].
Proof. reflexivity. Qed.

Example reference_product_customers :
  product_customers (build_graph load_dataset)
  = [("P1", ["C1"; "C3"]); ("P2", ["C1"; "C2"]); ("P3", ["C2"; "C1"]);
     ("P4", ["C1"; "C2"])].
Proof. reflexivity. Qed.

Example reference_event_weights :
  event_weights (build_graph load_dataset)
  = [(("C1", "P3"), 3 # 2); (("C3", "P1"), 1 # 2); (("C2", "P2"), 1 # 2);
     (("C2", "P4"), 2)]%Q.
Proof. reflexivity. Qed.

Example reference_recommendations_C2 :
  recommended_ids
    (eng <- default_engine (build_graph load_dataset) ;;
     recommend_for_customer eng "C2" 3) = ["P1"].
Proof. vm_compute. reflexivity. Qed.

Example reference_recommendations_C3 :
  recommended_ids
    (eng <- default_engine (build_graph load_dataset) ;;
     recommend_for_customer eng "C3" 3) = ["P2"; "P4"; "P3"].
Proof. vm_compute. reflexivity. Qed.

Example reference_breakdown_C3 :
  breakdown_ids
    (eng <- default_engine (build_graph load_dataset) ;;
     strategy_breakdown eng "C3" 3)
  = [("co_occurrence", ["P2"]); ("similarity", ["P2"; "P3"; "P4"]);
     ("personalized_pagerank", ["P2"; "P4"; "P3"])].
Proof. vm_compute. reflexivity. Qed.

Example reference_unknown_customer :
  (eng <- default_engine (build_graph load_dataset) ;;
   recommend_for_customer eng "C999" 3)
  = Raise (ValueError "Unknown customer: C999").
Proof. vm_compute. reflexivity. Qed.

(** ** The products and the contributions of the fusion table *)

Lemma fuse_strategy_keys (exclude : pyset string) (name : string) (weight : Q)
  (combined : dict string (dict string Q)) (pv : string * Q) (p : string) :
  In p (dict_keys (fuse_strategy exclude name weight combined pv))
  <-> In p (dict_keys combined)
      \/ (p = fst pv /\ ~ In p exclude /\ (0 < snd pv)%Q).
Proof.
  unfold fuse_strategy.
  destruct (set_mem (fst pv) exclude) eqn:Hex; simpl.
  - apply set_mem_true in Hex. split; [auto|].
    intros [H|(-> & Hn & _)]; [assumption | contradiction].
  - apply set_mem_false in Hex.
    destruct (fleb (snd pv) 0%Q) eqn:Hpos.
    + apply fleb_le in Hpos. split; [auto|].
      intros [H|(_ & _ & Hlt)]; [assumption|].
      exfalso. apply (Qlt_not_le _ _ Hlt). assumption.
    + apply fleb_gt in Hpos. rewrite dict_keys_set_In. split.
      * intros [->|H]; [right | left]; auto.
      * intros [H|(-> & _ & _)]; [right | left]; auto.
Qed.

Lemma fuse_keys (exclude : pyset string) (combined : dict string (dict string Q))
  (strategy : string * dict string Q) (p : string) :
  In p (dict_keys (fuse exclude combined strategy))
  <-> In p (dict_keys combined)
      \/ (~ (dict_get_default STRATEGY_WEIGHTS (fst strategy) 0 == 0)%Q
          /\ ~ In p exclude
          /\ exists v, In (p, v) (snd strategy) /\ (0 < v)%Q).
Proof.
  unfold fuse.
  destruct (feqb (dict_get_default STRATEGY_WEIGHTS (fst strategy) 0%Q) 0%Q) eqn:Hzero.
  - apply feqb_eq in Hzero. split; [auto|].
    intros [H|(Hn & _)]; [assumption | contradiction].
  - apply feqb_neq in Hzero.
    rewrite (fold_left_grows
               (fuse_strategy exclude (fst strategy)
                  (dict_get_default STRATEGY_WEIGHTS (fst strategy) 0%Q))
               (fun s => In p (dict_keys s))
               (fun pv => p = fst pv /\ ~ In p exclude /\ (0 < snd pv)%Q)).
    + split.
      * intros [H|([q v] & Hin & Heq & Hex & Hpos)]; [auto|]. simpl in *. subst q.
        right. split; [assumption|]. split; [assumption|]. exists v. auto.
      * intros [H|(_ & Hex & v & Hin & Hpos)]; [auto|].
        right. exists (p, v). simpl. auto.
    + intros s x. apply fuse_strategy_keys.
Qed.

(** The keys of the fusion table are the fused candidates. *)
Lemma fusion_keys (strategies : dict string (dict string Q)) (exclude : pyset string)
  (p : string) :
  In p (dict_keys (fold_left (fuse exclude) strategies []))
  <-> fused_candidate strategies exclude p.
Proof.
  rewrite (fold_left_grows (fuse exclude) (fun s => In p (dict_keys s))
             (fun strategy =>
                ~ (dict_get_default STRATEGY_WEIGHTS (fst strategy) 0 == 0)%Q
                /\ ~ In p exclude
                /\ exists v, In (p, v) (snd strategy) /\ (0 < v)%Q)).
  - unfold fused_candidate, strategy_votes. split.
    + intros [[]|([name scores] & Hin & Hw & Hex & v & Hv & Hpos)]. simpl in *.
      split; [assumption|]. exists name, v, scores. auto.
    + intros (Hex & name & v & scores & Hin & Hw & Hv & Hpos).
      right. exists (name, scores). simpl. split; [assumption|].
      split; [assumption|]. split; [assumption|]. exists v. auto.
  - intros s x. apply fuse_keys.
Qed.

Lemma combine_strategies_ids (strategies : dict string (dict string Q))
  (exclude : pyset string) (p : string) :
  In p (map product_id (_combine_strategies strategies exclude))
  <-> fused_candidate strategies exclude p.
Proof.
  rewrite <- fusion_keys. unfold _combine_strategies.
  rewrite <- make_recommendation_ids. split; intros Hin.
  - apply in_map_iff in Hin. destruct Hin as (r & <- & Hr).
    apply list_sort_In in Hr. apply in_map. assumption.
  - apply in_map_iff in Hin. destruct Hin as (r & <- & Hr).
    apply in_map. apply list_sort_In. assumption.
Qed.

(** Every contribution of the fusion table is the weighted vote of the
    strategy it is named after. *)
Lemma fuse_strategy_provenance (strategies : dict string (dict string Q))
  (exclude : pyset string) (name : string) (scores : dict string Q)
  (combined : dict string (dict string Q)) (pv : string * Q) :
  In (name, scores) strategies ->
  ~ (dict_get_default STRATEGY_WEIGHTS name 0 == 0)%Q ->
  In pv scores ->
  Forall (fun pc => Forall (contribution_from strategies (fst pc)) (snd pc)) combined ->
  Forall (fun pc => Forall (contribution_from strategies (fst pc)) (snd pc))
    (fuse_strategy exclude name (dict_get_default STRATEGY_WEIGHTS name 0%Q) combined pv).
Proof.
  intros Hname Hw Hpv Hall. unfold fuse_strategy.
  destruct (set_mem (fst pv) exclude); simpl; [assumption|].
  destruct (fleb (snd pv) 0%Q) eqn:Hpos; [assumption|]. apply fleb_gt in Hpos.
  apply Forall_dict_set; [assumption|]. simpl.
  apply Forall_dict_set.
  - unfold dict_get_default.
    destruct (dict_get combined (fst pv)) as [old|] eqn:Hget; [|constructor].
    apply dict_get_In in Hget. rewrite Forall_forall in Hall.
    apply (Hall _ Hget).
  - exists (snd pv). simpl. split; [|reflexivity].
    exists scores. destruct pv as [p v]. simpl in *. auto.
Qed.

Lemma fusion_provenance (strategies : dict string (dict string Q))
  (exclude : pyset string) :
  Forall (fun pc => Forall (contribution_from strategies (fst pc)) (snd pc))
    (fold_left (fuse exclude) strategies []).
Proof.
  apply fold_left_ind; [constructor|].
  intros [name scores] s Hin Hs. unfold fuse. simpl.
  destruct (feqb (dict_get_default STRATEGY_WEIGHTS name 0%Q) 0%Q) eqn:Hzero;
    [assumption|].
  apply feqb_neq in Hzero.
  apply fold_left_ind; [assumption|].
  intros pv s' Hpv Hs'. apply (@fuse_strategy_provenance strategies exclude name scores); assumption.
Qed.

Lemma combine_strategies_provenance (strategies : dict string (dict string Q))
  (exclude : pyset string) (r : Recommendation) (nc : string * Q) :
  In r (_combine_strategies strategies exclude) ->
  In nc (contributions r) ->
  contribution_from strategies (product_id r) nc.
Proof.
  unfold _combine_strategies. rewrite list_sort_In. intros Hin Hnc.
  apply in_map_iff in Hin. destruct Hin as (pc & <- & Hpc).
  pose proof (fusion_provenance strategies exclude) as Hall.
  rewrite Forall_forall in Hall. specialize (Hall _ Hpc).
  rewrite Forall_forall in Hall. apply Hall. assumption.
Qed.

Lemma slice_to_exact_length {A : Type} (l : list A) (n : Z) :
  0 <= n -> List.length (slice_to l n) = Nat.min (Z.to_nat n) (List.length l).
Proof.
  intros Hn. unfold slice_to. destruct (n <? 0) eqn:Hneg; [lia|]. apply length_firstn.
Qed.

Lemma global_ranking_ids (self : RecommendationEngine) (p : string) :
  In p (map product_id (global_ranking self)) <-> In p (dict_keys (_global_pagerank self)).
Proof.
  unfold global_ranking. rewrite map_map.
  change (fun x : string * Q => product_id (global_recommendation x)) with (@fst string Q).
  rewrite filter_all by (intros x _; reflexivity). unfold dict_keys.
  split; intros Hin; apply in_map_iff in Hin; destruct Hin as (item & <- & Hitem);
    apply in_map; [apply list_sort_In in Hitem | apply list_sort_In]; assumption.
Qed.

Lemma strategy_weight_positive (name : string) :
  ~ (dict_get_default STRATEGY_WEIGHTS name 0 == 0)%Q ->
  (0 < dict_get_default STRATEGY_WEIGHTS name 0)%Q.
Proof.
  intros Hne. pose proof (strategy_weight_nonneg name) as Hge.
  apply Qle_lt_or_eq in Hge. destruct Hge as [Hlt|Heq]; [assumption|].
  exfalso. apply Hne. symmetry. assumption.
Qed.

Lemma contribution_from_nonneg (strategies : dict string (dict string Q))
  (p : string) (nc : string * Q) :
  contribution_from strategies p nc ->
  (0 < dict_get_default STRATEGY_WEIGHTS (fst nc) 0)%Q /\ (0 <= snd nc)%Q.
Proof.
  intros (v & (scores & _ & Hw & _ & Hv) & ->).
  apply strategy_weight_positive in Hw. split; [assumption|].
  rewrite fmul_correct. apply Qmult_le_0_compat; apply Qlt_le_weak; assumption.
Qed.

(** ** The cold-start ranking as a whole *)

Lemma slice_to_prefix {A : Type} (l : list A) (n : Z) :
  exists rest, l = slice_to l n ++ rest.
Proof.
  unfold slice_to. destruct (n <? 0); eexists; symmetry; apply firstn_skipn.
Qed.

Lemma global_ranking_items (self : RecommendationEngine) :
  Permutation (map (fun r => (product_id r, score r)) (global_ranking self))
    (_global_pagerank self).
Proof.
  unfold global_ranking. rewrite map_map.
  rewrite (map_ext _ (fun item : string * Q => item)) by (intros [pid s]; reflexivity).
  rewrite map_id. rewrite filter_all by (intros x _; reflexivity).
  apply list_sort_perm.
Qed.

(** ** The reference dataset in binary64 *)

Lemma reference_ranks_checked :
  forallb reference_ranks_ok (sublists (product_ids load_dataset)) = true.
Proof. vm_compute. reflexivity. Qed.

(** * Claims *)

(** C1. For every customer of the dataset, the list returned by
    [recommend_for_customer] contains no product of the customer's
    purchased set or interacted set; in particular it contains no seed. *)
Theorem recommendations_exclude_known_products
  (ds : Dataset) (d tol : Q) (iters : Z) (cid : string) (top_n : Z) :
  dict_mem (customers ds) cid = true ->
  exists eng out,
    new_engine (build_graph ds) d tol iters = Ok eng
    /\ recommend_for_customer eng cid top_n = Ok out
    /\ forall r, In r out ->
         ~ In (product_id r) (purchased_of eng cid)
         /\ ~ In (product_id r) (_interacted_products eng cid)
         /\ ~ In (product_id r) (customer_seeds eng cid).
Proof.
  intros Hmem.
  destruct (new_engine_ok ds d tol iters) as (eng & Hnew & Hok & Hgraph & _).
  destruct (recommend_ranking cid Hok (built_engine_customer eng cid Hgraph Hmem))
    as (full & Hrec & Hfull).
  exists eng, (slice_to full top_n). split; [assumption|]. split; [apply Hrec|].
  intros r Hr. apply slice_to_In in Hr.
  pose proof (ranking_excludes Hfull r Hr) as Hex.
  assert (Hseed : ~ In (product_id r) (customer_seeds eng cid))
    by (intros Hin; apply Hex; apply seeds_subset_exclusion; assumption).
  unfold exclusion_set in Hex. rewrite set_union_In in Hex. tauto.
Qed.

Lemma recommendations_exclude_known_products_witness :
  dict_mem (customers load_dataset) "C3" = true
  /\ exists eng out,
       new_engine (build_graph load_dataset) default_damping default_tolerance
         default_max_iterations = Ok eng
       /\ recommend_for_customer eng "C3" 3 = Ok out
       /\ forall r, In r out ->
            ~ In (product_id r) (purchased_of eng "C3")
            /\ ~ In (product_id r) (_interacted_products eng "C3")
            /\ ~ In (product_id r) (customer_seeds eng "C3").
Proof.
  split; [reflexivity|].
  apply recommendations_exclude_known_products. reflexivity.
Defined.

(** C2. Both operations raise the unknown-customer error exactly when the
    customer identifier is absent from the dataset's customers. *)
Theorem unknown_customer_raises_iff
  (self : RecommendationEngine) (cid : string) (top_n : Z) :
  (dict_mem (customers (dataset (graph self))) cid = false
   /\ recommend_for_customer self cid top_n = Raise (unknown_customer cid)
   /\ strategy_breakdown self cid top_n = Raise (unknown_customer cid))
  \/ (dict_mem (customers (dataset (graph self))) cid = true
      /\ (forall msg, recommend_for_customer self cid top_n <> Raise (ValueError msg))
      /\ (forall msg, strategy_breakdown self cid top_n <> Raise (ValueError msg))).
Proof.
  destruct (dict_mem (customers (dataset (graph self))) cid) eqn:Hmem.
  - right. split; [reflexivity|].
    split; intros msg; apply no_value_error_neq.
    + unfold recommend_for_customer. rewrite ensure_known_customer_true by assumption.
      simpl. case_if; [exact I|].
      apply no_value_error_bind; [apply personalized_pagerank_no_value_error|].
      intros ppr. exact I.
    + unfold strategy_breakdown. rewrite ensure_known_customer_true by assumption.
      simpl. case_if; [exact I|].
      apply no_value_error_bind; [apply personalized_pagerank_no_value_error|].
      intros ppr. exact I.
  - left. split; [reflexivity|].
    unfold recommend_for_customer, strategy_breakdown, _ensure_known_customer.
    rewrite Hmem. simpl. auto.
Qed.

(** For a known customer of a built dataset both operations return. *)
Lemma known_customer_returns
  (ds : Dataset) (d tol : Q) (iters : Z) (cid : string) (top_n : Z) :
  dict_mem (customers ds) cid = true ->
  exists eng out breakdown,
    new_engine (build_graph ds) d tol iters = Ok eng
    /\ recommend_for_customer eng cid top_n = Ok out
    /\ strategy_breakdown eng cid top_n = Ok breakdown.
Proof.
  intros Hmem.
  destruct (new_engine_ok ds d tol iters) as (eng & Hnew & Hok & Hgraph & _).
  pose proof (built_engine_customer eng cid Hgraph Hmem) as Hknown.
  destruct (recommend_ranking cid Hok Hknown) as (full & Hrec & _).
  exists eng, (slice_to full top_n).
  destruct (engine_personalized_pagerank Hok (customer_seeds eng cid)) as (ppr & Hppr & _).
  unfold strategy_breakdown. rewrite ensure_known_customer_true by assumption. simpl.
  fold (customer_seeds eng cid). destruct (negb (nonempty (customer_seeds eng cid))).
  - eexists. auto.
  - rewrite Hppr. simpl. eexists. auto.
Qed.



(** C9. For a non-negative [top_n] the returned list is the first [top_n]
    entries of a ranking that does not depend on [top_n] and holds each
    product once. On the fused path the products of that ranking are
    exactly the products outside the exclusion set to which a strategy of
    nonzero weight gives a normalised score above zero; on the cold-start
    path they are all the products of the graph. The returned list has
    [top_n] entries or the whole ranking, so it is shorter than [top_n] only
    when fewer than [top_n] products are in the ranking. *)
Theorem top_n_bound
  (ds : Dataset) (d tol : Q) (iters : Z) (cid : string) (top_n : Z) :
  dict_mem (customers ds) cid = true ->
  0 <= top_n ->
  exists eng out full,
    new_engine (build_graph ds) d tol iters = Ok eng
    /\ recommend_for_customer eng cid top_n = Ok out
    /\ Z.of_nat (List.length out) <= top_n
    /\ (forall n, recommend_for_customer eng cid n = Ok (slice_to full n))
    /\ NoDup (map product_id full)
    /\ (customer_seeds eng cid = [] ->
        forall p, In p (map product_id full)
                  <-> In p (dict_keys (product_adjacency (build_graph ds))))
    /\ (customer_seeds eng cid <> [] ->
        exists ppr,
          _personalized_pagerank eng (customer_seeds eng cid) = Ok ppr
          /\ full = _combine_strategies (fused_strategies eng (customer_seeds eng cid) ppr)
                      (exclusion_set eng cid)
          /\ forall p, In p (map product_id full)
                       <-> fused_candidate
                             (fused_strategies eng (customer_seeds eng cid) ppr)
                             (exclusion_set eng cid) p)
    /\ List.length out = Nat.min (Z.to_nat top_n) (List.length full)
    /\ (Z.of_nat (List.length out) < top_n ->
        out = full /\ Z.of_nat (List.length full) < top_n).
Proof.
  intros Hmem Hn.
  destruct (new_engine_ok ds d tol iters) as (eng & Hnew & Hok & Hgraph & _).
  assert (Hshort : forall full : list Recommendation,
             Z.of_nat (List.length (slice_to full top_n)) < top_n ->
             slice_to full top_n = full /\ Z.of_nat (List.length full) < top_n).
  { intros full Hlt. pose proof (slice_to_short full Hn Hlt) as Hall.
    rewrite Hall in *. auto. }
  destruct (recommend_known_customer cid Hok (built_engine_customer eng cid Hgraph Hmem))
    as [[Hseeds Hrec]|[Hseeds (ppr & Hppr & Hrec)]].
  - exists eng, (slice_to (global_ranking eng) top_n), (global_ranking eng).
    split; [assumption|]. split; [apply Hrec|].
    split; [apply slice_to_length; assumption|]. split; [exact Hrec|].
    split; [apply global_ranking_NoDup; assumption|]. split.
    { intros _ p. rewrite global_ranking_ids.
      rewrite (engine_global_keys Hok), (eng_product_ids Hok), Hgraph. reflexivity. }
    split; [intros Hne; contradiction|].
    split; [apply slice_to_exact_length; assumption | apply Hshort].
  - exists eng. eexists. eexists.
    split; [assumption|]. split; [apply Hrec|].
    split; [apply slice_to_length; assumption|]. split; [exact Hrec|].
    split; [apply combine_strategies_NoDup|].
    split; [intros Hnil; contradiction|]. split.
    { intros _. exists ppr. split; [assumption|]. split; [reflexivity|].
      intros p. apply combine_strategies_ids. }
    split; [apply slice_to_exact_length; assumption | apply Hshort].
Qed.

Lemma top_n_bound_witness :
  dict_mem (customers load_dataset) "C3" = true
  /\ 0 <= 5
  /\ exists eng out full,
       new_engine (build_graph load_dataset) default_damping default_tolerance
         default_max_iterations = Ok eng
       /\ recommend_for_customer eng "C3" 5 = Ok out
       /\ Z.of_nat (List.length out) <= 5
       /\ (forall n, recommend_for_customer eng "C3" n = Ok (slice_to full n))
       /\ NoDup (map product_id full)
       /\ (customer_seeds eng "C3" = [] ->
           forall p, In p (map product_id full)
                     <-> In p (dict_keys (product_adjacency (build_graph load_dataset))))
       /\ (customer_seeds eng "C3" <> [] ->
           exists ppr,
             _personalized_pagerank eng (customer_seeds eng "C3") = Ok ppr
             /\ full = _combine_strategies
                         (fused_strategies eng (customer_seeds eng "C3") ppr)
                         (exclusion_set eng "C3")
             /\ forall p, In p (map product_id full)
                          <-> fused_candidate
                                (fused_strategies eng (customer_seeds eng "C3") ppr)
                                (exclusion_set eng "C3") p)
       /\ List.length out = Nat.min (Z.to_nat 5) (List.length full)
       /\ (Z.of_nat (List.length out) < 5 ->
           out = full /\ Z.of_nat (List.length full) < 5).
Proof.
  split; [reflexivity|]. split; [lia|].
  apply top_n_bound; [reflexivity | lia].
Defined.

(** C10, as stated, fails without a bound on the damping factor: with
    damping 2 and one iteration on the reference graph, every rank starts
    at 1/4, the base share is (1 - 2) * 1/4 = -1/4, the sink ["P3"] leaks
    2 * (1/4) / 4 = 1/8 to every product and receives nothing else, so the
    customer without orders and events is offered ["P3"] with the
    contribution -1/4 + 1/8 = -1/8. *)
Lemma damping_two_gives_negative_contribution :
  exists eng out,
    dict_mem (customers dataset_with_newcomer) "C4" = true
    /\ new_engine (build_graph dataset_with_newcomer) 2%Q default_tolerance 1 = Ok eng
    /\ recommend_for_customer eng "C4" 4 = Ok out
    /\ out = [ {| product_id := "P2"; score := (7 # 8)%Q;
                  contributions := [("global_pagerank", (7 # 8)%Q)] |};
               {| product_id := "P1"; score := (1 # 8)%Q;
                  contributions := [("global_pagerank", (1 # 8)%Q)] |};
               {| product_id := "P4"; score := (1 # 8)%Q;
                  contributions := [("global_pagerank", (1 # 8)%Q)] |};
               {| product_id := "P3"; score := (- 1 # 8)%Q;
                  contributions := [("global_pagerank", (- 1 # 8)%Q)] |} ]
    /\ ~ (forall r, In r out -> Forall (fun nv => (0 < snd nv)%Q) (contributions r)).
Proof.
  eexists. eexists. split; [reflexivity|].
  split; [vm_compute; reflexivity|]. split; [vm_compute; reflexivity|].
  split; [reflexivity|].
  intros Hall.
  specialize (Hall _ (or_intror (or_intror (or_intror (or_introl eq_refl))))).
  inversion Hall as [|? ? Hneg _]. simpl in Hneg. discriminate Hneg.
Qed.

(** C10, amended. With a damping factor in [[0, 1)], every returned
    recommendation has a score equal to the sum of its contributions. On
    the cold-start
    path the single contribution is the product's global rank, which is
    strictly positive. On the fused path every contribution is the product
    of a normalised strategy score strictly above zero and the positive
    weight of the strategy it is named after, hence not negative. *)
Theorem score_is_sum_of_contributions
  (ds : Dataset) (d tol : Q) (iters : Z) (cid : string) (top_n : Z) :
  dict_mem (customers ds) cid = true ->
  (0 <= d < 1)%Q ->
  exists eng out,
    new_engine (build_graph ds) d tol iters = Ok eng
    /\ recommend_for_customer eng cid top_n = Ok out
    /\ (forall r, In r out ->
          (score r == fsum (dict_values (contributions r)))%Q
          /\ contributions r <> [])
    /\ (customer_seeds eng cid = [] ->
        forall r, In r out ->
          contributions r = [("global_pagerank", score r)] /\ (0 < score r)%Q)
    /\ (customer_seeds eng cid <> [] ->
        exists ppr,
          _personalized_pagerank eng (customer_seeds eng cid) = Ok ppr
          /\ forall r nc, In r out -> In nc (contributions r) ->
               contribution_from (fused_strategies eng (customer_seeds eng cid) ppr)
                 (product_id r) nc
               /\ (0 < dict_get_default STRATEGY_WEIGHTS (fst nc) 0)%Q
               /\ (0 <= snd nc)%Q).
Proof.
  intros Hmem Hd.
  destruct (new_engine_ok ds d tol iters) as (eng & Hnew & Hok & Hgraph & Hdamp & _).
  destruct (recommend_known_customer cid Hok (built_engine_customer eng cid Hgraph Hmem))
    as [[Hseeds Hrec]|[Hseeds (ppr & Hppr & Hrec)]].
  - exists eng, (slice_to (global_ranking eng) top_n).
    split; [assumption|]. split; [apply Hrec|]. split; [|split].
    + intros r Hr. apply slice_to_In, global_ranking_In in Hr.
      destruct Hr as (item & _ & ->). simpl. split; [|discriminate].
      rewrite fsum_correct. simpl. ring.
    + intros _ r Hr. apply slice_to_In, global_ranking_In in Hr.
      destruct Hr as (item & Hitem & ->). simpl. split; [reflexivity|].
      apply (global_pagerank_positive Hok); [rewrite Hdamp|]; assumption.
    + intros Hne. contradiction.
  - exists eng. eexists.
    split; [assumption|]. split; [apply Hrec|]. split; [|split].
    + intros r Hr. apply slice_to_In, combine_strategies_In in Hr.
      destruct Hr as (_ & -> & Hne & _). split; [reflexivity | assumption].
    + intros Hnil. contradiction.
    + intros _. exists ppr. split; [assumption|].
      intros r nc Hr Hnc. apply slice_to_In in Hr.
      pose proof (combine_strategies_provenance _ _ _ _ Hr Hnc) as Hfrom.
      split; [assumption|]. apply (contribution_from_nonneg Hfrom).
Qed.

Lemma score_is_sum_of_contributions_witness :
  dict_mem (customers load_dataset) "C3" = true
  /\ (0 <= default_damping < 1)%Q
  /\ exists eng out,
       new_engine (build_graph load_dataset) default_damping default_tolerance
         default_max_iterations = Ok eng
       /\ recommend_for_customer eng "C3" 3 = Ok out
       /\ (forall r, In r out ->
             (score r == fsum (dict_values (contributions r)))%Q
             /\ contributions r <> [])
       /\ (customer_seeds eng "C3" = [] ->
           forall r, In r out ->
             contributions r = [("global_pagerank", score r)] /\ (0 < score r)%Q)
       /\ (customer_seeds eng "C3" <> [] ->
           exists ppr,
             _personalized_pagerank eng (customer_seeds eng "C3") = Ok ppr
             /\ forall r nc, In r out -> In nc (contributions r) ->
                  contribution_from (fused_strategies eng (customer_seeds eng "C3") ppr)
                    (product_id r) nc
                  /\ (0 < dict_get_default STRATEGY_WEIGHTS (fst nc) 0)%Q
                  /\ (0 <= snd nc)%Q).
Proof.
  assert (Hd : (0 <= default_damping < 1)%Q) by (unfold default_damping; lra).
  split; [reflexivity|]. split; [exact Hd|].
  apply score_is_sum_of_contributions; [reflexivity | exact Hd].
Defined.





(** C5, as stated, fails: on the reference dataset the default engine
    returns the empty list for customer ["C1"], so ["P3"] is not in it. *)
Lemma reference_C1_output_lacks_P3 :
  (eng <- default_engine (build_graph load_dataset) ;;
   recommend_for_customer eng "C1" 3) = Ok []
  /\ ~ (exists eng out r,
          default_engine (build_graph load_dataset) = Ok eng
          /\ recommend_for_customer eng "C1" 3 = Ok out
          /\ In r out /\ product_id r = "P3").
Proof.
  assert (Hrun : (eng <- default_engine (build_graph load_dataset) ;;
                  recommend_for_customer eng "C1" 3) = Ok [])
    by (vm_compute; reflexivity).
  split; [exact Hrun|].
  intros (eng & out & r & Heng & Hrec & Hin & _).
  rewrite Heng in Hrun. simpl in Hrun. rewrite Hrec in Hrun.
  injection Hrun as ->. exact Hin.
Qed.

(** C5, amended. On the reference dataset customer ["C1"] has accumulated
    event weight 3/2 on ["P3"]; ["P3"] is in the interacted set, hence in
    the exclusion set applied at fusion, and no list returned for ["C1"]
    contains it, whatever [top_n]. *)
Theorem reference_C1_excludes_P3 (top_n : Z) :
  exists eng out,
    default_engine (build_graph load_dataset) = Ok eng
    /\ dict_get (event_weights (graph eng)) ("C1", "P3") = Some (3 # 2)%Q
    /\ In "P3" (_interacted_products eng "C1")
    /\ In "P3" (exclusion_set eng "C1")
    /\ recommend_for_customer eng "C1" top_n = Ok out
    /\ forall r, In r out -> product_id r <> "P3".
Proof.
  unfold default_engine.
  destruct (new_engine_ok load_dataset default_damping default_tolerance
              default_max_iterations) as (eng & Hnew & Hok & Hgraph & _).
  assert (Hmem : dict_mem (customers (dataset (graph eng))) "C1" = true)
    by (rewrite Hgraph; reflexivity).
  destruct (recommend_ranking "C1" Hok Hmem) as (full & Hrec & Hfull).
  assert (Hint : In "P3" (_interacted_products eng "C1")).
  { unfold _interacted_products. rewrite Hgraph. vm_compute. left. reflexivity. }
  assert (Hex : In "P3" (exclusion_set eng "C1")).
  { unfold exclusion_set. apply set_union_In. right. assumption. }
  exists eng, (slice_to full top_n). split; [assumption|].
  split; [rewrite Hgraph; reflexivity|].
  split; [assumption|]. split; [assumption|]. split; [apply Hrec|].
  intros r Hr Hid. apply slice_to_In in Hr.
  apply (ranking_excludes Hfull r Hr). rewrite Hid. assumption.
Qed.

(** C6, as stated, fails: on the reference dataset, an event of the unknown
    type ["wishlist"] by customer ["C3"] on product ["P2"] makes ["P2"] a
    seed of ["C3"], and both results for ["C3"] change. *)
Lemma unknown_event_changes_results :
  dict_mem EVENT_WEIGHTS (event_type wishlist_event) = false
  /\ recommended_ids
       (eng <- default_engine (build_graph load_dataset) ;;
        recommend_for_customer eng "C3" 3) = ["P2"; "P4"; "P3"]
  /\ recommended_ids
       (eng <- default_engine (build_graph (add_event load_dataset wishlist_event)) ;;
        recommend_for_customer eng "C3" 3) = ["P4"; "P3"]
  /\ breakdown_ids
       (eng <- default_engine (build_graph (add_event load_dataset wishlist_event)) ;;
        strategy_breakdown eng "C3" 3)
     = [("co_occurrence", ["P4"]); ("similarity", ["P3"; "P4"]);
        ("personalized_pagerank", ["P4"; "P3"])]
  /\ (eng <- default_engine (build_graph (add_event load_dataset wishlist_event)) ;;
      recommend_for_customer eng "C3" 3)
     <> (eng <- default_engine (build_graph load_dataset) ;;
         recommend_for_customer eng "C3" 3)
  /\ (eng <- default_engine (build_graph (add_event load_dataset wishlist_event)) ;;
      strategy_breakdown eng "C3" 3)
     <> (eng <- default_engine (build_graph load_dataset) ;;
         strategy_breakdown eng "C3" 3).
Proof.
  assert (Hbefore : recommended_ids
                      (eng <- default_engine (build_graph load_dataset) ;;
                       recommend_for_customer eng "C3" 3) = ["P2"; "P4"; "P3"])
    by exact reference_recommendations_C3.
  assert (Hafter : recommended_ids
                     (eng <- default_engine
                               (build_graph (add_event load_dataset wishlist_event)) ;;
                      recommend_for_customer eng "C3" 3) = ["P4"; "P3"])
    by (vm_compute; reflexivity).
  assert (Hbreak : breakdown_ids
                     (eng <- default_engine
                               (build_graph (add_event load_dataset wishlist_event)) ;;
                      strategy_breakdown eng "C3" 3)
                   = [("co_occurrence", ["P4"]); ("similarity", ["P3"; "P4"]);
                      ("personalized_pagerank", ["P4"; "P3"])])
    by (vm_compute; reflexivity).
  split; [reflexivity|].
  split; [exact Hbefore|]. split; [exact Hafter|]. split; [exact Hbreak|].
  split; intros Heq.
  - apply (f_equal recommended_ids) in Heq. rewrite Hbefore, Hafter in Heq.
    discriminate Heq.
  - apply (f_equal breakdown_ids) in Heq.
    rewrite Hbreak, reference_breakdown_C3 in Heq. discriminate Heq.
Qed.

(** C6, amended. An event whose type is not view/click/add_to_cart has
    weight 0: appended to a dataset it leaves the co-occurrence counts, the
    adjacency, every accumulated event weight and every customer's
    interacted set unchanged; it still records incidence, and when its
    customer-product pair is already incident it changes neither the result
    of [recommend_for_customer] nor of [strategy_breakdown] for any
    customer. *)
Theorem unknown_event_type_adds_no_weight (ds : Dataset) (e : Event) :
  dict_mem EVENT_WEIGHTS (event_type e) = false ->
  dict_get_default EVENT_WEIGHTS (event_type e) 0%Q = 0%Q
  /\ product_cooccurrence (build_graph (add_event ds e))
     = product_cooccurrence (build_graph ds)
  /\ product_adjacency (build_graph (add_event ds e))
     = product_adjacency (build_graph ds)
  /\ (forall key,
        (dict_get_default (event_weights (build_graph (add_event ds e))) key 0
         == dict_get_default (event_weights (build_graph ds)) key 0)%Q)
  /\ (forall a b cid,
        graph a = build_graph (add_event ds e) -> graph b = build_graph ds ->
        _interacted_products a cid = _interacted_products b cid)
  /\ (In (event_product_id e)
        (dict_get_default (customer_products (build_graph ds)) (event_customer_id e) []) ->
      forall d tol iters cid top_n,
        (eng <- new_engine (build_graph (add_event ds e)) d tol iters ;;
         recommend_for_customer eng cid top_n)
        = (eng <- new_engine (build_graph ds) d tol iters ;;
           recommend_for_customer eng cid top_n)
        /\ (eng <- new_engine (build_graph (add_event ds e)) d tol iters ;;
            strategy_breakdown eng cid top_n)
           = (eng <- new_engine (build_graph ds) d tol iters ;;
              strategy_breakdown eng cid top_n)).
Proof.
  intros Htype.
  split; [apply unknown_type_weight; assumption|].
  split; [apply add_event_cooccurrence|].
  split; [apply add_event_adjacency|].
  split; [|split].
  - intros key. rewrite add_event_weights, (unknown_type_weight _ Htype).
    rewrite dict_get_default_set. destruct (eq_dec key _) as [->|Hne]; [|reflexivity].
    rewrite fadd_correct. ring.
  - intros a b cid Ha Hb. eapply add_event_interacted; eassumption.
  - intros Hin d tol iters cid top_n. apply add_event_same_results; assumption.
Qed.

Lemma unknown_event_type_adds_no_weight_witness :
  dict_mem EVENT_WEIGHTS (event_type repeated_event) = false
  /\ In (event_product_id repeated_event)
       (dict_get_default (customer_products (build_graph load_dataset))
          (event_customer_id repeated_event) [])
  /\ forall cid top_n,
       (eng <- default_engine (build_graph (add_event load_dataset repeated_event)) ;;
        recommend_for_customer eng cid top_n)
       = (eng <- default_engine (build_graph load_dataset) ;;
          recommend_for_customer eng cid top_n)
       /\ (eng <- default_engine (build_graph (add_event load_dataset repeated_event)) ;;
           strategy_breakdown eng cid top_n)
          = (eng <- default_engine (build_graph load_dataset) ;;
             strategy_breakdown eng cid top_n).
Proof.
  assert (Htype : dict_mem EVENT_WEIGHTS (event_type repeated_event) = false)
    by reflexivity.
  assert (Hin : In (event_product_id repeated_event)
                  (dict_get_default (customer_products (build_graph load_dataset))
                     (event_customer_id repeated_event) []))
    by (vm_compute; auto).
  split; [exact Htype|]. split; [exact Hin|].
  intros cid top_n.
  exact (proj2 (proj2 (proj2 (proj2 (proj2
           (unknown_event_type_adds_no_weight load_dataset repeated_event Htype)))))
           Hin default_damping default_tolerance default_max_iterations cid top_n).
Defined.

(** * Further properties *)

(** ** Co-occurrence counts *)

Lemma cooccurrence_count_incr (cooc : dict string (dict string Z)) (l r a b : string) :
  cooccurrence_count (cooccurrence_incr cooc l r) a b
  = cooccurrence_count cooc a b
    + (if eq_dec a l then if eq_dec b r then 1 else 0 else 0).
Proof.
  unfold cooccurrence_count, cooccurrence_incr, counter_incr.
  rewrite dict_get_default_set. destruct (eq_dec a l) as [->|Ha]; [|lia].
  rewrite dict_get_default_set. destruct (eq_dec b r) as [->|Hb]; lia.
Qed.

Lemma record_pair_count (st : Accumulators) (lr : string * string) (a b : string) :
  cooccurrence_count (acc_cooccurrence (record_pair st lr)) a b
  = cooccurrence_count (acc_cooccurrence st) a b
    + (if eq_dec a (fst lr) then if eq_dec b (snd lr) then 1 else 0 else 0)
    + (if eq_dec a (snd lr) then if eq_dec b (fst lr) then 1 else 0 else 0).
Proof. simpl. rewrite !cooccurrence_count_incr. reflexivity. Qed.

Lemma accumulate_counts_symmetric (ds : Dataset) (a b : string) :
  cooccurrence_count (acc_cooccurrence (accumulate ds)) a b
  = cooccurrence_count (acc_cooccurrence (accumulate ds)) b a.
Proof.
  revert a b. unfold accumulate.
  apply (fold_left_ind process_event
           (fun st => forall a b,
                cooccurrence_count (acc_cooccurrence st) a b
                = cooccurrence_count (acc_cooccurrence st) b a)).
  - apply (fold_left_ind process_order
             (fun st => forall a b,
                  cooccurrence_count (acc_cooccurrence st) a b
                  = cooccurrence_count (acc_cooccurrence st) b a)).
    + intros a b. reflexivity.
    + intros o s _ Hs. unfold process_order.
      apply (fold_left_ind record_pair
               (fun st => forall a b,
                    cooccurrence_count (acc_cooccurrence st) a b
                    = cooccurrence_count (acc_cooccurrence st) b a)).
      * rewrite record_incidence_cooccurrence. assumption.
      * intros lr s' _ Hs' a b. rewrite !record_pair_count, (Hs' a b).
        destruct (eq_dec a (fst lr)), (eq_dec b (snd lr)), (eq_dec a (snd lr)),
          (eq_dec b (fst lr)); lia.
  - intros e s _ Hs. exact Hs.
Qed.

Lemma record_pairs_count (pairs : list (string * string)) (a b : string) :
  forall st,
    cooccurrence_count (acc_cooccurrence (fold_left record_pair pairs st)) a b
    = cooccurrence_count (acc_cooccurrence st) a b + zsum (map (joins a b) pairs).
Proof.
  induction pairs as [|lr pairs IH]; intros st; simpl; [lia|].
  rewrite IH, record_pair_count. unfold joins. lia.
Qed.

Lemma process_order_count (st : Accumulators) (o : Order) (a b : string) :
  cooccurrence_count (acc_cooccurrence (process_order st o)) a b
  = cooccurrence_count (acc_cooccurrence st) a b
    + zsum (map (joins a b) (combinations2 (map item_product_id (items o)))).
Proof.
  unfold process_order. rewrite record_pairs_count, record_incidence_cooccurrence.
  reflexivity.
Qed.

Lemma orders_count (os : list Order) (a b : string) :
  forall st,
    cooccurrence_count (acc_cooccurrence (fold_left process_order os st)) a b
    = cooccurrence_count (acc_cooccurrence st) a b
      + zsum (map (fun o => zsum (map (joins a b)
                                    (combinations2 (map item_product_id (items o))))) os).
Proof.
  induction os as [|o os IH]; intros st; simpl; [lia|].
  rewrite IH, process_order_count. lia.
Qed.

Lemma events_leave_cooccurrence (es : list Event) (st : Accumulators) :
  acc_cooccurrence (fold_left process_event es st) = acc_cooccurrence st.
Proof.
  revert st. induction es as [|e es IH]; intros st; simpl; [reflexivity|].
  rewrite IH. reflexivity.
Qed.

(** X1. The co-occurrence count of two products is the number of item
    pairs, over all orders, that join them; counts are mirrored:
    [cooc[a][b] == cooc[b][a]]. *)
Theorem cooccurrence_counts_spec (ds : Dataset) (a b : string) :
  cooccurrence_count (product_cooccurrence (build_graph ds)) a b = copurchases ds a b
  /\ cooccurrence_count (product_cooccurrence (build_graph ds)) a b
     = cooccurrence_count (product_cooccurrence (build_graph ds)) b a.
Proof.
  split; [|apply accumulate_counts_symmetric].
  change (product_cooccurrence (build_graph ds)) with (acc_cooccurrence (accumulate ds)).
  unfold accumulate, copurchases.
  rewrite events_leave_cooccurrence, orders_count. reflexivity.
Qed.

(** ** Which products are adjacent *)

Lemma combinations2_In {A : Type} (xs : list A) (l r : A) :
  In (l, r) (combinations2 xs) <-> exists xs1 xs2 xs3, xs = xs1 ++ l :: xs2 ++ r :: xs3.
Proof.
  induction xs as [|x xs IH]; simpl.
  - split; [intros [] | intros (xs1 & xs2 & xs3 & H)]. destruct xs1; discriminate.
  - rewrite in_app_iff, in_map_iff, IH. split.
    + intros [(y & [= <- <-] & Hy)|(xs1 & xs2 & xs3 & ->)].
      * apply in_split in Hy. destruct Hy as (xs2 & xs3 & ->).
        exists [], xs2, xs3. reflexivity.
      * exists (x :: xs1), xs2, xs3. reflexivity.
    + intros (xs1 & xs2 & xs3 & H). destruct xs1 as [|y xs1]; simpl in H.
      * injection H as <- ->. left. exists r. split; [reflexivity|].
        apply in_or_app. right. left. reflexivity.
      * injection H as <- ->. right. exists xs1, xs2, xs3. reflexivity.
Qed.

Lemma edge_record_pair (st : Accumulators) (lr : string * string) (p n : string) :
  edge (acc_cooccurrence (record_pair st lr)) p n
  <-> edge (acc_cooccurrence st) p n
      \/ ((p = fst lr /\ n = snd lr) \/ (p = snd lr /\ n = fst lr)).
Proof. simpl. rewrite !edge_cooccurrence_incr. tauto. Qed.

Lemma edge_process_order (st : Accumulators) (o : Order) (p n : string) :
  edge (acc_cooccurrence (process_order st o)) p n
  <-> edge (acc_cooccurrence st) p n
      \/ exists xs1 xs2 xs3,
           map item_product_id (items o) = xs1 ++ p :: xs2 ++ n :: xs3
           \/ map item_product_id (items o) = xs1 ++ n :: xs2 ++ p :: xs3.
Proof.
  unfold process_order.
  rewrite (fold_left_grows record_pair (fun st => edge (acc_cooccurrence st) p n)
             (fun lr => (p = fst lr /\ n = snd lr) \/ (p = snd lr /\ n = fst lr)))
    by (intros; apply edge_record_pair).
  rewrite record_incidence_cooccurrence.
  apply or_iff_compat_l. split.
  - intros ([l r] & Hin & Hlr). apply combinations2_In in Hin.
    destruct Hin as (xs1 & xs2 & xs3 & Heq). exists xs1, xs2, xs3. simpl in Hlr.
    destruct Hlr as [[-> ->]|[-> ->]]; auto.
  - intros (xs1 & xs2 & xs3 & [Heq|Heq]).
    + exists (p, n). split; [|simpl; auto].
      apply combinations2_In. exists xs1, xs2, xs3. assumption.
    + exists (n, p). split; [|simpl; auto].
      apply combinations2_In. exists xs1, xs2, xs3. assumption.
Qed.

Lemma edge_build_graph (ds : Dataset) (p n : string) :
  edge (product_cooccurrence (build_graph ds)) p n <-> ordered_together ds p n.
Proof.
  change (edge (acc_cooccurrence (accumulate ds)) p n <-> ordered_together ds p n).
  unfold accumulate.
  rewrite (fold_left_grows process_event (fun st => edge (acc_cooccurrence st) p n)
             (fun _ => False)) by (intros; simpl; tauto).
  rewrite (fold_left_grows process_order (fun st => edge (acc_cooccurrence st) p n)
             (fun o => exists xs1 xs2 xs3,
                  map item_product_id (items o) = xs1 ++ p :: xs2 ++ n :: xs3
                  \/ map item_product_id (items o) = xs1 ++ n :: xs2 ++ p :: xs3))
    by (intros; apply edge_process_order).
  unfold ordered_together. split.
  - intros [[(row & Hget & _)|(o & Ho & xs1 & xs2 & xs3 & H)]|(e & _ & [])].
    + discriminate.
    + exists o, xs1, xs2, xs3. auto.
  - intros (o & xs1 & xs2 & xs3 & Ho & H). left. right. exists o. eauto.
Qed.

Lemma normalized_row_keys (row : dict string Z) :
  row_ok row -> dict_keys (normalized_row row) = dict_keys row.
Proof.
  intros Hok. rewrite normalized_row_items by assumption.
  unfold dict_keys. rewrite map_map. reflexivity.
Qed.

Lemma neighbors_edge (ds : Dataset) (p n : string) :
  In n (dict_keys (neighbors (build_graph ds) p))
  <-> edge (product_cooccurrence (build_graph ds)) p n.
Proof.
  unfold neighbors.
  destruct (adjacency_row_cases ds p) as [Hnil|(row & Hget & Hok & Hne & Hadj)].
  - rewrite Hnil. split; [intros []|]. intros (row & Hget & Hin). exfalso.
    pose proof (build_graph_cooccurrence_ok ds) as Hcooc.
    pose proof (cooc_rows Hcooc _ Hget) as Hok.
    assert (Hne : row <> []) by (intros ->; exact Hin).
    pose proof (row_total_pos Hok Hne) as Hpos.
    revert Hnil. unfold dict_get_default.
    cbn [product_adjacency product_cooccurrence build_graph] in *.
    rewrite adjacency_get by (apply (cooc_keys Hcooc)).
    rewrite Hget. destruct (row_total row =? 0) eqn:Hz; [lia|].
    rewrite normalized_row_items by assumption.
    destruct row; [congruence | discriminate].
  - unfold dict_get_default. rewrite Hadj, normalized_row_keys by assumption. split.
    + intros Hin. exists row. auto.
    + intros (row' & Hget' & Hin). rewrite Hget in Hget'. injection Hget' as <-. exact Hin.
Qed.

(** X2. Two products are neighbours in the adjacency exactly when some order
    lists both, at two positions of its items. *)
Theorem neighbors_iff_ordered_together (ds : Dataset) (p n : string) :
  In n (dict_keys (neighbors (build_graph ds) p)) <-> ordered_together ds p n.
Proof. rewrite neighbors_edge. apply edge_build_graph. Qed.

(** ** Keys of the adjacency *)

Lemma dict_from_keys_keys {V : Type} (f : string -> V) (ks : list string) (k : string) :
  In k (dict_keys (dict_from_keys f ks)) -> In k ks.
Proof.
  unfold dict_from_keys.
  apply (fold_left_ind (fun (acc : dict string V) k => dict_set acc k (f k))
           (fun acc => In k (dict_keys acc) -> In k ks)).
  - intros [].
  - intros x s Hx Hs Hin. apply dict_keys_set_In in Hin.
    destruct Hin as [->|Hin]; auto.
Qed.

Lemma adjacency_key_cases (ds : Dataset) (p : string) :
  In p (dict_keys (product_adjacency (build_graph ds))) ->
  In p (product_ids ds) \/ exists n, edge (product_cooccurrence (build_graph ds)) p n.
Proof.
  intros Hin. destruct (dict_key_get _ _ Hin) as [row Hrow].
  destruct (adjacency_row_cases ds p) as [Hnil|(crow & Hget & Hok & Hne & Hadj)].
  - left. pose proof (build_graph_cooccurrence_ok ds) as Hcooc.
    revert Hrow Hnil. unfold dict_get_default.
    cbn [product_adjacency product_cooccurrence build_graph] in *.
    rewrite adjacency_get by (apply (cooc_keys Hcooc)).
    destruct (dict_get _ p) as [crow|] eqn:Hget.
    + destruct (row_total crow =? 0) eqn:Hz.
      * intros Hinit _. apply dict_get_Some_key in Hinit.
        eapply dict_from_keys_keys. exact Hinit.
      * intros _ Hnil. exfalso.
        pose proof (cooc_rows Hcooc _ Hget) as Hok.
        rewrite normalized_row_items in Hnil by assumption.
        destruct crow; [discriminate Hz | discriminate Hnil].
    + intros Hinit _. apply dict_get_Some_key in Hinit.
      eapply dict_from_keys_keys. exact Hinit.
  - right. destruct crow as [|[n c] crow]; [congruence|]. exists n.
    exists ((n, c) :: crow). split; [assumption|]. left. reflexivity.
Qed.

(** X3. The adjacency has a row for every product of the dataset and for every
    product that shares an order, and for no other. *)
Theorem adjacency_keys (ds : Dataset) (p : string) :
  In p (dict_keys (product_adjacency (build_graph ds)))
  <-> In p (product_ids ds) \/ exists n, ordered_together ds p n.
Proof.
  split.
  - intros Hin. destruct (adjacency_key_cases ds p Hin) as [Hp|(n & Hn)]; [auto|].
    right. exists n. apply edge_build_graph. assumption.
  - intros [Hp|(n & Hn)]; [apply build_graph_products; assumption|].
    apply edge_build_graph, neighbors_edge in Hn. unfold neighbors, dict_get_default in Hn.
    destruct (dict_get (product_adjacency (build_graph ds)) p) eqn:Hget; [|contradiction].
    eapply dict_get_Some_key. eassumption.
Qed.

(** ** Incidence *)

Lemma multimap_add_grows (m : dict string (pyset string)) (k v k' x : string) :
  In x (dict_get_default (multimap_add m k v) k' [])
  <-> In x (dict_get_default m k' []) \/ (k' = k /\ x = v).
Proof.
  rewrite multimap_add_In. destruct (eq_dec k' k) as [->|Hne]; intuition congruence.
Qed.

Lemma customer_products_record_incidence (cid : string) (st : Accumulators)
  (pid c p : string) :
  In p (dict_get_default (acc_customer_products (record_incidence cid st pid)) c [])
  <-> In p (dict_get_default (acc_customer_products st) c []) \/ (c = cid /\ p = pid).
Proof. simpl. apply multimap_add_grows. Qed.

Lemma record_pair_customer_products (pairs : list (string * string)) (st : Accumulators) :
  acc_customer_products (fold_left record_pair pairs st) = acc_customer_products st
  /\ acc_event_weights (fold_left record_pair pairs st) = acc_event_weights st.
Proof.
  revert st. induction pairs as [|lr pairs IH]; intros st; simpl; [auto|].
  destruct (IH (record_pair st lr)) as [-> ->]. auto.
Qed.

Lemma record_incidence_event_weights (cid : string) (pids : list string)
  (st : Accumulators) :
  acc_event_weights (fold_left (record_incidence cid) pids st) = acc_event_weights st.
Proof.
  revert st. induction pids as [|p pids IH]; intros st; simpl; [reflexivity|].
  rewrite IH. reflexivity.
Qed.

Lemma process_order_event_weights (st : Accumulators) (o : Order) :
  acc_event_weights (process_order st o) = acc_event_weights st.
Proof.
  unfold process_order.
  rewrite (proj2 (record_pair_customer_products _ _)).
  apply record_incidence_event_weights.
Qed.

Lemma customer_products_process_order (st : Accumulators) (o : Order) (c p : string) :
  In p (dict_get_default (acc_customer_products (process_order st o)) c [])
  <-> In p (dict_get_default (acc_customer_products st) c [])
      \/ (customer_id o = c /\ In p (map item_product_id (items o))).
Proof.
  unfold process_order. rewrite (proj1 (record_pair_customer_products _ _)).
  rewrite (fold_left_grows (record_incidence (customer_id o))
             (fun st => In p (dict_get_default (acc_customer_products st) c []))
             (fun pid => c = customer_id o /\ p = pid))
    by (intros; apply customer_products_record_incidence).
  apply or_iff_compat_l. split.
  - intros (pid & Hin & -> & ->). auto.
  - intros [<- Hin]. exists p. auto.
Qed.

Lemma customer_products_process_event (st : Accumulators) (e : Event) (c p : string) :
  In p (dict_get_default (acc_customer_products (process_event st e)) c [])
  <-> In p (dict_get_default (acc_customer_products st) c [])
      \/ (event_customer_id e = c /\ event_product_id e = p).
Proof.
  cbn [process_event acc_customer_products].
  rewrite customer_products_record_incidence. intuition congruence.
Qed.

Lemma customer_products_iff (ds : Dataset) (c p : string) :
  In p (dict_get_default (customer_products (build_graph ds)) c [])
  <-> (exists o, In o (dict_values (orders ds))
                 /\ customer_id o = c /\ In p (map item_product_id (items o)))
      \/ (exists e, In e (events ds)
                    /\ event_customer_id e = c /\ event_product_id e = p).
Proof.
  change (customer_products (build_graph ds)) with (acc_customer_products (accumulate ds)).
  unfold accumulate.
  rewrite (fold_left_grows process_event
             (fun st => In p (dict_get_default (acc_customer_products st) c []))
             (fun e => event_customer_id e = c /\ event_product_id e = p))
    by (intros; apply customer_products_process_event).
  rewrite (fold_left_grows process_order
             (fun st => In p (dict_get_default (acc_customer_products st) c []))
             (fun o => customer_id o = c /\ In p (map item_product_id (items o))))
    by (intros; apply customer_products_process_order).
  simpl. tauto.
Qed.

(** X4. A product is in a customer's incidence set exactly when the customer
    ordered it or has an event on it, whatever the event type; the two
    incidence maps mirror each other. *)
Theorem incidence_sets (ds : Dataset) (c p : string) :
  (In p (dict_get_default (customer_products (build_graph ds)) c [])
   <-> (exists o, In o (dict_values (orders ds))
                  /\ customer_id o = c /\ In p (map item_product_id (items o)))
       \/ (exists e, In e (events ds)
                     /\ event_customer_id e = c /\ event_product_id e = p))
  /\ (In c (dict_get_default (product_customers (build_graph ds)) p [])
      <-> In p (dict_get_default (customer_products (build_graph ds)) c [])).
Proof.
  split; [apply customer_products_iff | symmetry; apply (accumulate_mirrored ds)].
Qed.

(** ** Event weights *)

Lemma event_weight_cases (e : Event) :
  (dict_mem EVENT_WEIGHTS (event_type e) = true /\ (0 < event_weight e)%Q)
  \/ (dict_mem EVENT_WEIGHTS (event_type e) = false /\ event_weight e = 0%Q).
Proof.
  unfold event_weight, dict_mem, dict_get_default, EVENT_WEIGHTS. simpl.
  repeat (destruct (eq_dec (event_type e) _); [left; split; [reflexivity|reflexivity]|]).
  right. auto.
Qed.

Lemma event_weights_process_event (st : Accumulators) (e : Event) (key : string * string) :
  dict_get_default (acc_event_weights (process_event st e)) key 0%Q
  = if eq_dec key (event_customer_id e, event_product_id e)
    then fadd (dict_get_default (acc_event_weights st) key 0%Q) (event_weight e)
    else dict_get_default (acc_event_weights st) key 0%Q.
Proof.
  cbn [process_event acc_event_weights record_incidence].
  rewrite dict_get_default_set. destruct (eq_dec key _) as [->|Hne]; reflexivity.
Qed.

Lemma event_weights_fold (es : list Event) (c p : string) :
  forall st,
    (dict_get_default (acc_event_weights (fold_left process_event es st)) (c, p) 0
     == dict_get_default (acc_event_weights st) (c, p) 0
        + qsum (map event_weight (filter (event_on c p) es)))%Q.
Proof.
  induction es as [|e es IH]; intros st; simpl.
  - ring.
  - rewrite IH, event_weights_process_event. unfold event_on at 2.
    destruct (eq_dec (event_customer_id e, event_product_id e) (c, p)) as [Heq|Hne].
    + rewrite Heq. destruct (eq_dec (c, p) (c, p)); [|congruence].
      simpl. rewrite fadd_correct. ring.
    + destruct (eq_dec (c, p) (event_customer_id e, event_product_id e)); [congruence|].
      ring.
Qed.

Lemma orders_leave_event_weights (os : list Order) (st : Accumulators) :
  acc_event_weights (fold_left process_order os st) = acc_event_weights st.
Proof.
  revert st. induction os as [|o os IH]; intros st; simpl; [reflexivity|].
  rewrite IH. apply process_order_event_weights.
Qed.

Lemma event_weight_keys_process_event (st : Accumulators) (e : Event)
  (key : string * string) :
  In key (dict_keys (acc_event_weights (process_event st e)))
  <-> In key (dict_keys (acc_event_weights st))
      \/ key = (event_customer_id e, event_product_id e).
Proof.
  cbn [process_event acc_event_weights record_incidence].
  rewrite dict_keys_set_In. tauto.
Qed.

Lemma event_weights_total (ds : Dataset) (c p : string) :
  (dict_get_default (event_weights (build_graph ds)) (c, p) 0
   == qsum (map event_weight (filter (event_on c p) (events ds))))%Q.
Proof.
  change (event_weights (build_graph ds)) with (acc_event_weights (accumulate ds)).
  unfold accumulate. rewrite event_weights_fold, orders_leave_event_weights. simpl.
  unfold dict_get_default. simpl. ring.
Qed.

Lemma event_weights_keys (ds : Dataset) (c p : string) :
  In (c, p) (dict_keys (event_weights (build_graph ds)))
  <-> exists e, In e (events ds) /\ event_customer_id e = c /\ event_product_id e = p.
Proof.
  change (event_weights (build_graph ds)) with (acc_event_weights (accumulate ds)).
  unfold accumulate.
  rewrite (fold_left_grows process_event
             (fun st => In (c, p) (dict_keys (acc_event_weights st)))
             (fun e => (c, p) = (event_customer_id e, event_product_id e)))
    by (intros; apply event_weight_keys_process_event).
  rewrite orders_leave_event_weights. simpl. split.
  - intros [[]|(e & He & Heq)]. injection Heq as -> ->. exists e. auto.
  - intros (e & He & <- & <-). right. exists e. auto.
Qed.

Lemma event_weights_NoDup (ds : Dataset) :
  NoDup (dict_keys (event_weights (build_graph ds))).
Proof.
  change (event_weights (build_graph ds)) with (acc_event_weights (accumulate ds)).
  unfold accumulate. apply fold_left_ind.
  - rewrite orders_leave_event_weights. constructor.
  - intros e s _ Hs. cbn [process_event acc_event_weights record_incidence].
    apply dict_set_NoDup. assumption.
Qed.

(** X5. The accumulated weight of a customer-product pair is the sum of the
    weights of all its events (0 for types outside [EVENT_WEIGHTS]); the
    pair is a key exactly when it has an event; keys are not repeated. *)
Theorem event_weights_accumulate (ds : Dataset) (c p : string) :
  (dict_get_default (event_weights (build_graph ds)) (c, p) 0
   == qsum (map event_weight (filter (event_on c p) (events ds))))%Q
  /\ (In (c, p) (dict_keys (event_weights (build_graph ds)))
      <-> exists e, In e (events ds)
                    /\ event_customer_id e = c /\ event_product_id e = p)
  /\ NoDup (dict_keys (event_weights (build_graph ds))).
Proof.
  split; [apply event_weights_total|].
  split; [apply event_weights_keys | apply event_weights_NoDup].
Qed.

Lemma event_weight_nonneg (e : Event) : (0 <= event_weight e)%Q.
Proof.
  destruct (event_weight_cases e) as [[_ H]|[_ H]]; [apply Qlt_le_weak; exact H|].
  rewrite H. apply Qle_refl.
Qed.

Lemma qsum_pos_iff (xs : list Q) :
  (forall x, In x xs -> (0 <= x)%Q) ->
  ((0 < qsum xs)%Q <-> exists x, In x xs /\ (0 < x)%Q).
Proof.
  induction xs as [|x xs IH]; intros Hnn; simpl.
  - split; [intros H; exfalso; revert H; apply Qlt_irrefl | intros (x & [] & _)].
  - assert (Hx : (0 <= x)%Q) by (apply Hnn; left; reflexivity).
    assert (Hxs : forall y, In y xs -> (0 <= y)%Q) by (intros; apply Hnn; right; assumption).
    pose proof (qsum_nonneg xs Hxs) as Hsum. specialize (IH Hxs). split.
    + intros Hpos. destruct (Qlt_le_dec 0 x) as [Hlt|Hle].
      * exists x. auto.
      * assert (Hq : (0 < qsum xs)%Q) by lra. apply IH in Hq.
        destruct Hq as (y & Hy & Hpy). exists y. auto.
    + intros (y & [<-|Hy] & Hpy); [lra|].
      assert (Hq : (0 < qsum xs)%Q) by (apply IH; exists y; auto). lra.
Qed.

Lemma interacted_iff_event (ds : Dataset) (eng : RecommendationEngine) (c p : string) :
  graph eng = build_graph ds ->
  (In p (_interacted_products eng c)
   <-> exists e, In e (events ds)
                 /\ event_customer_id e = c /\ event_product_id e = p
                 /\ dict_mem EVENT_WEIGHTS (event_type e) = true).
Proof.
  intros Hgraph. pose proof (event_weights_total ds c p) as Hsum.
  pose proof (event_weights_NoDup ds) as Hnd.
  assert (Hpos : (0 < qsum (map event_weight (filter (event_on c p) (events ds))))%Q
                 <-> exists e, In e (events ds)
                               /\ event_customer_id e = c /\ event_product_id e = p
                               /\ dict_mem EVENT_WEIGHTS (event_type e) = true).
  { rewrite qsum_pos_iff.
    - split.
      + intros (w & Hw & Hwpos). apply in_map_iff in Hw. destruct Hw as (e & <- & He).
        apply filter_In in He. destruct He as [He Hon]. unfold event_on in Hon.
        destruct (eq_dec _ _) as [Heq|]; [|discriminate]. injection Heq as <- <-.
        exists e. repeat split; try assumption.
        destruct (event_weight_cases e) as [[Hm _]|[_ Hz]]; [assumption|].
        rewrite Hz in Hwpos. exfalso. revert Hwpos. apply Qlt_irrefl.
      + intros (e & He & <- & <- & Hm). exists (event_weight e). split.
        * apply in_map. apply filter_In. split; [assumption|]. unfold event_on.
          destruct (eq_dec _ _); congruence.
        * destruct (event_weight_cases e) as [[_ H]|[H _]]; [assumption | congruence].
    - intros w Hw. apply in_map_iff in Hw. destruct Hw as (e & <- & _).
      apply event_weight_nonneg. }
  rewrite <- Hpos. unfold _interacted_products. rewrite Hgraph, set_of_list_In, in_map_iff.
  split.
  - intros ([[c' p'] w] & Hp & Hin). simpl in Hp. subst p'.
    apply filter_In in Hin. destruct Hin as [Hin Hf]. simpl in Hf.
    destruct (eq_dec c' c) as [->|]; [|discriminate]. apply fltb_lt in Hf.
    apply (In_dict_get _ _ _ Hnd) in Hin. unfold dict_get_default in Hsum.
    rewrite Hin in Hsum. rewrite <- Hsum. assumption.
  - intros Hq. rewrite <- Hsum in Hq. unfold dict_get_default in Hq.
    destruct (dict_get (event_weights (build_graph ds)) (c, p)) as [w|] eqn:Hget.
    + exists ((c, p), w). split; [reflexivity|]. apply filter_In.
      split; [apply dict_get_In; assumption|]. simpl.
      destruct (eq_dec c c); [|congruence]. apply fltb_lt. assumption.
    + exfalso. revert Hq. apply Qlt_irrefl.
Qed.

Lemma interacted_subset_purchased (ds : Dataset) (eng : RecommendationEngine)
  (c p : string) :
  graph eng = build_graph ds ->
  In p (_interacted_products eng c) -> In p (purchased_of eng c).
Proof.
  intros Hgraph Hp. apply (@interacted_iff_event ds eng c p Hgraph) in Hp.
  destruct Hp as (e & He & Hc & Hpid & _).
  unfold purchased_of. rewrite set_of_list_In, Hgraph.
  apply customer_products_iff. right. exists e. auto.
Qed.

Lemma seeds_are_purchased (ds : Dataset) (eng : RecommendationEngine) (c : string) :
  graph eng = build_graph ds -> customer_seeds eng c = purchased_of eng c.
Proof.
  intros Hgraph. unfold customer_seeds, seeds_of.
  destruct (purchased_of eng c) as [|q qs] eqn:Hpur; [|reflexivity]. simpl.
  destruct (_interacted_products eng c) as [|p ps] eqn:Hint; [reflexivity|].
  exfalso. assert (Hp : In p (purchased_of eng c)).
  { apply (@interacted_subset_purchased ds eng c p Hgraph). rewrite Hint. left. reflexivity. }
  rewrite Hpur in Hp. exact Hp.
Qed.

(** X6. The interacted set of a customer holds exactly the products on which
    the customer has at least one view, click or add_to_cart event. *)
Theorem interacted_products_spec (ds : Dataset) (d tol : Q) (iters : Z) :
  exists eng,
    new_engine (build_graph ds) d tol iters = Ok eng
    /\ forall c p,
         In p (_interacted_products eng c)
         <-> exists e, In e (events ds)
                       /\ event_customer_id e = c /\ event_product_id e = p
                       /\ dict_mem EVENT_WEIGHTS (event_type e) = true.
Proof.
  destruct (new_engine_ok ds d tol iters) as (eng & Hnew & _ & Hgraph & _).
  exists eng. split; [assumption|]. intros c p. apply interacted_iff_event. assumption.
Qed.

(** X7. Every interacted product is also in the set the engine calls
    purchased, because [customer_products] records event incidence too: the
    seed set always is that set, made of the products that the customer
    ordered or has any event on, and the fallback to the interacted set
    never contributes a product; the exclusion set has the same elements. *)
Theorem seeds_are_customer_products (ds : Dataset) (d tol : Q) (iters : Z) :
  exists eng,
    new_engine (build_graph ds) d tol iters = Ok eng
    /\ forall c,
         (forall p, In p (_interacted_products eng c) -> In p (purchased_of eng c))
         /\ customer_seeds eng c = purchased_of eng c
         /\ (forall p, In p (exclusion_set eng c) <-> In p (customer_seeds eng c))
         /\ (forall p,
               In p (customer_seeds eng c)
               <-> (exists o, In o (dict_values (orders ds))
                              /\ customer_id o = c
                              /\ In p (map item_product_id (items o)))
                   \/ (exists e, In e (events ds)
                                 /\ event_customer_id e = c /\ event_product_id e = p)).
Proof.
  destruct (new_engine_ok ds d tol iters) as (eng & Hnew & _ & Hgraph & _).
  exists eng. split; [assumption|]. intros c.
  pose proof (@seeds_are_purchased ds eng c Hgraph) as Hseeds.
  split; [intros p; apply (@interacted_subset_purchased ds eng c p Hgraph)|].
  split; [assumption|]. split.
  - intros p. rewrite Hseeds. unfold exclusion_set. rewrite set_union_In.
    split; [intros [H|H]; [assumption|] | auto].
    apply (@interacted_subset_purchased ds eng c p Hgraph H).
  - intros p. rewrite Hseeds. unfold purchased_of. rewrite set_of_list_In, Hgraph.
    apply customer_products_iff.
Qed.

(** ** Adjacency weights *)

Lemma qsum_member_le (xs : list Q) (x : Q) :
  (forall y, In y xs -> (0 <= y)%Q) -> In x xs -> (x <= qsum xs)%Q.
Proof.
  induction xs as [|y xs IH]; intros Hnn Hin; [contradiction|]. simpl.
  assert (Hy : (0 <= y)%Q) by (apply Hnn; left; reflexivity).
  assert (Hxs : forall z, In z xs -> (0 <= z)%Q) by (intros; apply Hnn; right; assumption).
  pose proof (qsum_nonneg xs Hxs) as Hsum.
  destruct Hin as [->|Hin]; [lra|]. specialize (IH Hxs Hin). lra.
Qed.

Lemma adjacency_weight_value (ds : Dataset) (p n : string) (w : Q) :
  In (n, w) (neighbors (build_graph ds) p) ->
  (w == inject_Z (cooccurrence_count (product_cooccurrence (build_graph ds)) p n)
        / inject_Z (row_total (dict_get_default
                                 (product_cooccurrence (build_graph ds)) p [])))%Q.
Proof.
  unfold neighbors. intros Hin.
  destruct (adjacency_row_cases ds p) as [Hnil|(row & Hget & Hok & Hne & Hadj)].
  - rewrite Hnil in Hin. contradiction.
  - unfold dict_get_default in Hin. rewrite Hadj in Hin.
    rewrite normalized_row_items in Hin by assumption.
    apply in_map_iff in Hin. destruct Hin as ([n' c] & Heq & Hin).
    simpl in Heq. injection Heq as -> <-.
    unfold cooccurrence_count, dict_get_default. rewrite Hget.
    rewrite (In_dict_get _ _ _ (proj1 Hok) Hin). apply fdiv_correct.
Qed.

(** X8. Every adjacency weight is the co-occurrence count of the two
    products divided by the total of the row, lies in (0, 1], and adjacency
    is symmetric: the neighbour has a row of its own that lists the product
    back. *)
Theorem adjacency_weights_bounded (ds : Dataset) (p n : string) (w : Q) :
  In (n, w) (neighbors (build_graph ds) p) ->
  (w == inject_Z (cooccurrence_count (product_cooccurrence (build_graph ds)) p n)
        / inject_Z (row_total (dict_get_default
                                 (product_cooccurrence (build_graph ds)) p [])))%Q
  /\ (0 < w <= 1)%Q
  /\ In n (dict_keys (product_adjacency (build_graph ds)))
  /\ In p (dict_keys (neighbors (build_graph ds) n)).
Proof.
  intros Hin. split; [apply adjacency_weight_value; assumption|].
  pose proof (build_graph_adjacency_ok ds) as Hadj. unfold neighbors in *.
  assert (Hpos : (0 < w)%Q) by (eapply (adj_weights Hadj); exact Hin).
  split; [split; [assumption|]|split].
  - assert (Hne : dict_get_default (product_adjacency (build_graph ds)) p [] <> [])
      by (intros Hnil; rewrite Hnil in Hin; exact Hin).
    rewrite <- (adj_rows Hadj p Hne). apply qsum_member_le.
    + intros y Hy. apply in_map_iff in Hy. destruct Hy as ([n' w'] & <- & Hy).
      apply Qlt_le_weak. eapply (adj_weights Hadj). exact Hy.
    + apply (in_map snd) in Hin. exact Hin.
  - eapply (adj_closed Hadj). exact Hin.
  - apply neighbors_edge. apply (cooc_symmetric (build_graph_cooccurrence_ok ds)).
    apply neighbors_edge. unfold neighbors. apply (in_map fst) in Hin. exact Hin.
Qed.

Lemma adjacency_weights_bounded_witness :
  In ("P1", 1 # 2)%Q (neighbors (build_graph load_dataset) "P2")
  /\ (0 < 1 # 2 <= 1)%Q
  /\ In "P1" (dict_keys (product_adjacency (build_graph load_dataset)))
  /\ In "P2" (dict_keys (neighbors (build_graph load_dataset) "P1")).
Proof.
  assert (Hin : In ("P1", 1 # 2)%Q (neighbors (build_graph load_dataset) "P2"))
    by (left; reflexivity).
  split; [exact Hin|].
  exact (proj2 (@adjacency_weights_bounded load_dataset "P2" "P1" (1 # 2)%Q Hin)).
Defined.

(** ** The ranking as a function of [top_n] *)

(** X9. Growing [top_n] only appends recommendations: the result for [n] is
    the first [n] entries of the result for any larger [m]; no product is
    recommended twice. *)
Theorem recommendations_grow_with_top_n
  (ds : Dataset) (d tol : Q) (iters : Z) (cid : string) (n m : Z) :
  dict_mem (customers ds) cid = true ->
  0 <= n <= m ->
  exists eng out_n out_m,
    new_engine (build_graph ds) d tol iters = Ok eng
    /\ recommend_for_customer eng cid n = Ok out_n
    /\ recommend_for_customer eng cid m = Ok out_m
    /\ out_n = firstn (Z.to_nat n) out_m
    /\ NoDup (map product_id out_m).
Proof.
  intros Hmem Hnm.
  destruct (new_engine_ok ds d tol iters) as (eng & Hnew & Hok & Hgraph & _).
  destruct (recommend_ranking cid Hok (built_engine_customer eng cid Hgraph Hmem))
    as (full & Hrec & Hfull).
  exists eng, (slice_to full n), (slice_to full m).
  split; [assumption|]. split; [apply Hrec|]. split; [apply Hrec|]. split.
  - unfold slice_to. destruct (n <? 0) eqn:Hn; [lia|]. destruct (m <? 0) eqn:Hm; [lia|].
    rewrite firstn_firstn. f_equal. lia.
  - unfold slice_to. destruct (m <? 0); rewrite <- firstn_map; apply firstn_NoDup;
      apply (ranking_distinct Hfull).
Qed.

Lemma recommendations_grow_with_top_n_witness :
  dict_mem (customers load_dataset) "C3" = true
  /\ 0 <= 1 <= 3
  /\ exists eng out_n out_m,
       new_engine (build_graph load_dataset) default_damping default_tolerance
         default_max_iterations = Ok eng
       /\ recommend_for_customer eng "C3" 1 = Ok out_n
       /\ recommend_for_customer eng "C3" 3 = Ok out_m
       /\ out_n = firstn (Z.to_nat 1) out_m
       /\ NoDup (map product_id out_m).
Proof.
  split; [reflexivity|]. split; [lia|].
  apply recommendations_grow_with_top_n; [reflexivity | lia].
Defined.

(** X10. [top_n = 0] returns the empty list, and a negative [top_n] is a slice
    from the end: it drops the last [-top_n] entries of the whole ranking
    instead of failing. *)
Theorem nonpositive_top_n
  (ds : Dataset) (d tol : Q) (iters : Z) (cid : string) :
  dict_mem (customers ds) cid = true ->
  exists eng full,
    new_engine (build_graph ds) d tol iters = Ok eng
    /\ (forall m, Z.of_nat (List.length full) <= m ->
                  recommend_for_customer eng cid m = Ok full)
    /\ recommend_for_customer eng cid 0 = Ok []
    /\ (forall k, 0 < k ->
          recommend_for_customer eng cid (- k)
          = Ok (firstn (List.length full - Z.to_nat k) full)).
Proof.
  intros Hmem.
  destruct (new_engine_ok ds d tol iters) as (eng & Hnew & Hok & Hgraph & _).
  destruct (recommend_ranking cid Hok (built_engine_customer eng cid Hgraph Hmem))
    as (full & Hrec & _).
  exists eng, full. split; [assumption|]. split; [|split].
  - intros m Hm. rewrite Hrec. unfold slice_to. destruct (m <? 0) eqn:Hneg; [lia|].
    rewrite firstn_all2 by lia. reflexivity.
  - rewrite Hrec. reflexivity.
  - intros k Hk. rewrite Hrec. unfold slice_to.
    destruct (- k <? 0) eqn:Hneg; [|lia]. do 2 f_equal. lia.
Qed.

Lemma nonpositive_top_n_witness :
  dict_mem (customers load_dataset) "C3" = true
  /\ exists eng full,
       new_engine (build_graph load_dataset) default_damping default_tolerance
         default_max_iterations = Ok eng
       /\ (forall m, Z.of_nat (List.length full) <= m ->
                     recommend_for_customer eng "C3" m = Ok full)
       /\ recommend_for_customer eng "C3" 0 = Ok []
       /\ (forall k, 0 < k ->
             recommend_for_customer eng "C3" (- k)
             = Ok (firstn (List.length full - Z.to_nat k) full)).
Proof.
  split; [reflexivity|]. apply nonpositive_top_n. reflexivity.
Defined.

(** ** Strategy scores *)

Lemma cooccurrence_row_scores (seeds : pyset string) (row : dict string Z) (p : string) :
  NoDup (dict_keys row) ->
  forall scores : dict string Q,
    (dict_get_default
       (fold_left
          (fun scores (cw : string * Z) =>
             if set_mem (fst cw) seeds then scores
             else dict_set scores (fst cw)
                    (fadd (dict_get_default scores (fst cw) 0%Q) (float_of_int (snd cw))))
          row scores) p 0
     == dict_get_default scores p 0
        + (if set_mem p seeds then 0 else inject_Z (dict_get_default row p 0%Z)))%Q.
Proof.
  induction row as [|[k c] row IH]; intros Hnd scores; simpl.
  - destruct (set_mem p seeds); unfold dict_get_default; simpl; ring.
  - inversion Hnd as [|? ? Hnotin Hnd']; subst. rewrite IH by assumption.
    assert (Hrow : dict_get_default ((k, c) :: row) p 0
                   = if eq_dec p k then c else dict_get_default row p 0).
    { unfold dict_get_default. simpl. destruct (eq_dec p k); reflexivity. }
    rewrite Hrow. destruct (set_mem k seeds) eqn:Hk.
    + destruct (eq_dec p k) as [->|Hne]; [rewrite Hk|]; reflexivity.
    + rewrite dict_get_default_set. destruct (eq_dec p k) as [->|Hne]; [|reflexivity].
      rewrite Hk, fadd_correct. unfold float_of_int.
      assert (Hz : dict_get_default row k 0 = 0).
      { unfold dict_get_default. apply dict_get_None in Hnotin. rewrite Hnotin. reflexivity. }
      rewrite Hz. change (inject_Z 0) with 0%Q. ring.
Qed.

Lemma cooccurrence_row_keys (seeds : pyset string) (row : dict string Z) (p : string)
  (scores : dict string Q) :
  In p (dict_keys
          (fold_left
             (fun scores (cw : string * Z) =>
                if set_mem (fst cw) seeds then scores
                else dict_set scores (fst cw)
                       (fadd (dict_get_default scores (fst cw) 0%Q)
                          (float_of_int (snd cw))))
             row scores))
  <-> In p (dict_keys scores) \/ (In p (dict_keys row) /\ ~ In p seeds).
Proof.
  rewrite (fold_left_grows _ (fun s : dict string Q => In p (dict_keys s))
             (fun cw : string * Z => fst cw = p /\ ~ In p seeds)).
  - apply or_iff_compat_l. unfold dict_keys. rewrite in_map_iff. split.
    + intros (cw & Hin & Heq & Hout). split; [exists cw|]; auto.
    + intros ((cw & Heq & Hin) & Hout). exists cw. auto.
  - intros s [k c]. simpl. destruct (set_mem k seeds) eqn:Hk.
    + apply set_mem_true in Hk. split; [auto|]. intros [H|[-> H]]; tauto.
    + apply set_mem_false in Hk. rewrite dict_keys_set_In. split.
      * intros [->|H]; auto.
      * intros [H|[<- H]]; auto.
Qed.

Lemma cooccurrence_row_NoDup (seeds : pyset string) (row : dict string Z)
  (scores : dict string Q) :
  NoDup (dict_keys scores) ->
  NoDup (dict_keys
           (fold_left
              (fun scores (cw : string * Z) =>
                 if set_mem (fst cw) seeds then scores
                 else dict_set scores (fst cw)
                        (fadd (dict_get_default scores (fst cw) 0%Q)
                           (float_of_int (snd cw))))
              row scores)).
Proof.
  intros Hnd. apply fold_left_ind; [assumption|]. intros [k c] s _ Hs. simpl.
  destruct (set_mem k seeds); [assumption | apply dict_set_NoDup; assumption].
Qed.

Section ScoreFacts.
Variable ds : Dataset.
Variable self : RecommendationEngine.
Hypothesis Hgraph : graph self = build_graph ds.

Lemma cooccurrence_rows_NoDup (seed : string) :
  NoDup (dict_keys (dict_get_default (product_cooccurrence (graph self)) seed [])).
Proof.
  rewrite Hgraph. unfold dict_get_default.
  destruct (dict_get (product_cooccurrence (build_graph ds)) seed) as [row|] eqn:Hget.
  - apply (cooc_rows (build_graph_cooccurrence_ok ds) _ Hget).
  - constructor.
Qed.

Lemma co_occurrence_scores_value (seeds : pyset string) (p : string) :
  (dict_get_default (_co_occurrence_scores self seeds) p 0
   == if set_mem p seeds then 0
      else cooccurrence_with (product_cooccurrence (graph self)) seeds p)%Q.
Proof.
  unfold _co_occurrence_scores, cooccurrence_with.
  enough (Hgen : forall l (scores : dict string Q),
    (dict_get_default
       (fold_left
          (fun scores seed =>
             fold_left
               (fun scores (cw : string * Z) =>
                  if set_mem (fst cw) seeds then scores
                  else dict_set scores (fst cw)
                         (fadd (dict_get_default scores (fst cw) 0%Q)
                            (float_of_int (snd cw))))
               (dict_get_default (product_cooccurrence (graph self)) seed []) scores)
          l scores) p 0
     == dict_get_default scores p 0
        + (if set_mem p seeds then 0
           else qsum (map (fun seed =>
                             inject_Z (cooccurrence_count
                                         (product_cooccurrence (graph self)) seed p)) l)))%Q).
  { rewrite Hgen. unfold dict_get_default. simpl. destruct (set_mem p seeds); ring. }
  induction l as [|seed l IH]; intros scores; simpl.
  - destruct (set_mem p seeds); ring.
  - rewrite IH, cooccurrence_row_scores by apply cooccurrence_rows_NoDup.
    unfold cooccurrence_count. destruct (set_mem p seeds); ring.
Qed.

Lemma co_occurrence_scores_keys (seeds : pyset string) (p : string) :
  In p (dict_keys (_co_occurrence_scores self seeds))
  <-> ~ In p seeds /\ exists seed, In seed seeds /\ ordered_together ds seed p.
Proof.
  unfold _co_occurrence_scores.
  rewrite (fold_left_grows _ (fun s : dict string Q => In p (dict_keys s))
             (fun seed => In p (dict_keys (dict_get_default
                                             (product_cooccurrence (graph self)) seed []))
                          /\ ~ In p seeds)).
  - simpl. split.
    + intros [[]|(seed & Hseed & Hrow & Hout)]. split; [assumption|].
      exists seed. split; [assumption|]. apply edge_build_graph. rewrite <- Hgraph.
      unfold edge, dict_get_default in *.
      destruct (dict_get (product_cooccurrence (graph self)) seed) as [row|];
        [exists row; auto | contradiction].
    + intros (Hout & seed & Hseed & Hord). right. exists seed.
      split; [assumption|]. split; [|assumption].
      apply edge_build_graph in Hord. rewrite <- Hgraph in Hord.
      destruct Hord as (row & Hget & Hin). unfold dict_get_default. rewrite Hget.
      assumption.
  - intros s seed. apply cooccurrence_row_keys.
Qed.

Lemma co_occurrence_scores_NoDup (seeds : pyset string) :
  NoDup (dict_keys (_co_occurrence_scores self seeds)).
Proof.
  unfold _co_occurrence_scores. apply fold_left_ind; [constructor|].
  intros seed s _ Hs. apply cooccurrence_row_NoDup. assumption.
Qed.
End ScoreFacts.

(** X11. The co-occurrence score of a candidate is the number of co-purchases
    that join it with the seeds, summed over the seeds; seeds themselves
    and products never ordered with a seed get no score. *)
Theorem co_occurrence_scores_spec (ds : Dataset) (d tol : Q) (iters : Z) :
  exists eng,
    new_engine (build_graph ds) d tol iters = Ok eng
    /\ forall seeds,
         NoDup (dict_keys (_co_occurrence_scores eng seeds))
         /\ forall p,
              (dict_get_default (_co_occurrence_scores eng seeds) p 0
               == if set_mem p seeds then 0
                  else cooccurrence_with (product_cooccurrence (build_graph ds)) seeds p)%Q
              /\ (In p (dict_keys (_co_occurrence_scores eng seeds))
                  <-> ~ In p seeds
                      /\ exists seed, In seed seeds /\ ordered_together ds seed p).
Proof.
  destruct (new_engine_ok ds d tol iters) as (eng & Hnew & _ & Hgraph & _).
  exists eng. split; [assumption|]. intros seeds.
  split; [apply co_occurrence_scores_NoDup|]. intros p. split.
  - rewrite (@co_occurrence_scores_value ds eng Hgraph), Hgraph. reflexivity.
  - apply (@co_occurrence_scores_keys ds eng Hgraph).
Qed.

Lemma set_union_length (a b : pyset string) :
  (List.length a <= List.length (set_union a b))%nat.
Proof.
  unfold set_union. revert a. induction b as [|x b IH]; intros a; simpl; [lia|].
  etransitivity; [|apply IH]. unfold set_add. destruct (set_mem x a); [lia|].
  rewrite length_app. simpl. lia.
Qed.

Lemma set_inter_length (a b : pyset string) :
  (List.length (set_inter a b) <= List.length a)%nat.
Proof. apply filter_length_le. Qed.

Lemma set_inter_In (a b : pyset string) (x : string) :
  In x (set_inter a b) <-> In x a /\ In x b.
Proof. unfold set_inter. rewrite filter_In, set_mem_true. reflexivity. Qed.

Lemma jaccard_bounds (a b : pyset string) : (0 <= jaccard a b <= 1)%Q.
Proof.
  unfold jaccard. destruct (set_inter a b) as [|x i] eqn:Hi; simpl; [lra|].
  pose proof (set_inter_length a b) as Hle. rewrite Hi in Hle.
  pose proof (set_union_length a b) as Hle'.
  assert (Hpos : (0 < flen (set_union a b))%Q).
  { unfold flen, float_of_int. change 0%Q with (inject_Z 0). rewrite <- Zlt_Qlt.
    simpl in Hle. lia. }
  assert (Hnum : (0 < flen (x :: i) <= flen (set_union a b))%Q).
  { unfold flen, float_of_int. change 0%Q with (inject_Z 0).
    rewrite <- Zlt_Qlt, <- Zle_Qle. simpl List.length in *. lia. }
  split.
  - apply Qle_shift_div_l; [assumption|]. lra.
  - apply Qle_shift_div_r; [assumption|]. lra.
Qed.

Lemma jaccard_pos (a b : pyset string) :
  (0 < jaccard a b)%Q <-> exists c, In c a /\ In c b.
Proof.
  unfold jaccard. destruct (set_inter a b) as [|x i] eqn:Hi; simpl.
  - split; [intros H; exfalso; revert H; apply Qlt_irrefl|].
    intros (c & Ha & Hb). assert (Hc : In c (set_inter a b)) by (apply set_inter_In; auto).
    rewrite Hi in Hc. contradiction.
  - assert (Hx : In x (set_inter a b)) by (rewrite Hi; left; reflexivity).
    apply set_inter_In in Hx. split; [intros _; exists x; assumption|]. intros _.
    pose proof (set_inter_length a b) as Hle. rewrite Hi in Hle.
    pose proof (set_union_length a b) as Hle'.
    apply Qlt_shift_div_l.
    + unfold flen, float_of_int. change 0%Q with (inject_Z 0). rewrite <- Zlt_Qlt.
      simpl in Hle. lia.
    + unfold flen, float_of_int. rewrite Qmult_0_l. change 0%Q with (inject_Z 0).
      rewrite <- Zlt_Qlt. simpl List.length. lia.
Qed.

Lemma jaccard_nil_r (a : pyset string) : jaccard a [] = 0%Q.
Proof.
  unfold jaccard. replace (set_inter a []) with (@nil string); [reflexivity|].
  unfold set_inter. induction a as [|x a IH]; simpl; [reflexivity | assumption].
Qed.

Lemma record_incidence_product_customers_NoDup (cid : string) (pids : list string)
  (st : Accumulators) :
  NoDup (dict_keys (acc_product_customers st)) ->
  NoDup (dict_keys (acc_product_customers (fold_left (record_incidence cid) pids st))).
Proof.
  intros Hnd. apply (fold_left_ind (record_incidence cid)
                       (fun st => NoDup (dict_keys (acc_product_customers st))));
    [assumption|].
  intros pid s _ Hs. simpl. apply dict_set_NoDup. assumption.
Qed.

Lemma product_customers_NoDup (ds : Dataset) :
  NoDup (dict_keys (product_customers (build_graph ds))).
Proof.
  change (NoDup (dict_keys (acc_product_customers (accumulate ds)))). unfold accumulate.
  apply (fold_left_ind process_event
           (fun st => NoDup (dict_keys (acc_product_customers st)))).
  - apply (fold_left_ind process_order
             (fun st => NoDup (dict_keys (acc_product_customers st)))); [constructor|].
    intros o s _ Hs. unfold process_order.
    apply (fold_left_ind record_pair
             (fun st => NoDup (dict_keys (acc_product_customers st)))).
    + apply record_incidence_product_customers_NoDup. assumption.
    + intros lr s' _ Hs'. exact Hs'.
  - intros e s _ Hs. simpl. apply dict_set_NoDup. assumption.
Qed.

Section SimilarityFacts.
Variable self : RecommendationEngine.
Variable seeds : pyset string.

Lemma jaccard_step_correct (cs : pyset string) (acc : Q) (seed : string) :
  (jaccard_step self cs acc seed == acc + jaccard (customers_of self seed) cs)%Q.
Proof.
  unfold jaccard_step, jaccard, customers_of. cbv zeta.
  set (sc := dict_get_default (product_customers (graph self)) seed []).
  destruct (negb (nonempty sc) && negb (nonempty cs)) eqn:Hboth.
  - apply andb_prop in Hboth. destruct Hboth as [Hs _].
    apply negb_true_iff, nonempty_false in Hs. rewrite Hs. simpl. ring.
  - destruct (negb (nonempty (set_union sc cs))) eqn:Hu.
    + apply negb_true_iff, nonempty_false in Hu.
      pose proof (set_union_length sc cs) as Hle. rewrite Hu in Hle.
      destruct sc; [simpl; ring | simpl in Hle; lia].
    + destruct (nonempty (set_inter sc cs)); simpl; [|ring].
      rewrite fadd_correct, fdiv_correct. reflexivity.
Qed.

Lemma jaccard_fold_correct (cs : pyset string) (l : list string) (acc : Q) :
  (fold_left (jaccard_step self cs) l acc
   == acc + qsum (map (fun seed => jaccard (customers_of self seed) cs) l))%Q.
Proof.
  revert acc. induction l as [|seed l IH]; intros acc; simpl; [ring|].
  rewrite IH, jaccard_step_correct. ring.
Qed.

Lemma similarity_with_nonneg (cs : pyset string) : (0 <= similarity_with self seeds cs)%Q.
Proof.
  apply qsum_nonneg. intros x Hx. apply in_map_iff in Hx. destruct Hx as (seed & <- & _).
  apply jaccard_bounds.
Qed.

Lemma similarity_with_le (cs : pyset string) : (similarity_with self seeds cs <= flen seeds)%Q.
Proof.
  unfold similarity_with, flen, float_of_int.
  induction seeds as [|seed l IH]; simpl qsum; simpl List.length; [apply Qle_refl|].
  rewrite Nat2Z.inj_succ, <- Z.add_1_r, inject_Z_plus.
  pose proof (jaccard_bounds (customers_of self seed) cs). change (inject_Z 1) with 1%Q.
  simpl map in IH. lra.
Qed.

Lemma similarity_scores_get (l : dict string (pyset string)) (p : string) :
  NoDup (dict_keys l) ->
  forall scores : dict string Q,
    dict_get
      (fold_left
         (fun scores (cc : string * pyset string) =>
            if set_mem (fst cc) seeds then scores
            else
              let accumulator := fold_left (jaccard_step self (snd cc)) seeds 0%Q in
              if fltb 0%Q accumulator then dict_set scores (fst cc) accumulator
              else scores)
         l scores) p
    = match dict_get l p with
      | Some cs =>
          if set_mem p seeds then dict_get scores p
          else if fltb 0%Q (fold_left (jaccard_step self cs) seeds 0%Q)
               then Some (fold_left (jaccard_step self cs) seeds 0%Q)
               else dict_get scores p
      | None => dict_get scores p
      end.
Proof.
  induction l as [|[k cs] l IH]; intros Hnd scores; simpl; [reflexivity|].
  inversion Hnd as [|? ? Hnotin Hnd']; subst. rewrite IH by assumption.
  destruct (eq_dec p k) as [->|Hne].
  - apply dict_get_None in Hnotin. rewrite Hnotin.
    destruct (set_mem k seeds); [reflexivity|].
    destruct (fltb 0 (fold_left (jaccard_step self cs) seeds 0%Q)); [|reflexivity].
    apply dict_get_set_same.
  - assert (Hsame : dict_get
                      (if set_mem k seeds then scores
                       else if fltb 0 (fold_left (jaccard_step self cs) seeds 0%Q)
                            then dict_set scores k
                                   (fold_left (jaccard_step self cs) seeds 0%Q)
                            else scores) p
                    = dict_get scores p).
    { destruct (set_mem k seeds); [reflexivity|].
      destruct (fltb 0 (fold_left (jaccard_step self cs) seeds 0%Q)); [|reflexivity].
      apply dict_get_set_other. assumption. }
    rewrite Hsame. reflexivity.
Qed.

Lemma similarity_scores_lookup (p : string) :
  NoDup (dict_keys (product_customers (graph self))) ->
  dict_get (_similarity_scores self seeds) p
  = if set_mem p seeds then None
    else if fltb 0%Q (fold_left (jaccard_step self (customers_of self p)) seeds 0%Q)
         then Some (fold_left (jaccard_step self (customers_of self p)) seeds 0%Q)
         else None.
Proof.
  intros Hnd. unfold _similarity_scores. rewrite similarity_scores_get by assumption.
  unfold customers_of, dict_get_default. simpl.
  destruct (dict_get (product_customers (graph self)) p) as [cs|]; [reflexivity|].
  destruct (set_mem p seeds); [reflexivity|].
  destruct (fltb 0 (fold_left (jaccard_step self []) seeds 0%Q)) eqn:Hlt; [|reflexivity].
  exfalso. apply fltb_lt in Hlt. rewrite jaccard_fold_correct in Hlt.
  assert (Hz : (qsum (map (fun seed => jaccard (customers_of self seed) []) seeds) == 0)%Q).
  { clear. induction seeds as [|seed l IH]; simpl; [reflexivity|].
    rewrite jaccard_nil_r, IH. ring. }
  rewrite Hz in Hlt. revert Hlt. apply Qlt_irrefl.
Qed.

Lemma similarity_scores_NoDup : NoDup (dict_keys (_similarity_scores self seeds)).
Proof.
  unfold _similarity_scores. apply fold_left_ind; [constructor|].
  intros [k cs] s _ Hs. simpl. destruct (set_mem k seeds); [assumption|].
  destruct (fltb 0 _); [apply dict_set_NoDup|]; assumption.
Qed.
End SimilarityFacts.

Lemma similarity_scores_facts (ds : Dataset) (eng : RecommendationEngine)
  (seeds : pyset string) (p : string) :
  graph eng = build_graph ds ->
  (dict_get_default (_similarity_scores eng seeds) p 0
   == if set_mem p seeds then 0
      else similarity_with eng seeds (customers_of eng p))%Q
  /\ (In p (dict_keys (_similarity_scores eng seeds))
      <-> ~ In p seeds
          /\ exists seed c, In seed seeds
                            /\ In c (customers_of eng seed) /\ In c (customers_of eng p))
  /\ (forall s, In (p, s) (_similarity_scores eng seeds) -> (0 < s <= flen seeds)%Q).
Proof.
  intros Hgraph.
  assert (Hnd : NoDup (dict_keys (product_customers (graph eng))))
    by (rewrite Hgraph; apply product_customers_NoDup).
  pose proof (similarity_scores_lookup eng seeds p Hnd) as Hget.
  pose proof (jaccard_fold_correct eng (customers_of eng p) seeds 0) as Hsum.
  rewrite Qplus_0_l in Hsum. fold (similarity_with eng seeds (customers_of eng p)) in Hsum.
  pose proof (similarity_with_nonneg eng seeds (customers_of eng p)) as Hnn.
  split; [|split].
  - unfold dict_get_default. rewrite Hget. destruct (set_mem p seeds); [reflexivity|].
    destruct (fltb 0 _) eqn:Hlt; [assumption|].
    apply fltb_ge in Hlt. rewrite Hsum in Hlt. lra.
  - rewrite <- dict_mem_true. unfold dict_mem. rewrite Hget.
    destruct (set_mem p seeds) eqn:Hmem.
    + apply set_mem_true in Hmem. split; [discriminate | tauto].
    + apply set_mem_false in Hmem.
      assert (Hpos : (0 < similarity_with eng seeds (customers_of eng p))%Q
                     <-> exists seed c, In seed seeds /\ In c (customers_of eng seed)
                                        /\ In c (customers_of eng p)).
      { unfold similarity_with. rewrite qsum_pos_iff.
        - split.
          + intros (x & Hx & Hxpos). apply in_map_iff in Hx.
            destruct Hx as (seed & <- & Hseed). apply jaccard_pos in Hxpos.
            destruct Hxpos as (c & Ha & Hb). exists seed, c. auto.
          + intros (seed & c & Hseed & Ha & Hb).
            exists (jaccard (customers_of eng seed) (customers_of eng p)).
            split; [apply in_map_iff; exists seed; auto|].
            apply jaccard_pos. exists c. auto.
        - intros x Hx. apply in_map_iff in Hx. destruct Hx as (seed & <- & _).
          apply jaccard_bounds. }
      rewrite <- Hpos, <- Hsum. destruct (fltb 0 _) eqn:Hlt.
      * apply fltb_lt in Hlt. tauto.
      * apply fltb_ge in Hlt. split; [discriminate|]. intros [_ H]. lra.
  - intros s Hin. apply (In_dict_get _ _ _ (similarity_scores_NoDup eng seeds)) in Hin.
    rewrite Hget in Hin. destruct (set_mem p seeds); [discriminate|].
    destruct (fltb 0 _) eqn:Hlt; [|discriminate]. injection Hin as <-.
    apply fltb_lt in Hlt. split; [assumption|]. rewrite Hsum.
    apply similarity_with_le.
Qed.

(** X12. The similarity score of a candidate is the sum, over the seeds, of the
    Jaccard similarity between the customers of the seed and those of the
    candidate; only candidates outside the seeds that share a customer with
    a seed are scored, and a score never exceeds the number of seeds. *)
Theorem similarity_scores_spec (ds : Dataset) (d tol : Q) (iters : Z) :
  exists eng,
    new_engine (build_graph ds) d tol iters = Ok eng
    /\ forall seeds,
         NoDup (dict_keys (_similarity_scores eng seeds))
         /\ forall p,
              (dict_get_default (_similarity_scores eng seeds) p 0
               == if set_mem p seeds then 0
                  else similarity_with eng seeds (customers_of eng p))%Q
              /\ (In p (dict_keys (_similarity_scores eng seeds))
                  <-> ~ In p seeds
                      /\ exists seed c,
                           In seed seeds
                           /\ In c (dict_get_default (product_customers (build_graph ds))
                                      seed [])
                           /\ In c (dict_get_default (product_customers (build_graph ds))
                                      p []))
              /\ (forall s, In (p, s) (_similarity_scores eng seeds) ->
                     (0 < s <= flen seeds)%Q).
Proof.
  destruct (new_engine_ok ds d tol iters) as (eng & Hnew & _ & Hgraph & _).
  exists eng. split; [assumption|]. intros seeds.
  split; [apply similarity_scores_NoDup|]. intros p.
  destruct (@similarity_scores_facts ds eng seeds p Hgraph) as (Hval & Hkeys & Hbound).
  split; [assumption|]. split; [|assumption].
  unfold customers_of in Hkeys. rewrite Hgraph in Hkeys. exact Hkeys.
Qed.

(** ** Normalisation of scores *)

Lemma fmax_ge_init (x : Q) (xs : list Q) : (x <= fmax x xs)%Q.
Proof.
  unfold fmax. revert x. induction xs as [|y ys IH]; intros x; simpl; [apply Qle_refl|].
  destruct (fltb x y) eqn:Hlt.
  - apply fltb_lt in Hlt. eapply Qle_trans; [apply Qlt_le_weak; exact Hlt | apply IH].
  - apply IH.
Qed.

Lemma fmax_ge (x : Q) (xs : list Q) (y : Q) : In y (x :: xs) -> (y <= fmax x xs)%Q.
Proof.
  revert x. induction xs as [|z zs IH]; intros x Hin.
  - destruct Hin as [<-|[]]. apply Qle_refl.
  - change (fmax x (z :: zs)) with (fmax (if fltb x z then z else x) zs).
    destruct (fltb x z) eqn:Hlt.
    + apply fltb_lt in Hlt. destruct Hin as [<-|[<-|Hin]].
      * eapply Qle_trans; [apply Qlt_le_weak; exact Hlt | apply fmax_ge_init].
      * apply fmax_ge_init.
      * apply IH. right. assumption.
    + apply fltb_ge in Hlt. destruct Hin as [<-|[<-|Hin]].
      * apply fmax_ge_init.
      * eapply Qle_trans; [exact Hlt | apply fmax_ge_init].
      * apply IH. right. assumption.
Qed.

Lemma fmax_In (x : Q) (xs : list Q) : In (fmax x xs) (x :: xs).
Proof.
  revert x. induction xs as [|z zs IH]; intros x; [left; reflexivity|].
  change (fmax x (z :: zs)) with (fmax (if fltb x z then z else x) zs).
  destruct (IH (if fltb x z then z else x)) as [Heq|Hin].
  - rewrite <- Heq. destruct (fltb x z); [right; left | left]; reflexivity.
  - right. right. assumption.
Qed.

Lemma dict_map_items_get {V W : Type} (f : string -> V -> W) (d : dict string V)
  (k : string) (v : V) :
  NoDup (dict_keys d) -> In (k, v) d ->
  dict_get (dict_map_items f d) k = Some (f k v).
Proof.
  intros Hnd Hin. rewrite dict_map_items_NoDup by assumption. apply In_dict_get.
  - unfold dict_keys. rewrite map_map. exact Hnd.
  - apply in_map_iff. exists (k, v). auto.
Qed.

Lemma dict_map_items_keys {V W : Type} (f : string -> V -> W) (d : dict string V) :
  NoDup (dict_keys d) -> dict_keys (dict_map_items f d) = dict_keys d.
Proof.
  intros Hnd. rewrite dict_map_items_NoDup by assumption.
  unfold dict_keys. rewrite map_map. reflexivity.
Qed.

(** What [_normalize_scores] returns for the entry [(k, v)] of [scores]. *)
Lemma normalize_scores_get (scores : dict string Q) (k : string) (v : Q) :
  NoDup (dict_keys scores) -> In (k, v) scores ->
  exists m, In m (dict_values scores)
            /\ (forall y, In y (dict_values scores) -> (y <= m)%Q)
            /\ dict_get (_normalize_scores scores) k
               = Some (if feqb m 0%Q then 0%Q else fdiv v m).
Proof.
  intros Hnd Hin. unfold _normalize_scores.
  destruct (dict_values scores) as [|v0 vs] eqn:Hvals.
  - apply (in_map snd) in Hin. unfold dict_values in Hvals. rewrite Hvals in Hin.
    contradiction.
  - exists (fmax v0 vs). split; [apply fmax_In|]. split; [intros y; apply fmax_ge|].
    cbv zeta. destruct (feqb (fmax v0 vs) 0%Q).
    + apply (dict_map_items_get (fun _ _ => 0%Q) _ _ _ Hnd Hin).
    + apply (dict_map_items_get (fun _ value => fdiv value (fmax v0 vs)) _ _ _ Hnd Hin).
Qed.

Lemma normalize_scores_keys (scores : dict string Q) :
  NoDup (dict_keys scores) -> dict_keys (_normalize_scores scores) = dict_keys scores.
Proof.
  intros Hnd. unfold _normalize_scores. destruct (dict_values scores) as [|v0 vs] eqn:Hvals.
  - destruct scores; [reflexivity | discriminate].
  - cbv zeta. destruct (feqb (fmax v0 vs) 0%Q); apply dict_map_items_keys; assumption.
Qed.

Section NormalizedScores.
Variable scores : dict string Q.
Hypothesis scores_NoDup : NoDup (dict_keys scores).
Hypothesis scores_nonneg : forall k v, In (k, v) scores -> (0 <= v)%Q.

Lemma normalize_scores_value (k : string) (v : Q) :
  In (k, v) scores ->
  exists m, In m (dict_values scores)
            /\ (v <= m)%Q /\ (0 <= m)%Q
            /\ (forall y, In y (dict_values scores) -> (y <= m)%Q)
            /\ (dict_get_default (_normalize_scores scores) k 0
                == if feqb m 0%Q then 0 else v / m)%Q.
Proof.
  intros Hin.
  destruct (@normalize_scores_get scores k v scores_NoDup Hin) as (m & Hm & Hmax & Hget).
  exists m. split; [assumption|].
  assert (Hv : (v <= m)%Q) by (apply Hmax; apply (in_map snd) in Hin; exact Hin).
  split; [assumption|]. split; [specialize (scores_nonneg k v Hin); lra|].
  split; [assumption|]. unfold dict_get_default. rewrite Hget.
  destruct (feqb m 0%Q); [reflexivity | apply fdiv_correct].
Qed.

Lemma maximum_unique (m m' : Q) :
  In m (dict_values scores) -> In m' (dict_values scores) ->
  (forall y, In y (dict_values scores) -> (y <= m)%Q) ->
  (forall y, In y (dict_values scores) -> (y <= m')%Q) -> (m == m')%Q.
Proof. intros Hm Hm' Hle Hle'. apply Qle_antisym; auto. Qed.

Lemma normalize_scores_range (k : string) (v : Q) :
  In (k, v) scores ->
  (0 <= dict_get_default (_normalize_scores scores) k 0 <= 1)%Q
  /\ ((0 < dict_get_default (_normalize_scores scores) k 0)%Q <-> (0 < v)%Q).
Proof.
  intros Hin. destruct (normalize_scores_value k v Hin) as (m & _ & Hv & Hm & _ & ->).
  specialize (scores_nonneg k v Hin). destruct (feqb m 0%Q) eqn:Hz.
  - apply feqb_eq in Hz. split; [lra|]. split; intros H; lra.
  - apply feqb_neq in Hz. assert (Hpos : (0 < m)%Q) by lra. split; [split|split].
    + apply Qle_shift_div_l; [assumption | lra].
    + apply Qle_shift_div_r; [assumption | lra].
    + intros H. destruct (Qlt_le_dec 0 v) as [Hlt|Hle]; [assumption|].
      assert (Hv0 : (v == 0)%Q) by lra. rewrite Hv0 in H.
      unfold Qdiv in H. rewrite Qmult_0_l in H. exfalso. revert H. apply Qlt_irrefl.
    + intros H. apply Qlt_shift_div_l; [assumption | lra].
Qed.

Lemma normalize_scores_monotone (k1 k2 : string) (v1 v2 : Q) :
  In (k1, v1) scores -> In (k2, v2) scores -> (v1 <= v2)%Q ->
  (dict_get_default (_normalize_scores scores) k1 0
   <= dict_get_default (_normalize_scores scores) k2 0)%Q.
Proof.
  intros H1 H2 Hle.
  destruct (normalize_scores_value k1 v1 H1) as (m & Hm & _ & Hm0 & Hmax & ->).
  destruct (normalize_scores_value k2 v2 H2) as (m' & Hm' & _ & _ & Hmax' & ->).
  pose proof (@maximum_unique m m' Hm Hm' Hmax Hmax') as Heq.
  destruct (feqb m 0%Q) eqn:Hz; destruct (feqb m' 0%Q) eqn:Hz'.
  - apply Qle_refl.
  - apply feqb_eq in Hz. apply feqb_neq in Hz'. exfalso. apply Hz'.
    rewrite <- Heq. exact Hz.
  - apply feqb_neq in Hz. apply feqb_eq in Hz'. exfalso. apply Hz.
    rewrite Heq. exact Hz'.
  - apply feqb_neq in Hz. rewrite <- Heq. assert (Hpos : (0 < m)%Q) by lra.
    apply Qle_shift_div_l; [assumption|].
    unfold Qdiv. rewrite <- Qmult_assoc, (Qmult_comm (/ m)), Qmult_inv_r by assumption.
    lra.
Qed.

Lemma normalize_scores_best :
  (exists k v, In (k, v) scores /\ (0 < v)%Q) ->
  exists k, In k (dict_keys scores)
            /\ (dict_get_default (_normalize_scores scores) k 0 == 1)%Q.
Proof.
  intros (k & v & Hin & Hpos).
  destruct (normalize_scores_value k v Hin) as (m & Hm & Hv & _ & Hmax & _).
  unfold dict_values in Hm. apply in_map_iff in Hm. destruct Hm as ([k' m'] & Hk & Hin').
  simpl in Hk. subst m'. exists k'. split; [apply (in_map fst) in Hin'; exact Hin'|].
  destruct (normalize_scores_value k' m Hin') as (m2 & Hm2 & _ & _ & Hmax2 & ->).
  assert (Heq : (m == m2)%Q).
  { apply maximum_unique; try assumption. apply (in_map snd) in Hin'. exact Hin'. }
  destruct (feqb m2 0%Q) eqn:Hz.
  - apply feqb_eq in Hz. lra.
  - rewrite <- Heq. field. lra.
Qed.
End NormalizedScores.

(** X13. Normalisation keeps the keys, maps non-negative scores into [0, 1]
    without changing how they compare, gives a positive value only to a
    positive score, and gives the best candidate the score 1. *)
Theorem normalize_scores_spec (scores : dict string Q) :
  NoDup (dict_keys scores) ->
  (forall k v, In (k, v) scores -> (0 <= v)%Q) ->
  dict_keys (_normalize_scores scores) = dict_keys scores
  /\ (forall k v, In (k, v) scores ->
        (0 <= dict_get_default (_normalize_scores scores) k 0 <= 1)%Q
        /\ ((0 < dict_get_default (_normalize_scores scores) k 0)%Q -> (0 < v)%Q))
  /\ (forall k1 v1 k2 v2, In (k1, v1) scores -> In (k2, v2) scores -> (v1 <= v2)%Q ->
        (dict_get_default (_normalize_scores scores) k1 0
         <= dict_get_default (_normalize_scores scores) k2 0)%Q)
  /\ ((exists k v, In (k, v) scores /\ (0 < v)%Q) ->
      exists k, In k (dict_keys scores)
                /\ (dict_get_default (_normalize_scores scores) k 0 == 1)%Q).
Proof.
  intros Hnd Hnn. split; [apply normalize_scores_keys; assumption|]. split.
  { intros k v Hin.
    destruct (@normalize_scores_range scores Hnd Hnn k v Hin) as [Hrange [Hpos _]].
    split; assumption. }
  split; [intros k1 v1 k2 v2; apply normalize_scores_monotone; assumption|].
  apply normalize_scores_best; assumption.
Qed.

Lemma normalize_scores_spec_witness :
  NoDup (dict_keys [("P1", 2%Q); ("P2", 1%Q)])
  /\ (forall k v, In (k, v) [("P1", 2%Q); ("P2", 1%Q)] -> (0 <= v)%Q)
  /\ dict_keys (_normalize_scores [("P1", 2%Q); ("P2", 1%Q)]) = ["P1"; "P2"].
Proof.
  assert (Hnd : NoDup (dict_keys [("P1", 2%Q); ("P2", 1%Q)])).
  { repeat constructor; simpl; intuition discriminate. }
  assert (Hnn : forall k v, In (k, v) [("P1", 2%Q); ("P2", 1%Q)] -> (0 <= v)%Q).
  { intros k v [[= <- <-]|[[= <- <-]|[]]]; discriminate. }
  split; [exact Hnd|]. split; [exact Hnn|].
  exact (proj1 (@normalize_scores_spec _ Hnd Hnn)).
Defined.

(** ** Personalised PageRank *)

Lemma rk_fold_dict_set (sw : Q) (l : list string) (pid : string) (m : dict string Q) :
  rk (fold_left (fun p seed => dict_set p seed sw) l m) pid
  = if set_mem pid l then sw else rk m pid.
Proof.
  revert m. induction l as [|x l IH]; intros m; simpl; [reflexivity|].
  rewrite IH. unfold rk at 1. rewrite dict_get_default_set. fold (rk m pid).
  destruct (set_mem pid l) eqn:Hl.
  - apply set_mem_true in Hl.
    assert (Hin : set_mem pid (x :: l) = true) by (apply set_mem_true; right; assumption).
    rewrite Hin. reflexivity.
  - apply set_mem_false in Hl. destruct (eq_dec pid x) as [->|Hne].
    + assert (Hin : set_mem x (x :: l) = true) by (apply set_mem_true; left; reflexivity).
      rewrite Hin. reflexivity.
    + assert (Hout : set_mem pid (x :: l) = false).
      { apply set_mem_false. intros [Heq|Hin]; [congruence | contradiction]. }
      rewrite Hout. reflexivity.
Qed.

Lemma rk_dict_from_keys_const (c : Q) (ks : list string) (pid : string) :
  rk (dict_from_keys (fun _ => c) ks) pid = if set_mem pid ks then c else 0%Q.
Proof.
  unfold dict_from_keys. rewrite (rk_fold_dict_set c ks pid []).
  destruct (set_mem pid ks); reflexivity.
Qed.

Section PersonalizedRanks.
Local Open Scope Q_scope.
Variable self : RecommendationEngine.
Hypothesis self_ok : engine_ok self.
Hypothesis damping_range : 0 <= damping self < 1.

Lemma rk_seed_personalization (seeds : pyset string) (pid : string) :
  rk (seed_personalization self seeds) pid
  = if set_mem pid seeds then fdiv 1 (flen seeds) else 0.
Proof.
  unfold seed_personalization. rewrite rk_fold_dict_set, rk_dict_from_keys_const.
  destruct (set_mem pid seeds); [reflexivity|].
  destruct (set_mem pid (_product_ids self)); reflexivity.
Qed.

Lemma seed_weight_pos (seeds : pyset string) : seeds <> [] -> 0 < fdiv 1 (flen seeds).
Proof.
  intros Hne. pose proof (flen_pos Hne) as Hlen. rewrite fdiv_correct.
  apply Qlt_shift_div_l; lra.
Qed.

Lemma rk_seed_personalization_nonneg (seeds : pyset string) (pid : string) :
  seeds <> [] -> 0 <= rk (seed_personalization self seeds) pid.
Proof.
  intros Hne. rewrite rk_seed_personalization. destruct (set_mem pid seeds).
  - apply Qlt_le_weak. apply seed_weight_pos. assumption.
  - apply Qle_refl.
Qed.

(** After normalisation every entry is non-negative, and the entries of
    the seeds are positive. *)
Lemma normalized_seed_personalization (seeds : pyset string) (pid : string) :
  seeds <> [] -> In pid (_product_ids self) ->
  0 <= rk (_normalize_personalization self (seed_personalization self seeds)) pid
  /\ (In pid seeds ->
      0 < rk (_normalize_personalization self (seed_personalization self seeds)) pid).
Proof.
  intros Hne Hpid.
  assert (Hpids : _product_ids self <> []) by (intros Hnil; rewrite Hnil in Hpid; exact Hpid).
  pose proof (flen_pos Hpids) as Hlen.
  rewrite (@rk_normalized self (engine_pids_NoDup self_ok)) by assumption.
  assert (Htot : 0 <= total_rank (_product_ids self) (seed_personalization self seeds)).
  { apply qsum_nonneg. intros x Hx. apply in_map_iff in Hx. destruct Hx as (q & <- & _).
    apply rk_seed_personalization_nonneg. assumption. }
  destruct (feqb (total_rank (_product_ids self) (seed_personalization self seeds)) 0) eqn:Hz.
  - assert (0 < 1 / flen (_product_ids self)) by (apply Qlt_shift_div_l; lra).
    split; [lra | intros _; assumption].
  - apply feqb_neq in Hz.
    assert (Hpos : 0 < total_rank (_product_ids self) (seed_personalization self seeds)) by lra.
    split.
    + apply Qle_shift_div_l; [assumption|]. rewrite Qmult_0_l.
      apply rk_seed_personalization_nonneg. assumption.
    + intros Hseed. apply Qlt_shift_div_l; [assumption|]. rewrite Qmult_0_l.
      rewrite rk_seed_personalization. apply set_mem_true in Hseed. rewrite Hseed.
      apply seed_weight_pos. assumption.
Qed.

Lemma run_pagerank_nonneg (values : dict string Q) :
  _product_ids self <> [] ->
  (forall pid, In pid (_product_ids self) ->
               0 <= rk (_normalize_personalization self values) pid) ->
  exists out,
    _run_pagerank self values = Ok out /\ dict_keys out = _product_ids self
    /\ forall pid, In pid (_product_ids self) ->
         0 <= rk out pid
         /\ (0 < rk (_normalize_personalization self values) pid -> 0 < rk out pid).
Proof.
  intros Hne Hpers. pose proof (flen_pos Hne) as Hlen.
  apply (@run_pagerank_invariant self (engine_pids_NoDup self_ok)
           (engine_neighbors_closed self_ok)
           (fun m => forall pid, In pid (_product_ids self) ->
              0 <= rk m pid
              /\ (0 < rk (_normalize_personalization self values) pid -> 0 < rk m pid))
           values Hne).
  - intros pid Hpid. rewrite (@rk_initial_ranks self (engine_pids_NoDup self_ok)) by assumption.
    rewrite fdiv_correct. assert (0 < 1 / flen (_product_ids self))
      by (apply Qlt_shift_div_l; lra).
    split; [lra | intros _; assumption].
  - intros ranks Hkeys Hinv pid Hpid.
    pose proof (@next_ranks_ge_base self damping_range (engine_weights_nonneg self_ok)
                  (_normalize_personalization self values) ranks pid Hne
                  (fun q Hq => proj1 (Hinv q Hq))) as Hge.
    rewrite (@rk_base_ranks self (engine_pids_NoDup self_ok)) in Hge by assumption.
    rewrite fmul_correct, fsub_correct in Hge.
    specialize (Hpers pid Hpid). split.
    + eapply Qle_trans; [|exact Hge]. apply Qmult_le_0_compat; lra.
    + intros Hpos. eapply Qlt_le_trans; [|exact Hge]. apply Qmult_lt_0_compat; lra.
Qed.

Lemma rank_le_total (out : dict string Q) (pid : string) :
  (forall q, In q (_product_ids self) -> 0 <= rk out q) ->
  In pid (_product_ids self) ->
  rk out pid <= total_rank (_product_ids self) out.
Proof.
  intros Hnn Hpid. apply qsum_member_le.
  - intros y Hy. apply in_map_iff in Hy. destruct Hy as (q & <- & Hq). auto.
  - apply in_map. assumption.
Qed.

Lemma personalized_pagerank_ranks (seeds : pyset string) :
  exists ranks,
    _personalized_pagerank self seeds = Ok ranks
    /\ dict_keys ranks = _product_ids self
    /\ forall pid, In pid (_product_ids self) ->
         0 <= rk ranks pid <= 1 /\ (In pid seeds -> 0 < rk ranks pid).
Proof.
  pose proof (engine_pids_NoDup self_ok) as Hnd.
  destruct seeds as [|seed l] eqn:Hseeds.
  - exists (_global_pagerank self). split; [reflexivity|].
    split; [apply (engine_global_keys self_ok)|]. intros pid Hpid.
    assert (Hne : _product_ids self <> [])
      by (intros Hnil; rewrite Hnil in Hpid; exact Hpid).
    destruct (@run_pagerank_mass self Hnd (engine_neighbors_closed self_ok)
                (engine_rows_normalized self_ok) (_uniform_personalization self) Hne)
      as (out & Hrun & Hkeys & Hmass).
    rewrite (eng_global self_ok) in Hrun. injection Hrun as <-.
    assert (Hpos : forall q, In q (_product_ids self) -> 0 < rk (_global_pagerank self) q).
    { intros q Hq. rewrite <- (engine_global_keys self_ok) in Hq.
      destruct (dict_key_get _ _ Hq) as (v & Hget).
      unfold rk, dict_get_default. rewrite Hget.
      apply (global_pagerank_positive self_ok (q, v) damping_range).
      apply dict_get_In. assumption. }
    split; [split|intros []].
    + apply Qlt_le_weak. auto.
    + rewrite <- Hmass. apply rank_le_total; [|assumption].
      intros q Hq. apply Qlt_le_weak. auto.
  - rewrite <- Hseeds. assert (Hne' : seeds <> []) by (rewrite Hseeds; discriminate).
    clear Hseeds. destruct (nonempty (_product_ids self)) eqn:Hpids.
    + apply nonempty_true in Hpids.
      destruct (@run_pagerank_nonneg (seed_personalization self seeds) Hpids)
        as (out & Hrun & Hkeys & Hout).
      { intros pid Hpid. apply normalized_seed_personalization; assumption. }
      destruct (@run_pagerank_mass self Hnd (engine_neighbors_closed self_ok)
                  (engine_rows_normalized self_ok) (seed_personalization self seeds) Hpids)
        as (out' & Hrun' & _ & Hmass).
      rewrite Hrun in Hrun'. injection Hrun' as <-.
      exists out. split.
      { unfold _personalized_pagerank. apply nonempty_true in Hne'. rewrite Hne'.
        exact Hrun. }
      split; [assumption|]. intros pid Hpid. destruct (Hout pid Hpid) as [H0 Hseed].
      split; [split; [assumption|]|].
      * rewrite <- Hmass. apply rank_le_total; [|assumption].
        intros q Hq. apply Hout. assumption.
      * intros Hin. apply Hseed. apply normalized_seed_personalization; assumption.
    + apply nonempty_false in Hpids.
      destruct (engine_personalized_pagerank self_ok seeds) as (out & Hrun & Hkeys).
      exists out. split; [assumption|]. split; [assumption|].
      rewrite Hpids. intros pid [].
Qed.
End PersonalizedRanks.

(** X14. With a damping factor in [[0, 1)], personalised PageRank returns for
    every seed set one rank per product of the graph, none of them
    negative, and a positive rank for every seed. *)
Theorem personalized_ranks_nonnegative (ds : Dataset) (d tol : Q) (iters : Z) :
  (0 <= d < 1)%Q ->
  exists eng,
    new_engine (build_graph ds) d tol iters = Ok eng
    /\ forall seeds, exists ranks,
         _personalized_pagerank eng seeds = Ok ranks
         /\ dict_keys ranks = dict_keys (product_adjacency (build_graph ds))
         /\ forall p r, In (p, r) ranks ->
              (0 <= r)%Q /\ (In p seeds -> (0 < r)%Q).
Proof.
  intros Hd.
  destruct (new_engine_ok ds d tol iters) as (eng & Hnew & Hok & Hgraph & Hdamp & _).
  exists eng. split; [assumption|]. intros seeds.
  rewrite <- Hdamp in Hd.
  destruct (personalized_pagerank_ranks Hok Hd seeds) as (ranks & Hrun & Hkeys & Hranks).
  exists ranks. split; [assumption|].
  split; [rewrite Hkeys, (eng_product_ids Hok), Hgraph; reflexivity|].
  intros p r Hin.
  assert (Hnd : NoDup (dict_keys ranks)) by (rewrite Hkeys; apply engine_pids_NoDup; assumption).
  assert (Hp : In p (_product_ids eng))
    by (rewrite <- Hkeys; apply (in_map fst) in Hin; exact Hin).
  specialize (Hranks p Hp). unfold rk, dict_get_default in Hranks.
  rewrite (In_dict_get _ _ _ Hnd Hin) in Hranks.
  destruct Hranks as [[H0 _] Hseed]. split; assumption.
Qed.

Lemma personalized_ranks_nonnegative_witness :
  (0 <= default_damping < 1)%Q
  /\ exists eng,
       new_engine (build_graph load_dataset) default_damping default_tolerance
         default_max_iterations = Ok eng
       /\ forall seeds, exists ranks,
            _personalized_pagerank eng seeds = Ok ranks
            /\ dict_keys ranks = dict_keys (product_adjacency (build_graph load_dataset))
            /\ forall p r, In (p, r) ranks ->
                 (0 <= r)%Q /\ (In p seeds -> (0 < r)%Q).
Proof.
  assert (Hd : (0 <= default_damping < 1)%Q) by (split; [discriminate | reflexivity]).
  split; [exact Hd|]. apply personalized_ranks_nonnegative. exact Hd.
Defined.

(** ** Per-strategy rankings *)

Lemma top_items_NoDup (scores : dict string Q) (top_n : Z) (exclude : pyset string) :
  NoDup (dict_keys scores) -> NoDup (map fst (_top_items scores top_n exclude)).
Proof.
  intros Hnd. unfold _top_items. apply slice_to_NoDup.
  eapply Permutation_NoDup.
  - apply Permutation_map. apply Permutation_sym. apply list_sort_perm.
  - apply (filter_keys_NoDup _ scores Hnd).
Qed.

Lemma top_items_ok (scores : dict string Q) (top_n : Z) (exclude : pyset string) :
  NoDup (dict_keys scores) ->
  strategy_ranking_ok exclude top_n scores (_top_items scores top_n exclude).
Proof.
  intros Hnd. split; [apply top_items_sorted; assumption|].
  split; [apply top_items_NoDup; assumption|].
  split; [intros item; apply top_items_In|].
  intros Hn. unfold _top_items. apply slice_to_length. assumption.
Qed.

(** The two shapes of a breakdown. *)
Lemma strategy_breakdown_cases (eng : RecommendationEngine) (cid : string) (top_n : Z) :
  engine_ok eng ->
  dict_mem (customers (dataset (graph eng))) cid = true ->
  (customer_seeds eng cid = []
   /\ strategy_breakdown eng cid top_n
      = Ok [("global_pagerank", _top_items (_global_pagerank eng) top_n [])])
  \/ (customer_seeds eng cid <> []
      /\ exists scores,
           _personalized_pagerank eng (customer_seeds eng cid) = Ok scores
           /\ dict_keys scores = _product_ids eng
           /\ strategy_breakdown eng cid top_n
              = Ok [("co_occurrence",
                     _top_items (_co_occurrence_scores eng (customer_seeds eng cid))
                       top_n (exclusion_set eng cid));
                    ("similarity",
                     _top_items (_similarity_scores eng (customer_seeds eng cid))
                       top_n (exclusion_set eng cid));
                    ("personalized_pagerank",
                     _top_items scores top_n (exclusion_set eng cid))]).
Proof.
  intros Hok Hknown. unfold strategy_breakdown.
  rewrite (ensure_known_customer_true eng cid Hknown). simpl.
  fold (customer_seeds eng cid). fold (exclusion_set eng cid).
  destruct (customer_seeds eng cid) as [|seed l] eqn:Hseeds.
  - left. split; reflexivity.
  - right. rewrite <- Hseeds.
    assert (Hne : nonempty (customer_seeds eng cid) = true) by (rewrite Hseeds; reflexivity).
    rewrite Hne. simpl.
    destruct (engine_personalized_pagerank Hok (customer_seeds eng cid))
      as (scores & Hrun & Hkeys).
    rewrite Hrun. simpl. split; [rewrite Hseeds; discriminate|].
    exists scores. split; [reflexivity|]. split; [assumption|].
    rewrite dict_map_items_NoDup
      by (repeat constructor; simpl; intuition discriminate).
    reflexivity.
Qed.



(** ** Degenerate settings *)

(** X16. With [max_iterations <= 0] the solver does not iterate: the global
    ranks and every personalised rank vector are the uniform start vector,
    whatever the seeds. *)
Theorem no_iteration_gives_uniform_ranks (ds : Dataset) (d tol : Q) (iters : Z) :
  iters <= 0 ->
  exists eng,
    new_engine (build_graph ds) d tol iters = Ok eng
    /\ _global_pagerank eng = initial_ranks eng
    /\ (forall seeds, _personalized_pagerank eng seeds = Ok (initial_ranks eng))
    /\ forall p, In p (dict_keys (product_adjacency (build_graph ds))) ->
         (rk (initial_ranks eng) p
          == 1 / flen (dict_keys (product_adjacency (build_graph ds))))%Q.
Proof.
  intros Hiters.
  destruct (new_engine_ok ds d tol iters) as (eng & Hnew & Hok & Hgraph & _ & _ & Hmax).
  assert (Hrun : forall values, _run_pagerank eng values = Ok (initial_ranks eng)).
  { intros values. unfold _run_pagerank, initial_ranks.
    destruct (_product_ids eng) as [|p ps]; [reflexivity|]. simpl nonempty. cbv iota zeta.
    rewrite Hmax. replace (Z.to_nat iters) with 0%nat by lia. reflexivity. }
  assert (Hglobal : _global_pagerank eng = initial_ranks eng).
  { pose proof (eng_global Hok) as Hg. rewrite Hrun in Hg. congruence. }
  exists eng. split; [assumption|]. split; [assumption|]. split.
  - intros seeds. unfold _personalized_pagerank.
    destruct (negb (nonempty seeds)); [rewrite Hglobal; reflexivity | apply Hrun].
  - intros p Hp. rewrite <- Hgraph, <- (eng_product_ids Hok) in *.
    rewrite (@rk_initial_ranks eng (engine_pids_NoDup Hok)) by assumption.
    apply fdiv_correct.
Qed.

Lemma no_iteration_gives_uniform_ranks_witness :
  0 <= 0
  /\ exists eng,
       new_engine (build_graph load_dataset) default_damping default_tolerance 0 = Ok eng
       /\ _global_pagerank eng = initial_ranks eng
       /\ (forall seeds, _personalized_pagerank eng seeds = Ok (initial_ranks eng))
       /\ forall p, In p (dict_keys (product_adjacency (build_graph load_dataset))) ->
            (rk (initial_ranks eng) p
             == 1 / flen (dict_keys (product_adjacency (build_graph load_dataset))))%Q.
Proof.
  split; [lia|]. apply no_iteration_gives_uniform_ranks. lia.
Defined.

(** X17. A dataset without products and orders gives an empty graph: the
    engine is built without error, every rank vector is empty, and a
    customer without events gets an empty recommendation list. *)
Theorem empty_catalogue (ds : Dataset) (d tol : Q) (iters : Z) :
  products ds = [] -> orders ds = [] ->
  exists eng,
    new_engine (build_graph ds) d tol iters = Ok eng
    /\ _global_pagerank eng = []
    /\ (forall seeds, _personalized_pagerank eng seeds = Ok [])
    /\ forall cid top_n,
         dict_mem (customers ds) cid = true ->
         Forall (fun e => event_customer_id e <> cid) (events ds) ->
         recommend_for_customer eng cid top_n = Ok []
         /\ strategy_breakdown eng cid top_n = Ok [("global_pagerank", [])].
Proof.
  intros Hproducts Horders.
  destruct (new_engine_ok ds d tol iters) as (eng & Hnew & Hok & Hgraph & _).
  assert (Hpids : _product_ids eng = []).
  { rewrite (eng_product_ids Hok), Hgraph.
    destruct (dict_keys (product_adjacency (build_graph ds))) as [|p ps] eqn:Hkeys;
      [reflexivity|].
    assert (Hp : In p (dict_keys (product_adjacency (build_graph ds))))
      by (rewrite Hkeys; left; reflexivity).
    apply adjacency_key_cases in Hp. exfalso. destruct Hp as [Hp|(n & Hn)].
    - unfold product_ids in Hp. rewrite Hproducts in Hp. exact Hp.
    - apply edge_build_graph in Hn. destruct Hn as (o & _ & _ & _ & Ho & _).
      rewrite Horders in Ho. exact Ho. }
  assert (Hrun : forall values, _run_pagerank eng values = Ok []).
  { intros values. unfold _run_pagerank. rewrite Hpids. reflexivity. }
  assert (Hglobal : _global_pagerank eng = []).
  { pose proof (eng_global Hok) as Hg. rewrite Hrun in Hg. congruence. }
  exists eng. split; [assumption|]. split; [assumption|]. split.
  - intros seeds. unfold _personalized_pagerank.
    destruct (negb (nonempty seeds)); [rewrite Hglobal; reflexivity | apply Hrun].
  - intros cid top_n Hmem Hevents.
    destruct (@cold_customer_has_no_seeds ds eng cid Hgraph) as [Hpur Hint];
      [rewrite Horders; constructor | assumption|].
    unfold recommend_for_customer, strategy_breakdown.
    rewrite (ensure_known_customer_true eng cid (built_engine_customer eng cid Hgraph Hmem)).
    simpl. rewrite Hpur, Hint. simpl. unfold _fallback_top_pagerank. rewrite Hglobal.
    unfold _top_items, slice_to. simpl. destruct (top_n <? 0); rewrite firstn_nil.
    + split; reflexivity.
    + split; reflexivity.
Qed.

Lemma empty_catalogue_witness :
  products (Build_Dataset [("C1", Build_Customer "C1" "Ada" "2024-01-01")] [] [] [] []) = []
  /\ orders (Build_Dataset [("C1", Build_Customer "C1" "Ada" "2024-01-01")] [] [] [] []) = []
  /\ exists eng,
       new_engine
         (build_graph
            (Build_Dataset [("C1", Build_Customer "C1" "Ada" "2024-01-01")] [] [] [] []))
         default_damping default_tolerance default_max_iterations = Ok eng
       /\ recommend_for_customer eng "C1" 3 = Ok [].
Proof.
  split; [reflexivity|]. split; [reflexivity|].
  destruct (@empty_catalogue
              (Build_Dataset [("C1", Build_Customer "C1" "Ada" "2024-01-01")] [] [] [] [])
              default_damping default_tolerance default_max_iterations
              eq_refl eq_refl) as (eng & Hnew & _ & _ & Hrec).
  exists eng. split; [exact Hnew|].
  apply (Hrec "C1" 3); [reflexivity | constructor].
Defined.

(** ** Fused scores are at most one *)

Lemma remove_NoDup (names : list string) (n : string) :
  NoDup names -> NoDup (remove string_dec n names).
Proof.
  induction names as [|x names IH]; intros Hnd; simpl; [constructor|].
  inversion Hnd as [|? ? Hnotin Hnd']; subst.
  destruct (string_dec n x); [auto|]. constructor; [|auto].
  intros Hin. apply in_remove in Hin. tauto.
Qed.

Lemma qsum_map_remove (W : string -> Q) (names : list string) (n : string) :
  NoDup names -> In n names ->
  (qsum (map W names) == W n + qsum (map W (remove string_dec n names)))%Q.
Proof.
  induction names as [|x names IH]; intros Hnd Hin; [contradiction|].
  inversion Hnd as [|? ? Hnotin Hnd']; subst. simpl.
  destruct (string_dec n x) as [->|Hne].
  - rewrite notin_remove by assumption. reflexivity.
  - simpl. destruct Hin as [Heq|Hin]; [congruence|]. rewrite (IH Hnd' Hin). ring.
Qed.

(** Contributions under distinct names, each bounded by the weight of its
    name, sum to at most the total weight. *)
Lemma capped_contributions (W : string -> Q) (c : dict string Q) :
  (forall n, (0 <= W n)%Q) ->
  NoDup (dict_keys c) ->
  forall names, NoDup names ->
    (forall n v, In (n, v) c -> In n names /\ (v <= W n)%Q) ->
    (qsum (dict_values c) <= qsum (map W names))%Q.
Proof.
  intros HW. induction c as [|[n v] c IH]; intros Hnd names HS Hc; simpl.
  - apply qsum_nonneg. intros x Hx. apply in_map_iff in Hx. destruct Hx as (k & <- & _).
    apply HW.
  - inversion Hnd as [|? ? Hnotin Hnd']; subst.
    destruct (Hc n v (or_introl eq_refl)) as [Hn Hv].
    rewrite (@qsum_map_remove W names n HS Hn).
    assert (Hrest : (qsum (dict_values c) <= qsum (map W (remove string_dec n names)))%Q).
    { apply IH; [assumption | apply remove_NoDup; assumption |].
      - intros n' v' Hin. destruct (Hc n' v' (or_intror Hin)) as [Hn' Hv'].
        split; [|assumption]. apply in_in_remove; [|assumption].
        intros ->. apply Hnotin. apply (in_map fst) in Hin. exact Hin. }
    fold (dict_values c). lra.
Qed.

Lemma capped_score (contribs : dict string Q) :
  capped contribs -> (fsum (dict_values contribs) <= 1)%Q.
Proof.
  intros [Hnd Hc]. rewrite fsum_correct.
  eapply Qle_trans.
  - apply (@capped_contributions (fun n => dict_get_default STRATEGY_WEIGHTS n 0%Q)
             contribs strategy_weight_nonneg Hnd (dict_keys STRATEGY_WEIGHTS)).
    + repeat constructor; simpl; intuition discriminate.
    + exact Hc.
  - vm_compute. discriminate.
Qed.

Lemma fuse_strategy_capped (exclude : pyset string) (name : string)
  (combined : dict string (dict string Q)) (pv : string * Q) :
  In name (dict_keys STRATEGY_WEIGHTS) ->
  (snd pv <= 1)%Q ->
  Forall (fun pc => capped (snd pc)) combined ->
  Forall (fun pc => capped (snd pc))
    (fuse_strategy exclude name (dict_get_default STRATEGY_WEIGHTS name 0%Q) combined pv).
Proof.
  intros Hname Hle Hall. destruct pv as [p v]. unfold fuse_strategy. cbn [fst snd] in *.
  destruct (set_mem p exclude || fleb v 0); [assumption|].
  apply Forall_dict_set; [assumption|]. simpl.
  assert (Hold : capped (dict_get_default combined p [])).
  { unfold dict_get_default. destruct (dict_get combined p) as [c|] eqn:Hget.
    - apply dict_get_In in Hget. rewrite Forall_forall in Hall.
      apply (Hall (p, c) Hget).
    - split; [constructor | intros n v' []]. }
  destruct Hold as [Hnd Hc]. split; [apply dict_set_NoDup; assumption|].
  intros n v' Hin. apply In_dict_set in Hin. destruct Hin as [Heq|Hin]; [|auto].
  injection Heq as -> ->. split; [assumption|]. rewrite fmul_correct.
  pose proof (strategy_weight_nonneg name) as Hw.
  rewrite <- (Qmult_1_l (dict_get_default STRATEGY_WEIGHTS name 0%Q)) at 2.
  apply Qmult_le_compat_r; assumption.
Qed.

Lemma fuse_capped (exclude : pyset string) (combined : dict string (dict string Q))
  (strategy : string * dict string Q) :
  (forall p v, In (p, v) (snd strategy) -> (v <= 1)%Q) ->
  Forall (fun pc => capped (snd pc)) combined ->
  Forall (fun pc => capped (snd pc)) (fuse exclude combined strategy).
Proof.
  intros Hle Hall. destruct strategy as [name scores]. unfold fuse. cbn [fst snd] in *.
  destruct (feqb (dict_get_default STRATEGY_WEIGHTS name 0%Q) 0%Q) eqn:Hz; [assumption|].
  assert (Hname : In name (dict_keys STRATEGY_WEIGHTS)).
  { apply feqb_neq in Hz. unfold dict_get_default in Hz.
    destruct (dict_get STRATEGY_WEIGHTS name) as [w|] eqn:Hget.
    - eapply dict_get_Some_key. exact Hget.
    - exfalso. apply Hz. reflexivity. }
  apply fold_left_ind; [assumption|].
  intros [p v] s Hin Hs. apply fuse_strategy_capped; [assumption | | assumption].
  simpl. eapply Hle. exact Hin.
Qed.

Lemma combine_strategies_capped (strategies : dict string (dict string Q))
  (exclude : pyset string) (r : Recommendation) :
  (forall name scores p v, In (name, scores) strategies -> In (p, v) scores -> (v <= 1)%Q) ->
  In r (_combine_strategies strategies exclude) ->
  (score r <= 1)%Q /\ capped (contributions r).
Proof.
  intros Hle Hin. unfold _combine_strategies in Hin.
  apply list_sort_In in Hin. apply in_map_iff in Hin. destruct Hin as ([p c] & <- & Hin).
  assert (Hall : Forall (fun pc : string * dict string Q => capped (snd pc))
                   (fold_left (fuse exclude) strategies [])).
  { apply fold_left_ind; [constructor|]. intros [name scores] s Hs Hok.
    apply fuse_capped; [|assumption]. intros q v Hq. eapply Hle; eassumption. }
  rewrite Forall_forall in Hall. specialize (Hall (p, c) Hin). simpl in *.
  split; [apply capped_score|]; assumption.
Qed.

Lemma cooccurrence_count_nonneg (ds : Dataset) (a b : string) :
  0 <= cooccurrence_count (product_cooccurrence (build_graph ds)) a b.
Proof.
  unfold cooccurrence_count, dict_get_default at 2.
  destruct (dict_get (product_cooccurrence (build_graph ds)) a) as [row|] eqn:Hrow;
    [|unfold dict_get_default; simpl; lia].
  destruct (cooc_rows (build_graph_cooccurrence_ok ds) _ Hrow) as [_ Hpos].
  unfold dict_get_default. destruct (dict_get row b) as [c|] eqn:Hc; [|lia].
  apply dict_get_In in Hc. apply Hpos in Hc. lia.
Qed.

Lemma normalized_le_one (scores : dict string Q) (p : string) (v : Q) :
  NoDup (dict_keys scores) ->
  (forall k x, In (k, x) scores -> (0 <= x)%Q) ->
  In (p, v) (_normalize_scores scores) -> (v <= 1)%Q.
Proof.
  intros Hnd Hnn Hin.
  pose proof (@normalize_scores_keys scores Hnd) as Hkeys.
  assert (Hp : In p (dict_keys scores))
    by (rewrite <- Hkeys; apply (in_map fst) in Hin; exact Hin).
  destruct (dict_key_get _ _ Hp) as (x & Hx). apply dict_get_In in Hx.
  destruct (@normalize_scores_range scores Hnd Hnn p x Hx) as [[_ Hle] _].
  assert (Hnd' : NoDup (dict_keys (_normalize_scores scores))) by (rewrite Hkeys; assumption).
  unfold dict_get_default in Hle. rewrite (In_dict_get _ _ _ Hnd' Hin) in Hle. exact Hle.
Qed.



(** ** Fields the pipeline never reads *)

Lemma fold_left_same_view {A V T : Type} (view : A -> V) (step : T -> A -> T)
  (l1 l2 : list A) :
  (forall x y s, view x = view y -> step s x = step s y) ->
  map view l1 = map view l2 ->
  forall s, fold_left step l1 s = fold_left step l2 s.
Proof.
  intros Hstep. revert l2. induction l1 as [|x l1 IH]; intros [|y l2] Hmap s;
    try discriminate; [reflexivity|].
  simpl in *. injection Hmap as Hxy Hmap. rewrite (Hstep x y s Hxy). apply IH. assumption.
Qed.

Lemma process_order_view (o1 o2 : Order) (st : Accumulators) :
  order_view o1 = order_view o2 -> process_order st o1 = process_order st o2.
Proof.
  unfold order_view, process_order. intros [= Hc Hitems]. rewrite Hc, Hitems. reflexivity.
Qed.

Lemma process_event_view (e1 e2 : Event) (st : Accumulators) :
  event_view e1 = event_view e2 -> process_event st e1 = process_event st e2.
Proof.
  unfold event_view, process_event. intros [= Hc Hp Ht]. rewrite Hc, Hp, Ht. reflexivity.
Qed.

Lemma accumulate_same_view (ds1 ds2 : Dataset) :
  map order_view (dict_values (orders ds1)) = map order_view (dict_values (orders ds2)) ->
  map event_view (events ds1) = map event_view (events ds2) ->
  accumulate ds1 = accumulate ds2.
Proof.
  intros Horders Hevents. unfold accumulate.
  rewrite (@fold_left_same_view _ _ _ order_view process_order _ _
             (fun x y s H => @process_order_view x y s H) Horders).
  apply (@fold_left_same_view _ _ _ event_view process_event _ _
           (fun x y s H => @process_event_view x y s H) Hevents).
Qed.

(** X19. Recommendations depend on a dataset only through its customers, its
    product identifiers, the customer and product identifiers of its
    orders, and the customer, product and type of its events: categories,
    names, prices, quantities, identifiers of orders and events, and all
    dates are never read. *)
Theorem recommendations_ignore_other_fields
  (ds1 ds2 : Dataset) (d tol : Q) (iters : Z) (cid : string) (top_n : Z) :
  customers ds1 = customers ds2 ->
  product_ids ds1 = product_ids ds2 ->
  map order_view (dict_values (orders ds1)) = map order_view (dict_values (orders ds2)) ->
  map event_view (events ds1) = map event_view (events ds2) ->
  (eng <- new_engine (build_graph ds1) d tol iters ;;
   recommend_for_customer eng cid top_n)
  = (eng <- new_engine (build_graph ds2) d tol iters ;;
     recommend_for_customer eng cid top_n)
  /\ (eng <- new_engine (build_graph ds1) d tol iters ;;
      strategy_breakdown eng cid top_n)
     = (eng <- new_engine (build_graph ds2) d tol iters ;;
        strategy_breakdown eng cid top_n).
Proof.
  intros Hcustomers Hproducts Horders Hevents.
  pose proof (@accumulate_same_view ds1 ds2 Horders Hevents) as Hacc.
  assert (Hadj : product_adjacency (build_graph ds1) = product_adjacency (build_graph ds2)).
  { change (fold_left normalize_row (acc_cooccurrence (accumulate ds1))
              (_initial_adjacency (product_ids ds1))
            = fold_left normalize_row (acc_cooccurrence (accumulate ds2))
                (_initial_adjacency (product_ids ds2))).
    rewrite Hacc, Hproducts. reflexivity. }
  destruct (new_engine_ok ds1 d tol iters) as (a & Ha & Haok & Hag & Had & Hat & Hai).
  destruct (new_engine_ok ds2 d tol iters) as (b & Hb & Hbok & Hbg & Hbd & Hbt & Hbi).
  rewrite Ha, Hb. simpl.
  assert (Hsolver : same_solver a b).
  { constructor; try congruence.
    rewrite (eng_product_ids Haok), (eng_product_ids Hbok). congruence. }
  apply recommend_same_view. constructor; try assumption.
  - rewrite Hag, Hbg. exact Hcustomers.
  - rewrite Hag, Hbg.
    change (acc_cooccurrence (accumulate ds1) = acc_cooccurrence (accumulate ds2)).
    rewrite Hacc. reflexivity.
  - rewrite Hag, Hbg.
    change (acc_product_customers (accumulate ds1) = acc_product_customers (accumulate ds2)).
    rewrite Hacc. reflexivity.
  - rewrite Hag, Hbg.
    change (acc_customer_products (accumulate ds1) = acc_customer_products (accumulate ds2)).
    rewrite Hacc. reflexivity.
  - intros c. unfold _interacted_products. rewrite Hag, Hbg.
    change (event_weights (build_graph ds1)) with (acc_event_weights (accumulate ds1)).
    change (event_weights (build_graph ds2)) with (acc_event_weights (accumulate ds2)).
    rewrite Hacc. reflexivity.
  - pose proof (eng_global Haok) as Hga. pose proof (eng_global Hbok) as Hgb.
    rewrite (run_pagerank_same _ Hsolver) in Hga.
    unfold _uniform_personalization in Hga, Hgb.
    rewrite (same_product_ids Hsolver) in Hga. rewrite Hga in Hgb.
    injection Hgb as ->. reflexivity.
Qed.

Lemma recommendations_ignore_other_fields_witness :
  customers (unit_quantities load_dataset) = customers load_dataset
  /\ product_ids (unit_quantities load_dataset) = product_ids load_dataset
  /\ map order_view (dict_values (orders (unit_quantities load_dataset)))
     = map order_view (dict_values (orders load_dataset))
  /\ map event_view (events (unit_quantities load_dataset))
     = map event_view (events load_dataset)
  /\ (eng <- new_engine (build_graph (unit_quantities load_dataset)) default_damping
               default_tolerance default_max_iterations ;;
      recommend_for_customer eng "C1" 3)
     = (eng <- new_engine (build_graph load_dataset) default_damping
                 default_tolerance default_max_iterations ;;
        recommend_for_customer eng "C1" 3).
Proof.
  split; [reflexivity|]. split; [reflexivity|]. split; [reflexivity|].
  split; [reflexivity|].
  exact (proj1 (@recommendations_ignore_other_fields
                  (unit_quantities load_dataset) load_dataset
                  default_damping default_tolerance default_max_iterations "C1" 3
                  eq_refl eq_refl eq_refl eq_refl)).
Defined.

(** ** Request handlers *)

Lemma round_half_even_error (y : Q) :
  (Qabs (inject_Z (round_half_even y) - y) <= 1 # 2)%Q.
Proof.
  unfold round_half_even. cbv zeta.
  pose proof (Qfloor_le y) as Hlo. pose proof (Qlt_floor y) as Hhi.
  rewrite inject_Z_plus in Hhi. change (inject_Z 1) with 1%Q in Hhi.
  apply Qabs_Qle_condition.
  destruct (fltb (y - inject_Z (Qfloor y)) (1 # 2)) eqn:Hlt.
  - apply fltb_lt in Hlt. split; lra.
  - apply fltb_ge in Hlt.
    destruct (fltb (1 # 2) (y - inject_Z (Qfloor y))) eqn:Hgt.
    + apply fltb_lt in Hgt. rewrite inject_Z_plus. change (inject_Z 1) with 1%Q.
      split; lra.
    + apply fltb_ge in Hgt. destruct (Z.even (Qfloor y)).
      * split; lra.
      * rewrite inject_Z_plus. change (inject_Z 1) with 1%Q. split; lra.
Qed.

Lemma round_half_even_comp (y1 y2 : Q) :
  (y1 == y2)%Q -> round_half_even y1 = round_half_even y2.
Proof.
  intros Heq. unfold round_half_even. cbv zeta.
  rewrite (Qfloor_comp _ _ Heq).
  assert (Hrest : (y1 - inject_Z (Qfloor y2) == y2 - inject_Z (Qfloor y2))%Q)
    by (rewrite Heq; reflexivity).
  unfold fltb, Qle_bool in *.
  assert (Hle : forall a b c : Q, (a == b)%Q ->
            (Qle_bool a c = Qle_bool b c) /\ (Qle_bool c a = Qle_bool c b)).
  { intros a b c Hab. split.
    - destruct (Qle_bool a c) eqn:Ha; destruct (Qle_bool b c) eqn:Hb; try reflexivity.
      + apply Qle_bool_iff in Ha. rewrite Hab in Ha. apply Qle_bool_iff in Ha. congruence.
      + apply Qle_bool_iff in Hb. rewrite <- Hab in Hb. apply Qle_bool_iff in Hb. congruence.
    - destruct (Qle_bool c a) eqn:Ha; destruct (Qle_bool c b) eqn:Hb; try reflexivity.
      + apply Qle_bool_iff in Ha. rewrite Hab in Ha. apply Qle_bool_iff in Ha. congruence.
      + apply Qle_bool_iff in Hb. rewrite <- Hab in Hb. apply Qle_bool_iff in Hb. congruence. }
  destruct (Hle _ _ (1 # 2)%Q Hrest) as [H1 H2].
  fold (Qle_bool (1 # 2) (y1 - inject_Z (Qfloor y2))).
  fold (Qle_bool (y1 - inject_Z (Qfloor y2)) (1 # 2)).
  fold (Qle_bool (1 # 2) (y2 - inject_Z (Qfloor y2))).
  fold (Qle_bool (y2 - inject_Z (Qfloor y2)) (1 # 2)).
  rewrite H1, H2. reflexivity.
Qed.

Lemma round_half_even_monotone (y1 y2 : Q) :
  (y1 <= y2)%Q -> round_half_even y1 <= round_half_even y2.
Proof.
  intros Hle. destruct (Qlt_le_dec y1 y2) as [Hlt|Hge].
  - pose proof (round_half_even_error y1) as H1.
    pose proof (round_half_even_error y2) as H2.
    apply Qabs_Qle_condition in H1. apply Qabs_Qle_condition in H2.
    destruct (Z_le_gt_dec (round_half_even y1) (round_half_even y2)) as [H|H]; [assumption|].
    exfalso. assert (Hz : round_half_even y2 + 1 <= round_half_even y1) by lia.
    rewrite Zle_Qle, inject_Z_plus in Hz. change (inject_Z 1) with 1%Q in Hz. lra.
  - rewrite (@round_half_even_comp y1 y2); [lia|]. apply Qle_antisym; assumption.
Qed.

Lemma round6_monotone (x y : Q) : (x <= y)%Q -> (round6 x <= round6 y)%Q.
Proof.
  intros Hle. unfold round6. rewrite !Qred_correct.
  assert (Hz : round_half_even (x * 1000000) <= round_half_even (y * 1000000)).
  { apply round_half_even_monotone. lra. }
  rewrite Zle_Qle in Hz.
  set (n := inject_Z (round_half_even (x * 1000000))) in *.
  set (m := inject_Z (round_half_even (y * 1000000))) in *.
  assert (Hn : (n / 1000000 == n * (1 # 1000000))%Q) by (field; discriminate).
  assert (Hm : (m / 1000000 == m * (1 # 1000000))%Q) by (field; discriminate).
  rewrite Hn, Hm. lra.
Qed.

Lemma key_before_ge (a b : string * Q) : key_before a b -> (snd b <= snd a)%Q.
Proof. intros [H|[H _]]; [apply Qlt_le_weak; assumption | rewrite H; apply Qle_refl]. Qed.

Lemma to_response_items_ids (recs : list Recommendation) :
  map resp_product_id (_to_response_items recs) = map product_id recs.
Proof. unfold _to_response_items. rewrite map_map. reflexivity. Qed.

Lemma to_response_items_sorted (recs : list Recommendation) :
  StronglySorted ranked_before recs ->
  StronglySorted (fun a b => (resp_score b <= resp_score a)%Q) (_to_response_items recs).
Proof.
  intros Hs. unfold _to_response_items. apply StronglySorted_map.
  eapply StronglySorted_impl; [|exact Hs].
  intros a b _ _ Hab. simpl. apply round6_monotone. apply (key_before_ge Hab).
Qed.

(** A product's contributions carry each strategy name once. *)
Lemma fusion_names_NoDup (strategies : dict string (dict string Q))
  (exclude : pyset string) :
  Forall (fun pc : string * dict string Q => NoDup (dict_keys (snd pc)))
    (fold_left (fuse exclude) strategies []).
Proof.
  apply fold_left_ind; [constructor|].
  intros [name scores] s _ Hs. unfold fuse. cbn [fst snd].
  destruct (feqb (dict_get_default STRATEGY_WEIGHTS name 0%Q) 0%Q); [assumption|].
  apply fold_left_ind; [assumption|].
  intros pv s' _ Hs'. unfold fuse_strategy.
  destruct (set_mem (fst pv) exclude || fleb (snd pv) 0%Q); [assumption|].
  apply Forall_dict_set; [assumption|]. cbn [snd]. apply dict_set_NoDup.
  unfold dict_get_default.
  destruct (dict_get s' (fst pv)) as [old|] eqn:Hget; [|constructor].
  apply dict_get_In in Hget. rewrite Forall_forall in Hs'. apply (Hs' _ Hget).
Qed.

Lemma ranking_contribution_names (self : RecommendationEngine) (cid : string) :
  engine_ok self ->
  dict_mem (customers (dataset (graph self))) cid = true ->
  exists full,
    (forall top_n, recommend_for_customer self cid top_n = Ok (slice_to full top_n))
    /\ StronglySorted ranked_before full
    /\ forall r, In r full -> NoDup (dict_keys (contributions r)).
Proof.
  intros Hok Hknown.
  destruct (recommend_known_customer cid Hok Hknown)
    as [[Hseeds Hrec]|(Hseeds & ppr & Hppr & Hrec)].
  - exists (global_ranking self). split; [exact Hrec|].
    split; [apply global_ranking_sorted; assumption|].
    intros r Hr. apply global_ranking_In in Hr. destruct Hr as (item & _ & ->).
    simpl. constructor; [intros []|constructor].
  - eexists. split; [exact Hrec|]. split; [apply combine_strategies_sorted|].
    intros r Hr. unfold _combine_strategies in Hr. apply list_sort_In in Hr.
    apply in_map_iff in Hr. destruct Hr as (pc & <- & Hpc).
    pose proof (fusion_names_NoDup
                  (fused_strategies self (customer_seeds self cid) ppr)
                  (exclusion_set self cid)) as Hall.
    rewrite Forall_forall in Hall. apply (Hall _ Hpc).
Qed.

Lemma to_response_items_names (recs : list Recommendation) :
  (forall r, In r recs -> NoDup (dict_keys (contributions r))) ->
  map (fun item => dict_keys (resp_contributions item)) (_to_response_items recs)
  = map (fun r => dict_keys (contributions r)) recs.
Proof.
  intros Hnd. unfold _to_response_items. rewrite map_map. apply map_ext_in.
  intros r Hr. simpl. apply dict_map_items_keys. apply Hnd. assumption.
Qed.


Lemma breakdown_entries_sorted (ranked : list (string * Q)) :
  StronglySorted key_before ranked ->
  StronglySorted (fun a b => (entry_score b <= entry_score a)%Q)
    (map (fun ps : string * Q =>
            {| entry_product_id := fst ps; entry_score := round6 (snd ps) |}) ranked).
Proof.
  intros Hs. apply StronglySorted_map. eapply StronglySorted_impl; [|exact Hs].
  intros a b _ _ Hab. simpl. apply round6_monotone. apply (key_before_ge Hab).
Qed.


(** ** The solver stops at the first small step *)

Lemma delta_of_l1_distance (self : RecommendationEngine) (a b : dict string Q) :
  (delta_of self a b == l1_distance self a b)%Q.
Proof.
  unfold delta_of, l1_distance.
  enough (Hgen : forall xs acc,
             (fold_left (fun acc pid => fadd acc (fabs (fsub (rk a pid) (rk b pid)))) xs acc
              == acc + qsum (map (fun pid => Qabs (rk a pid - rk b pid)) xs))%Q).
  { rewrite Hgen. ring. }
  induction xs as [|x xs IH]; intros acc; cbn [fold_left map].
  - unfold qsum. cbn [fold_right]. ring.
  - rewrite IH, fadd_correct, fabs_correct, fsub_correct.
    unfold qsum. cbn [fold_right]. ring.
Qed.

Section LoopFacts.
Variable self : RecommendationEngine.
Hypothesis self_ok : engine_ok self.
Variable personalization : dict string Q.

Lemma iterate_keys (k : nat) (ranks : dict string Q) :
  dict_keys ranks = _product_ids self ->
  dict_keys (Nat.iter k (next_ranks self personalization) ranks) = _product_ids self.
Proof.
  intros Hkeys. induction k as [|k IH]; simpl; [assumption|].
  apply (@next_ranks_keys self (engine_pids_NoDup self_ok) (engine_neighbors_closed self_ok)).
  assumption.
Qed.

Lemma iterate_shift (k : nat) (ranks : dict string Q) :
  Nat.iter k (next_ranks self personalization) (next_ranks self personalization ranks)
  = Nat.iter (S k) (next_ranks self personalization) ranks.
Proof. symmetry. apply Nat.iter_succ_r. Qed.

Lemma pagerank_loop_iterates (remaining : nat) :
  forall ranks,
    dict_keys ranks = _product_ids self ->
    exists k,
      (k <= remaining)%nat
      /\ pagerank_loop self personalization remaining ranks
         = Ok (Nat.iter k (next_ranks self personalization) ranks)
      /\ (forall j, (S j < k)%nat ->
            ~ (l1_distance self
                 (Nat.iter (S j) (next_ranks self personalization) ranks)
                 (Nat.iter j (next_ranks self personalization) ranks)
               < tolerance self)%Q)
      /\ ((k < remaining)%nat ->
          exists j, k = S j
                    /\ (l1_distance self
                          (Nat.iter (S j) (next_ranks self personalization) ranks)
                          (Nat.iter j (next_ranks self personalization) ranks)
                        < tolerance self)%Q).
Proof.
  induction remaining as [|r IH]; intros ranks Hkeys.
  - exists 0%nat. split; [lia|]. split; [reflexivity|]. split; intros; lia.
  - simpl pagerank_loop.
    rewrite (@pagerank_iteration_pure self (engine_pids_NoDup self_ok)
               (engine_neighbors_closed self_ok) personalization ranks Hkeys).
    simpl.
    destruct (fltb (delta_of self (next_ranks self personalization ranks) ranks)
                (tolerance self)) eqn:Hlt.
    + apply fltb_lt in Hlt. rewrite delta_of_l1_distance in Hlt.
      exists 1%nat. split; [lia|]. split; [reflexivity|]. split; [intros; lia|].
      intros _. exists 0%nat. split; [reflexivity | exact Hlt].
    + apply fltb_ge in Hlt. rewrite delta_of_l1_distance in Hlt.
      assert (Hkeys' : dict_keys (next_ranks self personalization ranks) = _product_ids self)
        by (apply (iterate_keys 1); assumption).
      destruct (IH _ Hkeys') as (k & Hk & Hrun & Hbefore & Hstop).
      exists (S k). split; [lia|]. split; [rewrite Hrun, iterate_shift; reflexivity|].
      split.
      * intros [|j] Hj.
        -- simpl. apply Qle_not_lt. exact Hlt.
        -- rewrite <- !iterate_shift. apply Hbefore. lia.
      * intros Hlt'. destruct Hstop as (j & -> & Hj); [lia|].
        exists (S j). split; [reflexivity|]. rewrite <- !iterate_shift. exact Hj.
Qed.
End LoopFacts.

(** X22. Over a graph with at least one product the solver returns the
    [k]-th iterate of its loop body from the uniform vector, where [k] is
    at most [max_iterations]: no earlier step moved the ranks by less than
    the tolerance in L1 distance, and when [k] is below [max_iterations]
    the last step did. *)
Theorem pagerank_stops_at_first_small_step (ds : Dataset) (d tol : Q) (iters : Z) :
  products ds <> [] ->
  exists eng,
    new_engine (build_graph ds) d tol iters = Ok eng
    /\ forall values,
         exists k,
           (k <= Z.to_nat iters)%nat
           /\ _run_pagerank eng values
              = Ok (iterate_ranks eng (_normalize_personalization eng values) k)
           /\ (forall j, (S j < k)%nat ->
                 ~ (l1_distance eng
                      (iterate_ranks eng (_normalize_personalization eng values) (S j))
                      (iterate_ranks eng (_normalize_personalization eng values) j)
                    < tol)%Q)
           /\ ((k < Z.to_nat iters)%nat ->
               exists j, k = S j
                         /\ (l1_distance eng
                               (iterate_ranks eng (_normalize_personalization eng values) (S j))
                               (iterate_ranks eng (_normalize_personalization eng values) j)
                             < tol)%Q).
Proof.
  intros Hproducts.
  destruct (new_engine_ok ds d tol iters) as (eng & Hnew & Hok & Hgraph & _ & Htol & Hmax).
  exists eng. split; [assumption|]. intros values.
  assert (Hne : nonempty (_product_ids eng) = true).
  { apply nonempty_true. rewrite (eng_product_ids Hok), Hgraph.
    destruct (products ds) as [|[p v] ps] eqn:Hps; [congruence|].
    assert (Hp : In p (product_ids ds)) by (unfold product_ids; rewrite Hps; left; reflexivity).
    apply build_graph_products in Hp. intros Hnil. rewrite Hnil in Hp. exact Hp. }
  unfold _run_pagerank. rewrite Hne. simpl. fold (initial_ranks eng).
  rewrite <- Htol, <- Hmax. unfold iterate_ranks.
  apply pagerank_loop_iterates; [assumption|].
  apply dict_keys_from_keys. apply engine_pids_NoDup. assumption.
Qed.

Lemma pagerank_stops_at_first_small_step_witness :
  products load_dataset <> []
  /\ exists eng,
       new_engine (build_graph load_dataset) default_damping default_tolerance
         default_max_iterations = Ok eng
       /\ forall values,
            exists k,
              (k <= Z.to_nat default_max_iterations)%nat
              /\ _run_pagerank eng values
                 = Ok (iterate_ranks eng (_normalize_personalization eng values) k)
              /\ (forall j, (S j < k)%nat ->
                    ~ (l1_distance eng
                         (iterate_ranks eng (_normalize_personalization eng values) (S j))
                         (iterate_ranks eng (_normalize_personalization eng values) j)
                       < default_tolerance)%Q)
              /\ ((k < Z.to_nat default_max_iterations)%nat ->
                  exists j, k = S j
                            /\ (l1_distance eng
                                  (iterate_ranks eng
                                     (_normalize_personalization eng values) (S j))
                                  (iterate_ranks eng
                                     (_normalize_personalization eng values) j)
                                < default_tolerance)%Q).
Proof.
  assert (Hne : products load_dataset <> []) by (simpl; discriminate).
  split; [exact Hne|]. apply pagerank_stops_at_first_small_step. exact Hne.
Defined.
